(** * rgt.HINT.evaluation: ranked-curve evaluation of footprint predictions

    A shallow embedding of [rgt/HINT/evaluation.py] (class [Evaluation]):
    the constructor, the run of [chip_evaluate] with its score fusion, the
    ROC and precision-recall walks with their (truncated) areas,
    [standardize], the two curve downsamplers, and the reporting code of
    [plot_curve] and [output_points].

    Conventions of the embedding.
    - A Python exception is an [exn]; a call that may raise returns a
      [result].  Statements are sequenced with [x ← e; k].
    - Python [int] is [Z].  Python [float] is an abstract arithmetic [Num F];
      two instances are given: exact rationals [Q] (the arithmetic the
      order-theoretic theorems are proved in) and IEEE binary64 [float]
      (what CPython computes with; used to evaluate examples).
    - A Python [list] is a [list]; a [dict] keyed by the footprint index is a
      [gmap nat _].
    - A text file is the list of the strings written to it; a figure is the
      list of the curves drawn.  What a call has written before it raises
      is not kept.
    - [GenomicRegionSet], numpy, sklearn and matplotlib are collaborators:
      they are section variables where the code only calls them, and small
      models where a theorem is evaluated. *)

From Stdlib Require Import ZArith QArith Qabs Lia Lqa Ascii String Sorted Permutation.
From Stdlib Require Import Floats.PrimFloat Numbers.Cyclic.Int63.Uint63.
From Stdlib Require Floats.SpecFloat Floats.FloatOps Floats.FloatAxioms.
From stdpp Require Import base option list gmap.

(** ** Python runtime: exceptions and results *)

Inductive exn : Type :=
| ZeroDivisionError   (* division by an int or float equal to zero *)
| ValueError          (* max()/min() of an empty list, numpy/sklearn argument checks *)
| IndexError          (* list index or pop out of range *)
| KeyError.           (* missing dict key *)

Inductive result (A : Type) : Type :=
| Ok (a : A)
| Raise (e : exn).
Arguments Ok {A} a.
Arguments Raise {A} e.

#[global] Instance result_ret : MRet result := fun _ a => Ok a.
#[global] Instance result_bind : MBind result := fun _ _ f m =>
  match m with
  | Ok a => f a
  | Raise e => Raise e
  end.

Definition returns {A} (m : result A) : Prop := exists a, m = Ok a.

(** [[f(e) for e in l]] where [f] may raise: elements are evaluated left to
    right and the first exception escapes. *)
Fixpoint comprehension {A B} (f : A -> result B) (l : list A) : result (list B) :=
  match l with
  | [] => Ok []
  | e :: rest => b ← f e; bs ← comprehension f rest; Ok (b :: bs)
  end.

(** ** Float arithmetic interface *)

Class Num (F : Type) : Type := {
  of_int : Z -> F;            (* the float an int operand is promoted to *)
  f0 : F;                     (* 0.0 *)
  f1 : F;                     (* 1.0 *)
  f2 : F;                     (* 2.0 *)
  f_tenth : F;                (* 0.1 *)
  f_hundredth : F;            (* 0.01 *)
  fadd : F -> F -> F;
  fsub : F -> F -> F;
  fmul : F -> F -> F;
  fdiv : F -> F -> F;         (* only called with a non-zero divisor *)
  fabs : F -> F;
  feqb : F -> F -> bool;      (* == *)
  fltb : F -> F -> bool;      (* <  *)
  fleb : F -> F -> bool       (* <= *)
}.

(** Exact rational arithmetic. *)
#[global] Instance Num_Q : Num Q := {|
  of_int := inject_Z;
  f0 := 0%Q;
  f1 := 1%Q;
  f2 := 2%Q;
  f_tenth := (1 # 10)%Q;
  f_hundredth := (1 # 100)%Q;
  fadd := Qplus;
  fsub := Qminus;
  fmul := Qmult;
  fdiv := Qdiv;
  fabs := Qabs;
  feqb := Qeq_bool;
  fltb := fun x y => negb (Qle_bool y x);
  fleb := Qle_bool
|}.

(** IEEE 754 binary64, for ints of magnitude below 2^63. *)
Definition float_of_int (z : Z) : float :=
  if (z <? 0)%Z then PrimFloat.opp (PrimFloat.of_uint63 (Uint63.of_Z (- z)))
  else PrimFloat.of_uint63 (Uint63.of_Z z).

#[global] Instance Num_binary64 : Num float := {|
  of_int := float_of_int;
  f0 := 0%float;
  f1 := 1%float;
  f2 := 2%float;
  f_tenth := 0x1.999999999999ap-4%float;       (* the double written 0.1 *)
  f_hundredth := 0x1.47ae147ae147bp-7%float;   (* the double written 0.01 *)
  fadd := PrimFloat.add;
  fsub := PrimFloat.sub;
  fmul := PrimFloat.mul;
  fdiv := PrimFloat.div;
  fabs := PrimFloat.abs;
  feqb := PrimFloat.eqb;
  fltb := PrimFloat.ltb;
  fleb := PrimFloat.leb
|}.

(** ** Python built-ins on lists *)

Section Builtins.
Context {A : Type}.

(** [len(l)] *)
Definition len (l : list A) : Z := Z.of_nat (length l).

(** [l[j]] for an int [j]: a negative index counts from the end. *)
Definition getitem (l : list A) (j : Z) : result A :=
  let k := (if j <? 0 then j + len l else j)%Z in
  if (k <? 0)%Z then Raise IndexError
  else match l !! Z.to_nat k with
       | Some a => Ok a
       | None => Raise IndexError
       end.

(** [range(n)] *)
Definition range (n : Z) : list Z := map Z.of_nat (seq 0 (Z.to_nat n)).
End Builtins.

Section FloatBuiltins.
Context {F : Type} `{Num F}.

(** [x / n] with [n] an int: raises when [n == 0], else divides by [float(n)]. *)
Definition div_by_int (x : F) (n : Z) : result F :=
  if (n =? 0)%Z then Raise ZeroDivisionError else Ok (fdiv x (of_int n)).

(** [x / y] on floats. *)
Definition div_float (x y : F) : result F :=
  if feqb y f0 then Raise ZeroDivisionError else Ok (fdiv x y).

(** [max(l)]: the first maximal item; [ValueError] on an empty list. *)
Definition py_max (l : list F) : result F :=
  match l with
  | [] => Raise ValueError
  | x :: rest => Ok (fold_left (fun m e => if fltb m e then e else m) rest x)
  end.

(** [min(l)] *)
Definition py_min (l : list F) : result F :=
  match l with
  | [] => Raise ValueError
  | x :: rest => Ok (fold_left (fun m e => if fltb e m then e else m) rest x)
  end.

(** numpy's [diff(x)]: [x[i+1] - x[i]]. *)
Fixpoint diff (x : list F) : list F :=
  match x with
  | a :: (b :: _) as rest => fsub b a :: diff rest
  | _ => []
  end.

(** [y[1:] + y[:-1]] on arrays. *)
Fixpoint pair_sums (y : list F) : list F :=
  match y with
  | a :: (b :: _) as rest => fadd b a :: pair_sums rest
  | _ => []
  end.

(** [trapz(y, x)] of numpy/scipy, [(diff(x) * (y[1:] + y[:-1]) / 2.0).sum()],
    summed left to right.  The first argument is the integrand [y], the
    second the abscissa [x].  It is only called on lists of equal length. *)
Definition trapz (y x : list F) : F :=
  fold_left fadd
    (zip_with (fun d s => fdiv (fmul d s) f2) (diff x) (pair_sums y)) f0.

(** [sklearn.metrics.auc(x, y)]: needs two points and a monotone [x];
    integrates [y] over [x], with the sign flipped when [x] decreases. *)
Definition auc (x y : list F) : result F :=
  if negb (length x =? length y)%nat then Raise ValueError
  else if (length x <? 2)%nat then Raise ValueError
  else
    let dx := diff x in
    if existsb (fun d => fltb d f0) dx then
      if forallb (fun d => fleb d f0) dx
      then Ok (fmul (of_int (-1)) (trapz y x))
      else Raise ValueError
    else Ok (fmul (of_int 1) (trapz y x)).
End FloatBuiltins.

(** ** Data model *)

(** A [GenomicRegion] as [chip_evaluate] uses it.  [data] is the region's
    score column; the code reads it with [int(region.data)] and writes it back
    with [str(...)], so it is kept as the integer it denotes. *)
Record GenomicRegion : Type := {
  chrom : string;
  initial : Z;
  final : Z;
  name : string;
  data : Z
}.

Definition set_data (region : GenomicRegion) (score : Z) : GenomicRegion :=
  {| chrom := chrom region; initial := initial region; final := final region;
     name := name region; data := score |}.

Fixpoint has_colon (s : string) : bool :=
  match s with
  | EmptyString => false
  | String c rest => Ascii.eqb c ":"%char || has_colon rest
  end.

(** [s.split(":")[-1]]: what follows the last colon, or all of [s]. *)
Fixpoint last_token (s : string) : string :=
  match s with
  | EmptyString => EmptyString
  | String c rest =>
      if has_colon rest then last_token rest
      else if Ascii.eqb c ":"%char then rest else s
  end.

(** [str(region.name).split(":")[-1] == "Y"] *)
Definition is_positive (region : GenomicRegion) : bool :=
  String.eqb (last_token (name region)) "Y"%string.

(** [P] and [N] of a ranked list: its positive- and negative-labeled regions. *)
Definition positives (regions : list GenomicRegion) : Z :=
  len (List.filter is_positive regions).
Definition negatives (regions : list GenomicRegion) : Z :=
  len (List.filter (fun region => negb (is_positive region)) regions).

(** ** Score fusion ([chip_evaluate], footprint type "SEG") *)

Section ScoreFusion.
(** The interval arithmetic of [GenomicRegionSet] is a collaborator:
    [intersect mpbs footprints] stands for
    [mpbs.intersect(footprints, mode=OverlapType.ORIGINAL)],
    [subtract mpbs footprints] for
    [mpbs.subtract(footprints, whole_region=True)] and [sort_score] for the
    in-place [sort_score()]. *)
Variable intersect : list GenomicRegion -> list GenomicRegion -> list GenomicRegion.
Variable subtract : list GenomicRegion -> list GenomicRegion -> list GenomicRegion.
Variable sort_score : list GenomicRegion -> list GenomicRegion.

(** Lines 74-80: the maximum score of the MPBS file, plus one. *)
Definition max_score_plus_one (mpbs_regions : list GenomicRegion) : Z :=
  (fold_left (fun max_score region =>
                let score := data region in
                if (max_score <? score)%Z then score else max_score)
             mpbs_regions (-99999999) + 1)%Z.

(** Lines 89-101, before the sort: the overlapped MPBSs with their score
    raised, then the others as they are. *)
Definition increased_score_mpbs_regions
    (mpbs_regions footprints_regions : list GenomicRegion) : list GenomicRegion :=
  let max_score := max_score_plus_one mpbs_regions in
  let intersect_regions := intersect mpbs_regions footprints_regions in
  let increased := map (fun region => set_data region (data region + max_score))
                       intersect_regions in
  let without_intersect_regions := subtract mpbs_regions footprints_regions in
  increased ++ without_intersect_regions.

(** Lines 89-103: the ranked list handed to the curve builders. *)
Definition fuse (mpbs_regions footprints_regions : list GenomicRegion)
    : list GenomicRegion :=
  sort_score (increased_score_mpbs_regions mpbs_regions footprints_regions).
End ScoreFusion.

(** What fusion does to one ground-truth region, given the overlap test
    [overlapping footprints]: the score is raised once when the region is
    overlapped and kept otherwise. *)
Definition fused_region (overlapping : list GenomicRegion -> GenomicRegion -> bool)
    (mpbs footprints : list GenomicRegion) (r : GenomicRegion) : GenomicRegion :=
  if overlapping footprints r
  then set_data r (data r + max_score_plus_one mpbs)
  else r.

(** Modelled from the spec: the overlap test of [GenomicRegionSet], which is
    not part of [evaluation.py].  Two regions overlap when they lie on the
    same chromosome and their half-open ranges meet. *)
Definition overlap (a b : GenomicRegion) : bool :=
  String.eqb (chrom a) (chrom b) && (initial a <? final b)%Z && (initial b <? final a)%Z.

(** Modelled from the spec: a region "overlaps" when it has any overlap with
    any predicted region. *)
Definition overlaps_any (footprints : list GenomicRegion) (region : GenomicRegion) : bool :=
  existsb (overlap region) footprints.

(** Modelled from the spec: [a.intersect(b, mode=OverlapType.ORIGINAL)], the
    regions of [a] that overlap [b], each once however many regions of [b] it
    meets. *)
Definition intersect_model (a b : list GenomicRegion) : list GenomicRegion :=
  List.filter (overlaps_any b) a.

(** Modelled from the spec: [a.subtract(b, whole_region=True)], the regions of
    [a] that do not overlap [b]. *)
Definition subtract_model (a b : list GenomicRegion) : list GenomicRegion :=
  List.filter (fun region => negb (overlaps_any b region)) a.

(** Modelled from the spec: [sort_score()], by score, highest first; regions
    of equal score keep their order. *)
Fixpoint insert_by_score (region : GenomicRegion) (sorted : list GenomicRegion)
    : list GenomicRegion :=
  match sorted with
  | [] => [region]
  | r :: rest =>
      if (data r <=? data region)%Z then region :: sorted
      else r :: insert_by_score region rest
  end.

Definition sort_score_model (regions : list GenomicRegion) : list GenomicRegion :=
  fold_right insert_by_score [] regions.

(** ** Curve building *)

Section Curves.
Context {F : Type} `{Num F}.

(** Lines 182-194: the ROC walk.  [fpr] and [tpr] hold integer counts. *)
Fixpoint roc_walk (regions : list GenomicRegion) (count_x count_y : Z)
    (fpr tpr : list Z) : Z * Z * list Z * list Z :=
  match regions with
  | [] => (count_x, count_y, fpr, tpr)
  | region :: rest =>
      if is_positive region then
        let count_y := (count_y + 1)%Z in
        roc_walk rest count_x count_y (fpr ++ [count_x]) (tpr ++ [count_y])
      else
        let count_x := (count_x + 1)%Z in
        roc_walk rest count_x count_y (fpr ++ [count_x]) (tpr ++ [count_y])
  end.

(** [[e * (1.0 / count) for e in counts]] with int [e] and int [count]. *)
Definition rates (counts : list Z) (count : Z) : result (list F) :=
  comprehension (fun e => r ← div_by_int f1 count; Ok (fmul (of_int e) r)) counts.

(** The value of [e * (1.0 / count)] when [count] is not zero. *)
Definition rate (count e : Z) : F := fmul (of_int e) (fdiv f1 (of_int count)).

(** Lines 182-196: the normalized ROC point sequence. *)
Definition roc_points (regions : list GenomicRegion) : result (list F * list F) :=
  let '(count_x, count_y, fpr, tpr) := roc_walk regions 0 0 [0%Z] [0%Z] in
  fpr ← rates fpr count_x;
  tpr ← rates tpr count_y;
  Ok (fpr, tpr).

(** Lines 246-249. *)
Definition standardize (vector : list F) : result (list F) :=
  maxN ← py_max vector;
  minN ← py_min vector;
  comprehension (fun e => div_float (fsub e minN) (fsub maxN minN)) vector.

(** Lines 205-208 (and 215-219): copy points while [fpr[idx] <= fpr_auc]. *)
Fixpoint prefix_loop (fpr_auc : F) (fpr tpr : list F) (idxs : list Z)
    (fpr_1 tpr_1 : list F) : result (list F * list F) :=
  match idxs with
  | [] => Ok (fpr_1, tpr_1)
  | idx :: rest =>
      x ← getitem fpr idx;
      if fltb fpr_auc x then Ok (fpr_1, tpr_1)
      else
        y ← getitem tpr idx;
        prefix_loop fpr_auc fpr tpr rest (fpr_1 ++ [x]) (tpr_1 ++ [y])
  end.

(** Lines 202-209 for [fpr_auc = 0.1], lines 212-220 for [fpr_auc = 0.01]. *)
Definition truncated_auc (fpr_auc : F) (fpr tpr : list F) : result F :=
  '(fpr_1, tpr_1) ← prefix_loop fpr_auc fpr tpr (range (len fpr)) [] [];
  x ← standardize fpr_1;
  auc x tpr_1.

(** Lines 181-222. *)
Definition roc_curve (sort_score_regions : list GenomicRegion)
    : result (list F * list F * F * F * F) :=
  '(fpr, tpr) ← roc_points sort_score_regions;
  roc_auc ← auc fpr tpr;
  roc_auc_1 ← truncated_auc f_tenth fpr tpr;
  roc_auc_2 ← truncated_auc f_hundredth fpr tpr;
  Ok (fpr, tpr, roc_auc, roc_auc_1, roc_auc_2).

(** Lines 225-237: the precision-recall walk.  [recall] starts with the
    float [0.0] and receives int counts; they are kept as the floats the
    later multiplication promotes them to. *)
Fixpoint pr_walk (regions : list GenomicRegion) (count_x count_y : Z)
    (precision recall : list F) : result (Z * Z * list F * list F) :=
  match regions with
  | [] => Ok (count_x, count_y, precision, recall)
  | region :: rest =>
      if is_positive region then
        let count_y := (count_y + 1)%Z in
        p ← div_by_int (of_int count_y) (count_x + count_y);
        pr_walk rest count_x count_y (precision ++ [p]) (recall ++ [of_int count_y])
      else
        let count_x := (count_x + 1)%Z in
        p ← div_by_int (of_int count_y) (count_x + count_y);
        pr_walk rest count_x count_y (precision ++ [p]) (recall ++ [of_int count_y])
  end.

(** Lines 224-244.  The area is [abs(trapz(recall, precision))]: [recall]
    is passed as the integrand and [precision] as the abscissa. *)
Definition precision_recall_curve (sort_score_regions : list GenomicRegion)
    : result (list F * list F * F) :=
  '(count_x, count_y, precision, recall) ← pr_walk sort_score_regions 0 0 [f0] [f0];
  recall ← comprehension (fun e => r ← div_by_int f1 count_y; Ok (fmul e r)) recall;
  let precision := precision ++ [f0] in
  let recall := recall ++ [f1] in
  let auc := fabs (trapz recall precision) in
  Ok (recall, precision, auc).
End Curves.

(** ** Curve downsampling *)

Definition ceil_div (a b : Z) : Z := (- ((- a) / b))%Z.

(** [[int(math.ceil(e)) for e in np.linspace(0, stop, num)]].  numpy refuses
    a negative [num], returns [[0.0]] for [num = 1] and otherwise the [num]
    points [i * stop / (num - 1)]; the quotient is taken exactly here. *)
Definition linspace_ceil (stop num : Z) : result (list Z) :=
  if (num <? 0)%Z then Raise ValueError
  else if (num =? 1)%Z then Ok [0%Z]
  else Ok (map (fun i => ceil_div (i * stop) (num - 1)) (range num)).

Section Downsampler.
Context {A : Type}.

(** The two dicts the caller passes.  Their lists are shared with the
    callee, so what the callee pops is gone for the caller too; a call
    therefore threads the pair through.  The lists under different keys and
    in the two dicts are distinct objects, as [chip_evaluate] builds them. *)
Definition store : Type := gmap nat (list A) * gmap nat (list A).

Definition stateful (X : Type) : Type := store -> result (X * store).

(** The curves of the first [n] footprint inputs are there, each a pair of
    sequences of one length. *)
Definition curves_present (n : nat) (s : store) : Prop :=
  forall i, (i < n)%nat ->
    exists x y, s.1 !! i = Some x /\ s.2 !! i = Some y /\ length x = length y.

#[global] Instance stateful_ret : MRet stateful := fun _ x s => Ok (x, s).
#[global] Instance stateful_bind : MBind stateful := fun _ _ f m s =>
  match m s with
  | Ok (x, s') => f x s'
  | Raise e => Raise e
  end.

Definition lift {X} (m : result X) : stateful X := fun s =>
  match m with
  | Ok x => Ok (x, s)
  | Raise e => Raise e
  end.

(** Which of the two dicts: the x-values ([fpr], [recall]) or the
    y-values ([tpr], [precision]). *)
Inductive which : Type := xs | ys.

Definition the_dict (d : which) (s : store) : gmap nat (list A) :=
  match d with xs => s.1 | ys => s.2 end.

Definition with_dict (d : which) (m : gmap nat (list A)) (s : store) : store :=
  match d with xs => (m, s.2) | ys => (s.1, m) end.

(** [d[i]], read. *)
Definition dict_get (d : which) (i : nat) : stateful (list A) := fun s =>
  match the_dict d s !! i with
  | Some l => Ok (l, s)
  | None => Raise KeyError
  end.

(** [d[i].pop(0)] *)
Definition pop_first (d : which) (i : nat) : stateful A := fun s =>
  match the_dict d s !! i with
  | None => Raise KeyError
  | Some [] => Raise IndexError
  | Some (a :: l) => Ok (a, with_dict d (<[i := l]> (the_dict d s)) s)
  end.

(** A [for] loop that carries its local variables [acc]. *)
Fixpoint for_each {X Acc} (body : Acc -> X -> stateful Acc) (l : list X) (acc : Acc)
    : stateful Acc :=
  match l with
  | [] => mret acc
  | x :: rest => acc ← body acc x; for_each body rest acc
  end.

(** Lines 259-261 and 282-284: pick the points at the sampled indices. *)
Definition pick_points (i : nat) (new_idx_list : list Z) (acc : list A * list A)
    : stateful (list A * list A) :=
  for_each (fun '(data_x, data_y) j =>
              x_i ← dict_get xs i;
              x ← lift (getitem x_i j);
              y_i ← dict_get ys i;
              y ← lift (getitem y_i j);
              mret (data_x ++ [x], data_y ++ [y]))
           new_idx_list acc.

(** Lines 255-266: one round of the loop of [optimize_roc_points]. *)
Definition optimize_roc_round (max_points : Z)
    (acc : gmap nat (list A) * gmap nat (list A)) (i : nat)
    : stateful (gmap nat (list A) * gmap nat (list A)) :=
  let '(new_fpr, new_tpr) := acc in
  fpr_i ← dict_get xs i;
  if (max_points <? len fpr_i)%Z then
    new_idx_list ← lift (linspace_ceil (len fpr_i - 1) max_points);
    '(new_idx_fpr, new_idx_tpr) ← pick_points i new_idx_list ([], []);
    mret (<[i := new_idx_fpr]> new_fpr, <[i := new_idx_tpr]> new_tpr)
  else
    fpr_i ← dict_get xs i;
    tpr_i ← dict_get ys i;
    mret (<[i := fpr_i]> new_fpr, <[i := tpr_i]> new_tpr).

(** Lines 251-268, with [n = len(self.footprint_name)]; the state holds
    [fpr] and [tpr]. *)
Definition optimize_roc_points (n : nat) (max_points : Z)
    : stateful (gmap nat (list A) * gmap nat (list A)) :=
  for_each (optimize_roc_round max_points) (seq 0 n) (∅, ∅).

(** Lines 277-279: move the leading points out of the caller's lists. *)
Definition pop_points (i : nat) (count : Z) : stateful (list A * list A) :=
  for_each (fun '(data_recall, data_precision) (_ : Z) =>
              r ← pop_first xs i;
              p ← pop_first ys i;
              mret (data_recall ++ [r], data_precision ++ [p]))
           (range count) ([], []).

(** Lines 275-289: one round of the loop of [optimize_pr_points]. *)
Definition optimize_pr_round (max_points : Z)
    (acc : gmap nat (list A) * gmap nat (list A)) (i : nat)
    : stateful (gmap nat (list A) * gmap nat (list A)) :=
  let '(new_recall, new_precision) := acc in
  recall_i ← dict_get xs i;
  '(data_recall, data_precision) ← pop_points i (Z.min max_points (len recall_i));
  recall_i ← dict_get xs i;
  if (max_points <? len recall_i)%Z then
    new_idx_list ← lift (linspace_ceil (len recall_i - 1) max_points);
    '(data_recall, data_precision) ←
      pick_points i new_idx_list (data_recall, data_precision);
    mret (<[i := data_recall]> new_recall, <[i := data_precision]> new_precision)
  else
    recall_i ← dict_get xs i;
    precision_i ← dict_get ys i;
    mret (<[i := data_recall ++ recall_i]> new_recall,
          <[i := data_precision ++ precision_i]> new_precision).

(** Lines 270-291; the state holds [recall] and [precision]. *)
Definition optimize_pr_points (n : nat) (max_points : Z)
    : stateful (gmap nat (list A) * gmap nat (list A)) :=
  for_each (optimize_pr_round max_points) (seq 0 n) (∅, ∅).
End Downsampler.

(** ** Shape of the count sequences *)

(** [climbs lo l hi]: starting from [lo], each entry of [l] repeats the one
    before or exceeds it by one, and the last one is [hi]. *)
Fixpoint climbs (lo : Z) (l : list Z) (hi : Z) : Prop :=
  match l with
  | [] => lo = hi
  | x :: rest => (x = lo \/ x = (lo + 1)%Z) /\ climbs x rest hi
  end.

(** ** The truncated area as the specification words it *)

Section TruncatedAsSpecified.
Context {F : Type} `{Num F}.

(** The longest prefix of [l] whose values are all [<= c]. *)
Fixpoint longest_prefix (c : F) (l : list F) : list F :=
  match l with
  | [] => []
  | x :: rest => if fltb c x then [] else x :: longest_prefix c rest
  end.


End TruncatedAsSpecified.

(** ** Sample inputs *)

Definition region (label : string) (start stop score : Z) : GenomicRegion :=
  {| chrom := "chr1"; initial := start; final := stop; name := label; data := score |}.

Definition site_Y : GenomicRegion := region "MA0139.1:Y" 100 119 12.
Definition site_N : GenomicRegion := region "MA0139.1:N" 300 319 7.

(** One bound site ranked first, then [n] unbound ones. *)
Definition one_hit_then (n : nat) : list GenomicRegion := site_Y :: repeat site_N n.

(** An overlapped MPBS with a negative score and a better-scored one that no
    footprint touches. *)
Definition weak_site : GenomicRegion := region "MA0139.1:Y" 100 119 (-5).
Definition strong_site : GenomicRegion := region "MA0139.1:N" 300 319 10.
Definition one_footprint : list GenomicRegion := [region "fp1" 90 130 0].

(** Curves of one footprint input, as [fpr]/[tpr] or [recall]/[precision]
    dicts with the single key 0. *)
Definition three_point_curve : @store Q :=
  ({[ 0%nat := [0; 1 # 2; 1]%Q ]}, {[ 0%nat := [1; 1 # 2; 0]%Q ]}).
Definition seven_point_curve : @store Q :=
  ({[ 0%nat := [0; 0; 1 # 4; 1 # 2; 1 # 2; 3 # 4; 1]%Q ]},
   {[ 0%nat := [0; 1 # 3; 1 # 3; 1 # 3; 2 # 3; 1; 1]%Q ]}).


(** The end-to-end example of the specification (section 8, item 7): three
    ground-truth sites scored 10, 5, 2 and labeled Y, N, Y; footprints over
    the first and the last. *)
Definition example_mpbs : list GenomicRegion :=
  [region "MA0139.1:Y" 100 119 10; region "MA0139.1:N" 300 319 5;
   region "MA0139.1:Y" 500 519 2].
Definition example_footprints : list GenomicRegion :=
  [region "fp1" 90 130 0; region "fp2" 495 525 0].

(** ** The walks in closed form *)

(** The counts [(count_x, count_y)] after each step of the walk of lines
    186-194 (and 229-237), started from given counts. *)
Fixpoint walk_steps (regions : list GenomicRegion) (count_x count_y : Z) : list (Z * Z) :=
  match regions with
  | [] => []
  | region :: rest =>
      if is_positive region
      then (count_x, (count_y + 1)%Z) :: walk_steps rest count_x (count_y + 1)
      else ((count_x + 1)%Z, count_y) :: walk_steps rest (count_x + 1) count_y
  end.

(** The sum, over the negative-labeled regions of a list, of the number of
    positive-labeled regions seen before, when [count_y] of them precede the
    list. *)
Fixpoint concordant_from (regions : list GenomicRegion) (count_y : Z) : Z :=
  match regions with
  | [] => 0%Z
  | region :: rest =>
      if is_positive region then concordant_from rest (count_y + 1)
      else (count_y + concordant_from rest count_y)%Z
  end.

(** All pairs [(l[i], l[j])] with [i < j]. *)
Fixpoint ordered_pairs {A} (l : list A) : list (A * A) :=
  match l with
  | [] => []
  | a :: rest => map (pair a) rest ++ ordered_pairs rest
  end.

(** The number of pairs of a positive-labeled and a negative-labeled region
    of a ranked list in which the positive-labeled one is ranked first. *)
Definition well_ranked_pairs (regions : list GenomicRegion) : Z :=
  len (List.filter (fun p => is_positive p.1 && negb (is_positive p.2))
                   (ordered_pairs regions)).

(** ** Ranking *)

(** What [sort_score()] is documented to achieve: the scores never increase
    along the list. *)
Definition ranked_by_score (l : list GenomicRegion) : Prop :=
  StronglySorted (fun a b => (data b <= data a)%Z) l.

(** ** What a downsampled curve holds *)

(** [out] holds the entries of [l] at the indices [idxs], in that order. *)
Definition picked {A} (idxs : list Z) (l out : list A) : Prop :=
  Forall2 (fun j a => l !! Z.to_nat j = Some a) idxs out.

(** [ox] and [oy] hold [num] points of the curve [lx], [ly], taken at the
    same strictly increasing indices, the first and the last point among
    them. *)
Definition sampled {A} (num : Z) (lx ly ox oy : list A) : Prop :=
  exists idxs,
    length idxs = Z.to_nat num /\
    head idxs = Some 0%Z /\ last idxs = Some (len lx - 1)%Z /\
    StronglySorted Z.lt idxs /\
    picked idxs lx ox /\ picked idxs ly oy.

(** ** Strings, loops and dicts of the reporting code *)

Definition tab : string := String "009"%char EmptyString.
Definition newline : string := String "010"%char EmptyString.

(** [sep.join(l)] *)
Fixpoint join (sep : string) (l : list string) : string :=
  match l with
  | [] => EmptyString
  | a :: rest =>
      match rest with
      | [] => a
      | _ :: _ => (a ++ sep ++ join sep rest)%string
      end
  end.

(** [s.split(sep)] for a separator of one character. *)
Fixpoint split (sep : ascii) (s : string) : list string :=
  match s with
  | EmptyString => [EmptyString]
  | String c rest =>
      if Ascii.eqb c sep then EmptyString :: split sep rest
      else match split sep rest with
           | [] => [String c EmptyString]
           | word :: words => String c word :: words
           end
  end.


(** [d[i]] on a dict, read. *)
Definition dict_getitem {V} (d : gmap nat V) (i : nat) : result V :=
  match d !! i with
  | Some v => Ok v
  | None => Raise KeyError
  end.

(** A [for] loop that carries its local variables [acc] and may raise. *)
Fixpoint for_in {X Acc} (body : Acc -> X -> result Acc) (l : list X) (acc : Acc)
    : result Acc :=
  match l with
  | [] => Ok acc
  | x :: rest => acc ← body acc x; for_in body rest acc
  end.

(** [max(l)] on ints. *)
Definition max_int (l : list Z) : result Z :=
  match l with
  | [] => Raise ValueError
  | x :: rest => Ok (fold_left (fun m e => if (m <? e)%Z then e else m) rest x)
  end.

(** [l.index(v)] on ints: the first position of [v]. *)
Fixpoint index (l : list Z) (v : Z) : result nat :=
  match l with
  | [] => Raise ValueError
  | x :: rest => if (x =? v)%Z then Ok 0%nat else k ← index rest v; Ok (S k)
  end.

(** ** The evaluation object *)

Record Evaluation : Type := {
  tf_name : string;
  tfbs_file : string;
  footprint_file : list string;
  footprint_name : list string;
  footprint_type : list string;
  print_roc_curve : bool;
  print_pr_curve : bool;
  output_location : string;
  alignment_file : string;
  organism : string
}.


(** ** Writing the curves ([output_points]) *)

Section Tables.
Context {A : Type}.
(** [str] of a float. *)
Variable str : A -> string.

(** Lines 296-301 (and 321-326): the header cells and the curve lengths. *)
Definition table_header (names : list string) (suffix_x suffix_y : string)
    (new_x : gmap nat (list A)) : result (list string * list Z) :=
  for_in (fun '(header, len_vec) i =>
            name_i ← getitem names (Z.of_nat i);
            let header := header ++ [(name_i ++ suffix_x)%string] in
            name_i ← getitem names (Z.of_nat i);
            let header := header ++ [(name_i ++ suffix_y)%string] in
            x_i ← dict_getitem new_x i;
            Ok (header, len_vec ++ [len x_i]))
         (seq 0 (length names)) ([], []).

(** Lines 309-312: one cell, ["NA"] below the end of the curve. *)
Definition table_cell (new_x : gmap nat (list A)) (i : nat) (j : Z) : result string :=
  x_i ← dict_getitem new_x i;
  if (len x_i <=? j)%Z then Ok "NA"%string
  else
    x_i ← dict_getitem new_x i;
    x ← getitem x_i j;
    Ok (str x).

(** Lines 307-316: the cells of row [j]. *)
Definition table_row (n : nat) (new_x new_y : gmap nat (list A)) (j : Z)
    : result (list string) :=
  for_in (fun to_write i =>
            cell_x ← table_cell new_x i j;
            let to_write := to_write ++ [cell_x] in
            cell_y ← table_cell new_y i j;
            Ok (to_write ++ [cell_y]))
         (seq 0 n) [].

(** Lines 296-317 (and 321-342): the strings written to the file, one per
    [write] call, when the block returns. *)
Definition write_table (names : list string) (suffix_x suffix_y : string)
    (new_x new_y : gmap nat (list A)) : result (list string) :=
  '(header, len_vec) ← table_header names suffix_x suffix_y new_x;
  let first := (join tab header ++ newline)%string in
  longest ← max_int len_vec;
  max_idx ← index len_vec longest;
  x_max ← dict_getitem new_x max_idx;
  rows ← comprehension
            (fun j => to_write ← table_row (length names) new_x new_y j;
                      Ok (join tab to_write ++ newline)%string)
            (range (len x_max));
  Ok (first :: rows).

(** Lines 293-342.  The four dicts come as two stores, [fpr]/[tpr] and
    [recall]/[precision]; the result is what is written to the [_roc.txt]
    and to the [_prc.txt] file, with the stores as the call leaves them. *)
Definition output_points (names : list string) (roc prc : @store A)
    : result (list string * list string * @store A * @store A) :=
  '((new_fpr, new_tpr), roc) ← optimize_roc_points (length names) 1000 roc;
  roc_file ← write_table names "_FPR" "_TPR" new_fpr new_tpr;
  '((new_recall, new_precision), prc) ← optimize_pr_points (length names) 1000 prc;
  prc_file ← write_table names "_REC" "_PRE" new_recall new_precision;
  Ok (roc_file, prc_file, roc, prc).

(** The curve stored under key [i], and the cell that row [j] shows for a
    curve: its [j]-th value, or ["NA"] below its end. *)
Definition curve (d : gmap nat (list A)) (i : nat) : list A := default [] (d !! i).
Definition padded_cell (l : list A) (j : nat) : string :=
  match l !! j with
  | Some x => str x
  | None => "NA"%string
  end.
End Tables.

(** ** Drawing the curves ([plot_curve]) *)

Definition color_list : list string :=
  ["#000000"; "#000099"; "#006600"; "#990000"; "#660099"; "#CC00CC"; "#222222"; "#CC9900";
   "#FF6600"; "#0000CC"; "#336633"; "#CC0000"; "#6600CC"; "#FF00FF"; "#555555"; "#CCCC00";
   "#FF9900"; "#0000FF"; "#33CC33"; "#FF0000"; "#663399"; "#FF33FF"; "#888888"; "#FFCC00";
   "#663300"; "#009999"; "#66CC66"; "#FF3333"; "#9933FF"; "#FF66FF"; "#AAAAAA"; "#FFCC33";
   "#993300"; "#00FFFF"; "#99FF33"; "#FF6666"; "#CC99FF"; "#FF99FF"; "#CCCCCC"; "#FFFF00"
  ]%string.

(** One call of [ax.plot]: the two sequences, the colour and the label. *)
Record series (F : Type) : Type := {
  series_x : list F;
  series_y : list F;
  series_color : string;
  series_label : string
}.
Arguments series_x {F} _.
Arguments series_y {F} _.
Arguments series_color {F} _.
Arguments series_label {F} _.

Section Plot.
Context {F : Type}.
(** [str(round(x, 4))] *)
Variable str_round : F -> string.

(** Lines 146-148: the curves handed to [ax.plot] in the loop, in the order
    of the calls.  The figure itself is matplotlib's work. *)
Definition plot_curve (names : list string) (data_x data_y : gmap nat (list F))
    (stats : gmap nat F) : result (list (series F)) :=
  for_in (fun drawn i =>
            x ← dict_getitem data_x i;
            y ← dict_getitem data_y i;
            color ← getitem color_list (Z.of_nat i);
            name_i ← getitem names (Z.of_nat i);
            stat ← dict_getitem stats i;
            Ok (drawn ++ [{| series_x := x; series_y := y; series_color := color;
                             series_label := (name_i ++ ": " ++ str_round stat)%string |}]))
         (seq 0 (length names)) [].

(** What one round of that loop appends. *)
Definition plotted (names : list string) (data_x data_y : gmap nat (list F))
    (stats : gmap nat F) (i : nat) : result (series F) :=
  x ← dict_getitem data_x i;
  y ← dict_getitem data_y i;
  color ← getitem color_list (Z.of_nat i);
  name_i ← getitem names (Z.of_nat i);
  stat ← dict_getitem stats i;
  Ok {| series_x := x; series_y := y; series_color := color;
        series_label := (name_i ++ ": " ++ str_round stat)%string |}.
End Plot.

(** ** The evaluation run ([chip_evaluate]) *)

(** The eight dicts of lines 60-67. *)
Record dicts (F : Type) : Type := {
  dict_fpr : gmap nat (list F);
  dict_tpr : gmap nat (list F);
  dict_roc_auc : gmap nat F;
  dict_roc_auc_1 : gmap nat F;
  dict_roc_auc_2 : gmap nat F;
  dict_recall : gmap nat (list F);
  dict_precision : gmap nat (list F);
  dict_prc_auc : gmap nat F
}.
Arguments dict_fpr {F} _.
Arguments dict_tpr {F} _.
Arguments dict_roc_auc {F} _.
Arguments dict_roc_auc_1 {F} _.
Arguments dict_roc_auc_2 {F} _.
Arguments dict_recall {F} _.
Arguments dict_precision {F} _.
Arguments dict_prc_auc {F} _.

(** The curves of key [i] are all there, the two sequences of each curve
    of one length. *)
Definition stored {F} (d : dicts F) (i : nat) : Prop :=
  (exists x y, dict_fpr d !! i = Some x /\ dict_tpr d !! i = Some y /\
               length x = length y) /\
  (exists x y, dict_recall d !! i = Some x /\ dict_precision d !! i = Some y /\
               length x = length y) /\
  is_Some (dict_roc_auc d !! i) /\ is_Some (dict_roc_auc_1 d !! i) /\
  is_Some (dict_roc_auc_2 d !! i) /\ is_Some (dict_prc_auc d !! i).

(** What a run leaves on disk: text files as the strings written to them,
    figures as the curves drawn. *)
Inductive written (F : Type) : Type :=
| Text (path : string) (lines : list string)
| Figure (path : string) (curves : list (series F)).
Arguments Text {F} path lines.
Arguments Figure {F} path curves.

Section ChipEvaluate.
Context {F : Type} `{Num F}.
(** Collaborators: [read_bed path] is the content of a BED file as
    [GenomicRegionSet.read_bed] loads it, [sort] the coordinate sort,
    [intersect], [subtract] and [sort_score] as for the score fusion. *)
Variable read_bed : string -> list GenomicRegion.
Variable sort : list GenomicRegion -> list GenomicRegion.
Variable intersect subtract : list GenomicRegion -> list GenomicRegion -> list GenomicRegion.
Variable sort_score : list GenomicRegion -> list GenomicRegion.
(** Line 94 assigns to [region.data] of the regions that [intersect]
    returned.  [updated_in_place mpbs footprints max_score] is the MPBS set
    as that leaves it: [mpbs] itself when [intersect] returns regions of its
    own, [mpbs] with the overlapped regions re-scored when it returns the
    regions of [mpbs]. *)
Variable updated_in_place :
  list GenomicRegion -> list GenomicRegion -> Z -> list GenomicRegion.
(** [str] of a float, and [str(round(x, 4))]. *)
Variable str : F -> string.
Variable str_round : F -> string.

Definition no_curves : dicts F :=
  {| dict_fpr := ∅; dict_tpr := ∅; dict_roc_auc := ∅; dict_roc_auc_1 := ∅;
     dict_roc_auc_2 := ∅; dict_recall := ∅; dict_precision := ∅; dict_prc_auc := ∅ |}.

(** Lines 105-106 (and 109-110): both curves of one ranked list, stored
    under key [i]. *)
Definition evaluate_ranked (d : dicts F) (i : nat) (ranked : list GenomicRegion)
    : result (dicts F) :=
  '(fpr_i, tpr_i, roc_auc_i, roc_auc_1_i, roc_auc_2_i) ← roc_curve ranked;
  let d := {| dict_fpr := <[i := fpr_i]> (dict_fpr d);
              dict_tpr := <[i := tpr_i]> (dict_tpr d);
              dict_roc_auc := <[i := roc_auc_i]> (dict_roc_auc d);
              dict_roc_auc_1 := <[i := roc_auc_1_i]> (dict_roc_auc_1 d);
              dict_roc_auc_2 := <[i := roc_auc_2_i]> (dict_roc_auc_2 d);
              dict_recall := dict_recall d;
              dict_precision := dict_precision d;
              dict_prc_auc := dict_prc_auc d |} in
  '(recall_i, precision_i, prc_auc_i) ← precision_recall_curve ranked;
  Ok {| dict_fpr := dict_fpr d;
        dict_tpr := dict_tpr d;
        dict_roc_auc := dict_roc_auc d;
        dict_roc_auc_1 := dict_roc_auc_1 d;
        dict_roc_auc_2 := dict_roc_auc_2 d;
        dict_recall := <[i := recall_i]> (dict_recall d);
        dict_precision := <[i := precision_i]> (dict_precision d);
        dict_prc_auc := <[i := prc_auc_i]> (dict_prc_auc d) |}.

(** Lines 83-110: one round of the loop over the footprint files.  The
    state is the dicts and the MPBS set. *)
Definition evaluate_footprints (self : Evaluation) (max_score : Z)
    (state : dicts F * list GenomicRegion) (i : nat)
    : result (dicts F * list GenomicRegion) :=
  let '(d, mpbs_regions) := state in
  file_i ← getitem (footprint_file self) (Z.of_nat i);
  let footprints_regions := sort (read_bed file_i) in
  type_i ← getitem (footprint_type self) (Z.of_nat i);
  if String.eqb type_i "SEG" then
    let intersect_regions := intersect mpbs_regions footprints_regions in
    let increased :=
      map (fun region => set_data region (data region + max_score)) intersect_regions in
    let mpbs_regions := updated_in_place mpbs_regions footprints_regions max_score in
    let without_intersect_regions := subtract mpbs_regions footprints_regions in
    let increased_score_mpbs_regions :=
      sort_score (increased ++ without_intersect_regions) in
    d ← evaluate_ranked d i increased_score_mpbs_regions;
    Ok (d, mpbs_regions)
  else
    type_i ← getitem (footprint_type self) (Z.of_nat i);
    if String.eqb type_i "SC" then
      d ← evaluate_ranked d i (sort_score footprints_regions);
      Ok (d, mpbs_regions)
    else Ok (d, mpbs_regions).

(** Lines 69-110. *)
Definition evaluate_all (self : Evaluation) : result (dicts F) :=
  let seg := existsb (String.eqb "SEG") (footprint_type self) in
  let mpbs_regions := if seg then sort (read_bed (tfbs_file self)) else [] in
  let max_score := if seg then max_score_plus_one mpbs_regions else 0%Z in
  '(d, _) ← for_in (evaluate_footprints self max_score)
                   (seq 0 (length (footprint_file self))) (no_curves, mpbs_regions);
  Ok d.

(** Lines 113-119: the lines of the statistics file. *)
Definition stats_lines (self : Evaluation) (d : dicts F) : result (list string) :=
  let stats_header := ["METHOD"; "AUC_100"; "AUC_10"; "AUC_1"; "AUPR"]%string in
  rows ← comprehension
            (fun i =>
               name_i ← getitem (footprint_name self) (Z.of_nat i);
               roc_auc_i ← dict_getitem (dict_roc_auc d) i;
               roc_auc_1_i ← dict_getitem (dict_roc_auc_1 d) i;
               roc_auc_2_i ← dict_getitem (dict_roc_auc_2 d) i;
               prc_auc_i ← dict_getitem (dict_prc_auc d) i;
               Ok (name_i ++ tab ++ str roc_auc_i ++ tab ++ str roc_auc_1_i ++ tab
                     ++ str roc_auc_2_i ++ tab ++ str prc_auc_i ++ newline)%string)
            (seq 0 (length (footprint_name self)));
  Ok ((join tab stats_header ++ newline)%string :: rows).

(** Lines 51-133: what the run writes, in the order of the files, when it
    returns. *)
Definition chip_evaluate (self : Evaluation) : result (list (written F)) :=
  d ← evaluate_all self;
  stats ← stats_lines self d;
  let stats_fname := (output_location self ++ tf_name self ++ "_stats.txt")%string in
  roc_figure ←
    (if print_roc_curve self then
       drawn ← plot_curve str_round (footprint_name self)
                 (dict_fpr d) (dict_tpr d) (dict_roc_auc d);
       Ok [Figure (output_location self ++ tf_name self ++ "_" ++ "ROC" ++ ".png")%string
                  drawn]
     else Ok []);
  prc_figure ←
    (if print_pr_curve self then
       drawn ← plot_curve str_round (footprint_name self)
                 (dict_recall d) (dict_precision d) (dict_prc_auc d);
       Ok [Figure (output_location self ++ tf_name self ++ "_" ++ "PRC" ++ ".png")%string
                  drawn]
     else Ok []);
  '(roc_file, prc_file, _, _) ←
    output_points str (footprint_name self)
                  (dict_fpr d, dict_tpr d) (dict_recall d, dict_precision d);
  Ok ([Text stats_fname stats] ++ roc_figure ++ prc_figure ++
      [Text (output_location self ++ tf_name self ++ "_roc.txt")%string roc_file;
       Text (output_location self ++ tf_name self ++ "_prc.txt")%string prc_file]).
End ChipEvaluate.

(** ** A sample run *)

(** One footprint file of type "SC" that holds one bound site and 100
    unbound ones; both figures are drawn. *)
Definition example_evaluation : Evaluation :=
  {| tf_name := "CTCF"; tfbs_file := "mpbs.bed";
     footprint_file := ["hint.bed"%string]; footprint_name := ["HINT"%string];
     footprint_type := ["SC"%string];
     print_roc_curve := true; print_pr_curve := true;
     output_location := "out/"; alignment_file := "reads.bam"; organism := "hg19" |}.

(** The same run with a type tag that the loop does not know. *)
Definition mistyped_evaluation : Evaluation :=
  {| tf_name := "CTCF"; tfbs_file := "mpbs.bed";
     footprint_file := ["hint.bed"%string]; footprint_name := ["HINT"%string];
     footprint_type := ["sc"%string];
     print_roc_curve := true; print_pr_curve := true;
     output_location := "out/"; alignment_file := "reads.bam"; organism := "hg19" |}.

Definition example_read_bed (path : string) : list GenomicRegion := one_hit_then 100.

(** A stand-in for [str] on floats. *)
Definition example_str (x : Q) : string := "x"%string.

Definition example_chip_evaluate (self : Evaluation) : result (list (written Q)) :=
  chip_evaluate example_read_bed (fun regions => regions)
                intersect_model subtract_model sort_score_model
                (fun mpbs_regions _ _ => mpbs_regions)
                example_str example_str self.

(** ** Binary64 values

    The meaning of the primitive float operations is given by
    [FloatAxioms] in terms of [SpecFloat]: a value is a zero, an infinity, a
    NaN or a sign, a mantissa and an exponent. *)

(** A finite number: a zero or a sign, a mantissa and an exponent. *)
Definition binary64_finite (x : float) : Prop :=
  match FloatOps.Prim2SF x with
  | SpecFloat.S754_zero _ | SpecFloat.S754_finite _ _ _ => True
  | _ => False
  end.

(** 1.0: mantissa [2^52], exponent [-52]. *)
Definition SF_one : SpecFloat.spec_float :=
  SpecFloat.S754_finite false 4503599627370496 (-52).

(** A mantissa being shifted right stays at or below one, [m * 2^e <= 1],
    and strictly below when bits have been shifted out. *)
Definition below_one (mrs : SpecFloat.shr_record) (e : Z) : Prop :=
  (0 <= SpecFloat.shr_m mrs)%Z /\ (SpecFloat.shr_m mrs <= 2 ^ (- e))%Z /\
  (SpecFloat.shr_r mrs || SpecFloat.shr_s mrs = true ->
   (SpecFloat.shr_m mrs < 2 ^ (- e))%Z).

(** * Properties *)

(** ** Score fusion *)

Lemma max_score_fold_ge (l : list GenomicRegion) (a : Z) :
  let m := fold_left (fun max_score region =>
                        let score := data region in
                        if (max_score <? score)%Z then score else max_score) l a in
  (a <= m)%Z /\ (forall r, In r l -> (data r <= m)%Z) /\
  (m = a \/ exists r, In r l /\ m = data r).
Proof.
  revert a. induction l as [|x l IH]; intros a; simpl.
  - repeat split; [lia | tauto | now left].
  - specialize (IH (if (a <? data x)%Z then data x else a)).
    simpl in IH. destruct IH as (Hge & Hall & Hwit).
    destruct (Z.ltb_spec a (data x)) as [Hlt|Hle].
    + repeat split.
      * lia.
      * intros r [<-|Hr]; [lia | now apply Hall].
      * right. destruct Hwit as [->|(r & Hr & ->)]; eauto.
    + repeat split.
      * lia.
      * intros r [<-|Hr]; [lia | now apply Hall].
      * destruct Hwit as [->|(r & Hr & ->)]; [now left | right; eauto].
Qed.

Lemma max_score_plus_one_above (mpbs : list GenomicRegion) (r : GenomicRegion) :
  In r mpbs -> (data r < max_score_plus_one mpbs)%Z.
Proof.
  intros Hr. unfold max_score_plus_one.
  destruct (max_score_fold_ge mpbs (-99999999)) as (_ & Hall & _).
  specialize (Hall r Hr). simpl in Hall. lia.
Qed.

Lemma max_score_plus_one_attained (mpbs : list GenomicRegion) :
  max_score_plus_one mpbs = (-99999998)%Z \/
  exists r, In r mpbs /\ max_score_plus_one mpbs = (data r + 1)%Z.
Proof.
  unfold max_score_plus_one.
  destruct (max_score_fold_ge mpbs (-99999999)) as (_ & _ & [Heq|(r & Hr & Heq)]);
    simpl in Heq; rewrite Heq; [now left | right; eauto].
Qed.

Lemma insert_by_score_perm (r : GenomicRegion) (l : list GenomicRegion) :
  Permutation (insert_by_score r l) (r :: l).
Proof.
  induction l as [|x l IH]; simpl; [reflexivity|].
  destruct (data x <=? data r)%Z; [reflexivity|].
  rewrite IH. apply perm_swap.
Qed.

Lemma sort_score_model_perm (l : list GenomicRegion) :
  Permutation (sort_score_model l) l.
Proof.
  induction l as [|x l IH]; simpl; [reflexivity|].
  rewrite insert_by_score_perm. now constructor.
Qed.

Section ScoreFusionFacts.
(** What the collaborators are required to do (specification, section 1):
    [intersect] returns the regions of its first set that overlap its second
    set, [subtract] those that do not, [sort_score] reorders. *)
Variable overlapping : list GenomicRegion -> GenomicRegion -> bool.
Variable intersect subtract : list GenomicRegion -> list GenomicRegion -> list GenomicRegion.
Variable sort_score : list GenomicRegion -> list GenomicRegion.
Hypothesis intersect_spec : forall a b,
  Permutation (intersect a b) (List.filter (overlapping b) a).
Hypothesis subtract_spec : forall a b,
  Permutation (subtract a b) (List.filter (fun r => negb (overlapping b r)) a).
Hypothesis sort_score_spec : forall l, Permutation (sort_score l) l.

Lemma boost_partition (p : GenomicRegion -> bool) (g : GenomicRegion -> GenomicRegion)
    (l : list GenomicRegion) :
  Permutation (map g (List.filter p l) ++ List.filter (fun r => negb (p r)) l)
              (map (fun r => if p r then g r else r) l).
Proof.
  induction l as [|x l IH]; simpl; [reflexivity|].
  destruct (p x); simpl.
  - now constructor.
  - rewrite <- Permutation_middle. now constructor.
Qed.

Lemma fuse_perm (mpbs footprints : list GenomicRegion) :
  Permutation (fuse intersect subtract sort_score mpbs footprints)
              (map (fused_region overlapping mpbs footprints) mpbs).
Proof.
  unfold fuse, increased_score_mpbs_regions, fused_region.
  rewrite sort_score_spec, intersect_spec, subtract_spec.
  apply (boost_partition (overlapping footprints)
           (fun r => set_data r (data r + max_score_plus_one mpbs))).
Qed.

(** C3 (as amended).  With [M] one plus the larger of -99999999 and the
    highest ground-truth score, every ground-truth region that overlaps a
    footprint is in the fused list with score [original + M], every other
    one is there unchanged, and an overlapped region whose original score is
    not negative is fused to a score strictly above the original score of
    every region without overlap. *)
Theorem boosted_overlap_outranks (mpbs footprints : list GenomicRegion) :
  let M := max_score_plus_one mpbs in
  let fused := fuse intersect subtract sort_score mpbs footprints in
  (forall r, In r mpbs -> (data r < M)%Z) /\
  (M = (-99999998)%Z \/ exists r, In r mpbs /\ M = (data r + 1)%Z) /\
  (forall r, In r mpbs -> overlapping footprints r = true ->
     In (set_data r (data r + M)) fused) /\
  (forall r, In r mpbs -> overlapping footprints r = false -> In r fused) /\
  (forall hit miss, In hit mpbs -> In miss mpbs ->
     overlapping footprints hit = true -> overlapping footprints miss = false ->
     (0 <= data hit)%Z ->
     (data miss < data (set_data hit (data hit + M)))%Z).
Proof.
  intros M fused. split; [|split; [|split; [|split]]].
  - intros r Hr. now apply max_score_plus_one_above.
  - apply max_score_plus_one_attained.
  - intros r Hr Hov. subst fused.
    eapply Permutation_in; [symmetry; apply fuse_perm|].
    apply in_map_iff. exists r. split; [|assumption].
    unfold fused_region. now rewrite Hov.
  - intros r Hr Hov. subst fused.
    eapply Permutation_in; [symmetry; apply fuse_perm|].
    apply in_map_iff. exists r. split; [|assumption].
    unfold fused_region. now rewrite Hov.
  - intros hit miss Hhit Hmiss _ _ Hpos. simpl.
    pose proof (max_score_plus_one_above mpbs miss Hmiss). subst M. lia.
Qed.

(** C6.  Fusion neither drops nor duplicates a ground-truth region: the
    fused list is the ground-truth list with each overlapped region
    re-scored, in some order, so both have the same number of entries. *)
Theorem fusion_preserves_cardinality (mpbs footprints : list GenomicRegion) :
  let fused := fuse intersect subtract sort_score mpbs footprints in
  Permutation fused (map (fused_region overlapping mpbs footprints) mpbs) /\
  length fused = length mpbs.
Proof.
  intros fused. split; [apply fuse_perm|].
  subst fused. rewrite (Permutation_length (fuse_perm mpbs footprints)).
  apply length_map.
Qed.
End ScoreFusionFacts.

Lemma score_fusion_models_meet_spec :
  (forall a b, Permutation (intersect_model a b) (List.filter (overlaps_any b) a)) /\
  (forall a b, Permutation (subtract_model a b)
                 (List.filter (fun r => negb (overlaps_any b r)) a)) /\
  (forall l, Permutation (sort_score_model l) l).
Proof.
  split; [|split]; intros; try reflexivity. apply sort_score_model_perm.
Qed.

Lemma boosted_overlap_outranks_witness :
  let mpbs := [site_Y; site_N; weak_site] in
  let M := max_score_plus_one mpbs in
  let fused := fuse intersect_model subtract_model sort_score_model mpbs one_footprint in
  (forall r, In r mpbs -> (data r < M)%Z) /\
  (M = (-99999998)%Z \/ exists r, In r mpbs /\ M = (data r + 1)%Z) /\
  (forall r, In r mpbs -> overlaps_any one_footprint r = true ->
     In (set_data r (data r + M)) fused) /\
  (forall r, In r mpbs -> overlaps_any one_footprint r = false -> In r fused) /\
  (forall hit miss, In hit mpbs -> In miss mpbs ->
     overlaps_any one_footprint hit = true -> overlaps_any one_footprint miss = false ->
     (0 <= data hit)%Z ->
     (data miss < data (set_data hit (data hit + M)))%Z).
Proof.
  apply (boosted_overlap_outranks overlaps_any intersect_model subtract_model
           sort_score_model);
    apply score_fusion_models_meet_spec.
Defined.

(** The pairwise ranking as the specification states it fails when an
    overlapped region has a negative score: with scores -5 (overlapped) and 10
    (not overlapped), [M] is 11 and the boosted score 6 stays below 10. *)
Lemma boosted_negative_score_not_above :
  let mpbs := [weak_site; strong_site] in
  let M := max_score_plus_one mpbs in
  let fused := fuse intersect_model subtract_model sort_score_model mpbs one_footprint in
  overlaps_any one_footprint weak_site = true /\
  overlaps_any one_footprint strong_site = false /\
  M = 11%Z /\
  fused = [strong_site; set_data weak_site 6] /\
  ~ (data strong_site < data (set_data weak_site (data weak_site + M)))%Z.
Proof.
  cbv zeta. repeat split; try reflexivity. vm_compute. discriminate.
Qed.

Lemma fusion_preserves_cardinality_witness :
  let mpbs := [site_Y; site_N; weak_site] in
  let fused := fuse intersect_model subtract_model sort_score_model mpbs one_footprint in
  Permutation fused (map (fused_region overlaps_any mpbs one_footprint) mpbs) /\
  length fused = length mpbs.
Proof.
  apply (fusion_preserves_cardinality overlaps_any intersect_model subtract_model
           sort_score_model);
    apply score_fusion_models_meet_spec.
Defined.

(** ** Built-ins *)

Lemma getitem_in_range {A} (l : list A) (j : Z) :
  (0 <= j < len l)%Z -> exists a, getitem l j = Ok a /\ l !! Z.to_nat j = Some a.
Proof.
  unfold getitem, len. intros Hj.
  destruct (Z.ltb_spec j 0); [lia|].
  destruct (Z.ltb_spec j 0); [lia|].
  destruct (l !! Z.to_nat j) as [a|] eqn:E; [eauto|].
  apply lookup_ge_None in E. lia.
Qed.

Lemma length_range (n : Z) : length (range n) = Z.to_nat n.
Proof. unfold range. now rewrite length_map, length_seq. Qed.

Lemma ceil_div_bounds (a b c : Z) :
  (0 < b)%Z -> (0 <= a <= c * b)%Z -> (0 <= ceil_div a b <= c)%Z.
Proof.
  intros Hb Ha. unfold ceil_div.
  assert (- c <= - a / b)%Z by (apply Z.div_le_lower_bound; lia).
  assert (- a / b <= 0)%Z by (apply Z.div_le_upper_bound; lia).
  lia.
Qed.

(** The sampled indices: [num] of them, all within [0 .. stop]. *)
Lemma linspace_ceil_spec (stop num : Z) :
  (0 <= stop)%Z -> (0 <= num)%Z ->
  exists idxs, linspace_ceil stop num = Ok idxs /\
               length idxs = Z.to_nat num /\
               Forall (fun j => 0 <= j <= stop)%Z idxs.
Proof.
  intros Hstop Hnum. unfold linspace_ceil.
  destruct (Z.ltb_spec num 0); [lia|].
  destruct (Z.eqb_spec num 1) as [->|Hne].
  - exists [0%Z]. repeat split. constructor; [lia | constructor].
  - eexists. split; [reflexivity|]. split.
    + now rewrite length_map, length_range.
    + apply List.Forall_forall. intros j Hj.
      apply in_map_iff in Hj as (i & <- & Hi).
      unfold range in Hi. apply in_map_iff in Hi as (k & <- & Hk).
      apply in_seq in Hk.
      apply ceil_div_bounds; [lia | nia].
Qed.

Lemma linspace_ceil_negative (stop num : Z) :
  (num < 0)%Z -> linspace_ceil stop num = Raise ValueError.
Proof. intros Hn. unfold linspace_ceil. destruct (Z.ltb_spec num 0); [reflexivity | lia]. Qed.

(** ** Curve downsampling *)

Section DownsamplerFacts.
Context {A : Type}.
Implicit Types (s : @store A) (lx ly : list A).

Lemma for_each_cons {X Acc} (body : Acc -> X -> @stateful A Acc) x l acc s :
  for_each body (x :: l) acc s =
  match body acc x s with
  | Ok (acc', s') => for_each body l acc' s'
  | Raise e => Raise e
  end.
Proof. reflexivity. Qed.

Lemma pick_points_spec i idxs ax ay s lx ly :
  s.1 !! i = Some lx -> s.2 !! i = Some ly ->
  Forall (fun j => 0 <= j < len lx /\ j < len ly)%Z idxs ->
  exists px py,
    pick_points i idxs (ax, ay) s = Ok ((ax ++ px, ay ++ py), s) /\
    length px = length idxs /\ length py = length idxs.
Proof.
  intros Hx Hy Hidx. revert ax ay.
  induction Hidx as [|j idxs [Hjx Hjy] _ IH]; intros ax ay.
  - exists [], []. rewrite !app_nil_r. repeat split.
  - destruct (getitem_in_range lx j) as (a & Ha & _); [lia|].
    destruct (getitem_in_range ly j) as (b & Hb & _); [lia|].
    destruct (IH (ax ++ [a]) (ay ++ [b])) as (px & py & Hrun & Hpx & Hpy).
    exists (a :: px), (b :: py).
    unfold pick_points in *. rewrite for_each_cons.
    match goal with |- context [for_each ?body _ _ _] =>
      assert (body (ax, ay) j s = Ok ((ax ++ [a], ay ++ [b]), s)) as ->
    end.
    { unfold mbind, stateful_bind, mret, stateful_ret, dict_get, lift, the_dict.
      now rewrite Hx, Ha, Hy, Hb. }
    rewrite Hrun, <- !app_assoc. simpl. rewrite Hpx, Hpy. repeat split.
Qed.

Lemma pop_loop_spec i (l : list Z) ax ay s lx ly :
  s.1 !! i = Some lx -> s.2 !! i = Some ly ->
  (length l <= length lx)%nat -> (length l <= length ly)%nat ->
  for_each (fun '(data_recall, data_precision) (_ : Z) =>
              r ← pop_first xs i;
              p ← pop_first ys i;
              mret (data_recall ++ [r], data_precision ++ [p])) l (ax, ay) s =
  Ok ((ax ++ take (length l) lx, ay ++ take (length l) ly),
      (<[i := drop (length l) lx]> s.1, <[i := drop (length l) ly]> s.2)).
Proof.
  revert s lx ly ay ax. induction l as [|z l IH]; intros s lx ly ay ax Hx Hy Hlx Hly.
  - simpl. rewrite !app_nil_r, !drop_0, !insert_id by assumption.
    now destruct s.
  - destruct lx as [|a lx]; [simpl in Hlx; lia|].
    destruct ly as [|b ly]; [simpl in Hly; lia|].
    rewrite for_each_cons.
    match goal with |- context [for_each ?body _ _ _] =>
      assert (body (ax, ay) z s =
              Ok ((ax ++ [a], ay ++ [b]), (<[i := lx]> s.1, <[i := ly]> s.2))) as ->
    end.
    { unfold mbind, stateful_bind, mret, stateful_ret, pop_first, the_dict, with_dict.
      rewrite Hx. simpl. now rewrite Hy. }
    rewrite (IH _ lx ly); simpl in *;
      [| apply lookup_insert_eq | apply lookup_insert_eq | lia | lia].
    now rewrite !insert_insert_eq, <- !app_assoc.
Qed.

Lemma pop_points_spec i count s lx ly :
  s.1 !! i = Some lx -> s.2 !! i = Some ly ->
  (Z.to_nat count <= length lx)%nat -> (Z.to_nat count <= length ly)%nat ->
  pop_points i count s =
  Ok ((take (Z.to_nat count) lx, take (Z.to_nat count) ly),
      (<[i := drop (Z.to_nat count) lx]> s.1, <[i := drop (Z.to_nat count) ly]> s.2)).
Proof.
  intros Hx Hy Hlx Hly. unfold pop_points.
  rewrite (pop_loop_spec i _ [] [] s lx ly Hx Hy) by now rewrite length_range.
  now rewrite length_range.
Qed.

Lemma optimize_roc_round_spec max_points new_fpr new_tpr i s lx ly :
  (0 <= max_points)%Z ->
  s.1 !! i = Some lx -> s.2 !! i = Some ly -> length lx = length ly ->
  exists ox oy,
    optimize_roc_round max_points (new_fpr, new_tpr) i s =
      Ok ((<[i := ox]> new_fpr, <[i := oy]> new_tpr), s) /\
    len ox = Z.min (len lx) max_points /\ len oy = Z.min (len lx) max_points.
Proof.
  intros Hmp Hx Hy Hlen. unfold optimize_roc_round.
  unfold mbind at 1, stateful_bind at 1, dict_get at 1, the_dict. rewrite Hx.
  destruct (Z.ltb_spec max_points (len lx)) as [Hlt|Hge].
  - destruct (linspace_ceil_spec (len lx - 1) max_points) as (idxs & Hlin & Hn & Hin);
      [lia | lia |].
    destruct (pick_points_spec i idxs [] [] s lx ly Hx Hy) as (px & py & Hrun & Hpx & Hpy).
    { eapply Forall_impl; [exact Hin|]. simpl. intros j Hj. unfold len in *. rewrite <- Hlen. lia. }
    exists px, py.
    unfold mbind, stateful_bind, lift. rewrite Hlin, Hrun. simpl.
    unfold mret, stateful_ret. split; [reflexivity|].
    unfold len in *. split; lia.
  - exists lx, ly.
    unfold mbind, stateful_bind, dict_get, the_dict. rewrite Hx, Hy.
    unfold mret, stateful_ret. split; [reflexivity|].
    unfold len in *. split; lia.
Qed.

Lemma optimize_pr_round_spec max_points new_recall new_precision i s lx ly :
  (0 <= max_points)%Z ->
  s.1 !! i = Some lx -> s.2 !! i = Some ly -> length lx = length ly ->
  let k := Z.to_nat (Z.min max_points (len lx)) in
  exists ox oy,
    optimize_pr_round max_points (new_recall, new_precision) i s =
      Ok ((<[i := ox]> new_recall, <[i := oy]> new_precision),
          (<[i := drop k lx]> s.1, <[i := drop k ly]> s.2)) /\
    len ox = Z.min (len lx) (2 * max_points) /\
    len oy = Z.min (len lx) (2 * max_points) /\
    take k ox = take k lx /\ take k oy = take k ly.
Proof.
  intros Hmp Hx Hy Hlen k. unfold optimize_pr_round.
  unfold mbind at 1, stateful_bind at 1, dict_get at 1, the_dict. rewrite Hx.
  assert (Hk : (k <= length lx)%nat) by (unfold k, len; lia).
  unfold mbind at 1, stateful_bind at 1.
  rewrite (pop_points_spec i _ s lx ly Hx Hy) by (fold k; lia). fold k.
  set (s' := (<[i := drop k lx]> s.1, <[i := drop k ly]> s.2)).
  assert (Hx' : s'.1 !! i = Some (drop k lx)) by apply lookup_insert_eq.
  assert (Hy' : s'.2 !! i = Some (drop k ly)) by apply lookup_insert_eq.
  unfold mbind at 1, stateful_bind at 1, dict_get at 1, the_dict. rewrite Hx'.
  assert (Hdrop : len (drop k lx) = (len lx - Z.of_nat k)%Z)
    by (unfold len; rewrite length_drop; lia).
  destruct (Z.ltb_spec max_points (len (drop k lx))) as [Hlt|Hge].
  - destruct (linspace_ceil_spec (len (drop k lx) - 1) max_points)
      as (idxs & Hlin & Hn & Hin); [lia | lia |].
    destruct (pick_points_spec i idxs (take k lx) (take k ly) s' _ _ Hx' Hy')
      as (px & py & Hrun & Hpx & Hpy).
    { eapply Forall_impl; [exact Hin|]. simpl. intros j Hj.
      unfold len in *. rewrite !length_drop in *. rewrite <- Hlen. lia. }
    exists (take k lx ++ px), (take k ly ++ py).
    unfold mbind, stateful_bind, lift. rewrite Hlin, Hrun. simpl.
    unfold mret, stateful_ret.
    split; [reflexivity|].
    unfold len in *. rewrite !length_app, !length_take, Hpx, Hpy, Hn.
    rewrite !take_app_le, !take_take by (rewrite length_take; lia).
    rewrite !Nat.min_id. unfold k in *. repeat split; lia.
  - exists (take k lx ++ drop k lx), (take k ly ++ drop k ly).
    unfold mbind, stateful_bind, dict_get, the_dict. rewrite Hx', Hy'.
    unfold mret, stateful_ret.
    split; [reflexivity|].
    rewrite !take_drop. unfold len in *. unfold k in *. repeat split; lia.
Qed.

Lemma optimize_roc_loop_spec max_points l acc s :
  (0 <= max_points)%Z ->
  (forall i, i ∈ l -> exists x y, s.1 !! i = Some x /\ s.2 !! i = Some y /\ length x = length y) ->
  exists acc',
    for_each (optimize_roc_round max_points) l acc s = Ok (acc', s) /\
    (forall i x, i ∈ l -> s.1 !! i = Some x ->
       exists ox oy, acc'.1 !! i = Some ox /\ acc'.2 !! i = Some oy /\
                     len ox = Z.min (len x) max_points /\
                     len oy = Z.min (len x) max_points) /\
    (forall i, i ∉ l -> acc'.1 !! i = acc.1 !! i /\ acc'.2 !! i = acc.2 !! i).
Proof.
  intros Hmp. revert acc. induction l as [|i l IH]; intros [new_fpr new_tpr] Hwf.
  - exists (new_fpr, new_tpr). split; [reflexivity|]. split; [|done].
    intros i x Hi. by apply elem_of_nil in Hi.
  - destruct (Hwf i) as (lx & ly & Hx & Hy & Hlen); [left|].
    destruct (optimize_roc_round_spec max_points new_fpr new_tpr i s lx ly)
      as (ox & oy & Hrun & Hox & Hoy); try done.
    destruct (IH (<[i := ox]> new_fpr, <[i := oy]> new_tpr)) as (acc' & Hloop & Hin & Hout).
    { intros j Hj. apply Hwf. by right. }
    exists acc'. rewrite for_each_cons, Hrun. split; [exact Hloop|]. split.
    + intros j x Hj Hjx. destruct (decide (j ∈ l)) as [Hjl|Hjl]; [by apply Hin|].
      apply elem_of_cons in Hj as [->|Hj]; [|done].
      destruct (Hout i Hjl) as [-> ->]. simpl. rewrite !lookup_insert_eq.
      rewrite Hx in Hjx. injection Hjx as <-. by exists ox, oy.
    + intros j Hj. apply not_elem_of_cons in Hj as [Hne Hj].
      destruct (Hout j Hj) as [-> ->]. simpl. by rewrite !lookup_insert_ne.
Qed.

Lemma optimize_pr_loop_spec max_points l acc s :
  (0 <= max_points)%Z -> NoDup l ->
  (forall i, i ∈ l -> exists x y, s.1 !! i = Some x /\ s.2 !! i = Some y /\ length x = length y) ->
  exists acc' s',
    for_each (optimize_pr_round max_points) l acc s = Ok (acc', s') /\
    (forall i x y, i ∈ l -> s.1 !! i = Some x -> s.2 !! i = Some y ->
       let k := Z.to_nat (Z.min max_points (len x)) in
       s'.1 !! i = Some (drop k x) /\ s'.2 !! i = Some (drop k y) /\
       exists ox oy, acc'.1 !! i = Some ox /\ acc'.2 !! i = Some oy /\
                     len ox = Z.min (len x) (2 * max_points) /\
                     len oy = Z.min (len x) (2 * max_points) /\
                     take k ox = take k x /\ take k oy = take k y) /\
    (forall i, i ∉ l -> s'.1 !! i = s.1 !! i /\ s'.2 !! i = s.2 !! i /\
                        acc'.1 !! i = acc.1 !! i /\ acc'.2 !! i = acc.2 !! i).
Proof.
  intros Hmp. revert acc s.
  induction l as [|i l IH]; intros [new_recall new_precision] s Hnd Hwf.
  - exists (new_recall, new_precision), s. split; [reflexivity|]. split; [|done].
    intros i x y Hi. by apply elem_of_nil in Hi.
  - apply NoDup_cons in Hnd as [Hil Hnd].
    destruct (Hwf i) as (lx & ly & Hx & Hy & Hlen); [left|].
    destruct (optimize_pr_round_spec max_points new_recall new_precision i s lx ly)
      as (ox & oy & Hrun & Hox & Hoy & Htx & Hty); try done.
    set (k := Z.to_nat (Z.min max_points (len lx))) in *.
    set (s1 := (<[i := drop k lx]> s.1, <[i := drop k ly]> s.2)) in *.
    destruct (IH (<[i := ox]> new_recall, <[i := oy]> new_precision) s1 Hnd)
      as (acc' & s' & Hloop & Hin & Hout).
    { intros j Hj. assert (i ≠ j) by (intros ->; done).
      subst s1. simpl. rewrite !lookup_insert_ne by done. apply Hwf. by right. }
    exists acc', s'. rewrite for_each_cons, Hrun. split; [exact Hloop|]. split.
    + intros j x y Hj Hjx Hjy. apply elem_of_cons in Hj as [->|Hj].
      * destruct (Hout i Hil) as (-> & -> & -> & ->). subst s1. simpl.
        rewrite !lookup_insert_eq. rewrite Hx in Hjx. rewrite Hy in Hjy.
        injection Hjx as <-. injection Hjy as <-. fold k.
        split; [done|]. split; [done|]. exists ox, oy. done.
      * assert (i ≠ j) by (intros ->; done).
        apply Hin; [done | |]; subst s1; simpl; by rewrite lookup_insert_ne.
    + intros j Hj. apply not_elem_of_cons in Hj as [Hne Hj].
      destruct (Hout j Hj) as (-> & -> & -> & ->). subst s1. simpl.
      by rewrite !lookup_insert_ne.
Qed.

(** C2 (as amended).  With a budget [max_points >= 0] and every curve
    present as a pair of sequences of one length, both downsamplers return.
    ROC-style output has [min(length, max_points)] entries, so at most
    [max_points].  PR-style output has [min(length, 2 * max_points)]
    entries: the verbatim prefix of up to [max_points] entries plus up to
    [max_points] more, so at most [2 * max_points]. *)
Theorem downsampling_length_bounds (n : nat) (max_points : Z) (s : store) :
  (0 <= max_points)%Z -> curves_present n s ->
  (exists new_fpr new_tpr s',
     optimize_roc_points n max_points s = Ok ((new_fpr, new_tpr), s') /\
     forall i x, (i < n)%nat -> s.1 !! i = Some x ->
       exists ox oy, new_fpr !! i = Some ox /\ new_tpr !! i = Some oy /\
                     len ox = Z.min (len x) max_points /\ len oy = len ox /\
                     (len ox <= max_points)%Z) /\
  (exists new_recall new_precision s',
     optimize_pr_points n max_points s = Ok ((new_recall, new_precision), s') /\
     forall i x, (i < n)%nat -> s.1 !! i = Some x ->
       exists ox oy, new_recall !! i = Some ox /\ new_precision !! i = Some oy /\
                     len ox = Z.min (len x) (2 * max_points) /\ len oy = len ox /\
                     (len ox <= 2 * max_points)%Z).
Proof.
  intros Hmp Hwf. split.
  - destruct (optimize_roc_loop_spec max_points (seq 0 n) (∅, ∅) s Hmp)
      as ([new_fpr new_tpr] & Hrun & Hin & _).
    { intros i Hi. apply Hwf. apply elem_of_seq in Hi. lia. }
    exists new_fpr, new_tpr, s. split; [exact Hrun|].
    intros i x Hi Hx. destruct (Hin i x) as (ox & oy & Hox & Hoy & Hlx & Hly);
      [apply elem_of_seq; lia | done |].
    exists ox, oy. simpl in *. repeat split; try done; lia.
  - destruct (optimize_pr_loop_spec max_points (seq 0 n) (∅, ∅) s Hmp (NoDup_seq 0 n))
      as ([new_recall new_precision] & s' & Hrun & Hin & _).
    { intros i Hi. apply Hwf. apply elem_of_seq in Hi. lia. }
    exists new_recall, new_precision, s'. split; [exact Hrun|].
    intros i x Hi Hx. destruct (Hwf i Hi) as (x' & y & Hx' & Hy & Hlen).
    rewrite Hx in Hx'. injection Hx' as <-.
    destruct (Hin i x y) as (_ & _ & ox & oy & Hox & Hoy & Hlx & Hly & _);
      [apply elem_of_seq; lia | done | done |].
    exists ox, oy. simpl in *. repeat split; try done; lia.
Qed.

(** C10.  PR-style downsampling pops from the caller's lists: when it
    returns, each recall and each precision sequence of the first [n] inputs
    has lost its first [min(max_points, original length)] elements, and
    nothing else in the two dicts has changed.  ROC-style downsampling
    returns with the caller's dicts as they were. *)
Theorem pr_downsampling_pops_roc_keeps (n : nat) (max_points : Z) (s : store) :
  (0 <= max_points)%Z -> curves_present n s ->
  (exists out s',
     optimize_pr_points n max_points s = Ok (out, s') /\
     (forall i x y, (i < n)%nat -> s.1 !! i = Some x -> s.2 !! i = Some y ->
        s'.1 !! i = Some (drop (Z.to_nat (Z.min max_points (len x))) x) /\
        s'.2 !! i = Some (drop (Z.to_nat (Z.min max_points (len y))) y)) /\
     (forall i, (n <= i)%nat -> s'.1 !! i = s.1 !! i /\ s'.2 !! i = s.2 !! i)) /\
  (exists out, optimize_roc_points n max_points s = Ok (out, s)).
Proof.
  intros Hmp Hwf. split.
  - destruct (optimize_pr_loop_spec max_points (seq 0 n) (∅, ∅) s Hmp (NoDup_seq 0 n))
      as (out & s' & Hrun & Hin & Hout).
    { intros i Hi. apply Hwf. apply elem_of_seq in Hi. lia. }
    exists out, s'. split; [exact Hrun|]. split.
    + intros i x y Hi Hx Hy. destruct (Hwf i Hi) as (x' & y' & Hx' & Hy' & Hlen).
      rewrite Hx in Hx'. rewrite Hy in Hy'. injection Hx' as <-. injection Hy' as <-.
      destruct (Hin i x y) as (Hsx & Hsy & _); [apply elem_of_seq; lia | done | done |].
      unfold len in *. rewrite <- Hlen. done.
    + intros i Hi. destruct (Hout i) as (? & ? & _); [|done].
      rewrite elem_of_seq. lia.
  - destruct (optimize_roc_loop_spec max_points (seq 0 n) (∅, ∅) s Hmp)
      as (out & Hrun & _).
    { intros i Hi. apply Hwf. apply elem_of_seq in Hi. lia. }
    by exists out.
Qed.
(** The first [min(max_points, length)] points of PR-style output are the
    first points of the input, one for one. *)
Theorem pr_downsampling_keeps_prefix (n : nat) (max_points : Z) (s : store) :
  (0 <= max_points)%Z -> curves_present n s ->
  exists new_recall new_precision s',
    optimize_pr_points n max_points s = Ok ((new_recall, new_precision), s') /\
    forall i x y, (i < n)%nat -> s.1 !! i = Some x -> s.2 !! i = Some y ->
      let k := Z.to_nat (Z.min max_points (len x)) in
      exists ox oy, new_recall !! i = Some ox /\ new_precision !! i = Some oy /\
                    take k ox = take k x /\ take k oy = take k y.
Proof.
  intros Hmp Hwf.
  destruct (optimize_pr_loop_spec max_points (seq 0 n) (∅, ∅) s Hmp (NoDup_seq 0 n))
    as ([new_recall new_precision] & s' & Hrun & Hin & _).
  { intros i Hi. apply Hwf. apply elem_of_seq in Hi. lia. }
  exists new_recall, new_precision, s'. split; [exact Hrun|].
  intros i x y Hi Hx Hy k.
  destruct (Hin i x y) as (_ & _ & ox & oy & Hox & Hoy & _ & _ & Htx & Hty);
    [apply elem_of_seq; lia | done | done |].
  exists ox, oy. done.
Qed.

(** A negative budget is refused by [np.linspace] in the first round of
    either loop. *)
Lemma downsampling_negative_budget_raises (n : nat) (max_points : Z) (s : @store A) :
  (max_points < 0)%Z -> (0 < n)%nat -> curves_present n s ->
  optimize_roc_points n max_points s = Raise ValueError /\
  optimize_pr_points n max_points s = Raise ValueError.
Proof.
  intros Hmp Hn Hwf. destruct n as [|n]; [lia|].
  destruct (Hwf 0%nat ltac:(lia)) as (lx & ly & Hx & Hy & Hlen).
  unfold optimize_roc_points, optimize_pr_points. cbn [seq].
  rewrite !for_each_cons. split.
  - unfold optimize_roc_round.
    unfold mbind at 1, stateful_bind at 1, dict_get at 1, the_dict. rewrite Hx.
    destruct (Z.ltb_spec max_points (len lx)) as [_|Hge]; [|unfold len in Hge; lia].
    unfold mbind at 1, stateful_bind at 1, lift.
    now rewrite linspace_ceil_negative.
  - unfold optimize_pr_round.
    unfold mbind at 1, stateful_bind at 1, dict_get at 1, the_dict. rewrite Hx.
    unfold mbind at 1, stateful_bind at 1.
    assert (Hk : Z.to_nat (Z.min max_points (len lx)) = 0%nat) by lia.
    rewrite (pop_points_spec 0 _ s lx ly Hx Hy) by (rewrite Hk; lia).
    rewrite Hk, !drop_0.
    unfold mbind at 1, stateful_bind at 1, dict_get at 1, the_dict.
    cbn [fst]. rewrite lookup_insert_eq.
    destruct (Z.ltb_spec max_points (len lx)) as [_|Hge]; [|unfold len in Hge; lia].
    unfold mbind at 1, stateful_bind at 1, lift.
    now rewrite linspace_ceil_negative.
Qed.
End DownsamplerFacts.

Lemma three_point_curve_present : curves_present 1 three_point_curve.
Proof.
  intros i Hi. assert (i = 0%nat) as -> by lia.
  eexists _, _. repeat split; reflexivity.
Qed.

Lemma seven_point_curve_present : curves_present 1 seven_point_curve.
Proof.
  intros i Hi. assert (i = 0%nat) as -> by lia.
  eexists _, _. repeat split; reflexivity.
Qed.

Lemma downsampling_length_bounds_witness :
  (exists new_fpr new_tpr s',
     optimize_roc_points 1 2 seven_point_curve = Ok ((new_fpr, new_tpr), s') /\
     forall i x, (i < 1)%nat -> seven_point_curve.1 !! i = Some x ->
       exists ox oy, new_fpr !! i = Some ox /\ new_tpr !! i = Some oy /\
                     len ox = Z.min (len x) 2 /\ len oy = len ox /\
                     (len ox <= 2)%Z) /\
  (exists new_recall new_precision s',
     optimize_pr_points 1 2 seven_point_curve = Ok ((new_recall, new_precision), s') /\
     forall i x, (i < 1)%nat -> seven_point_curve.1 !! i = Some x ->
       exists ox oy, new_recall !! i = Some ox /\ new_precision !! i = Some oy /\
                     len ox = Z.min (len x) (2 * 2) /\ len oy = len ox /\
                     (len ox <= 2 * 2)%Z).
Proof.
  apply (downsampling_length_bounds 1 2 seven_point_curve);
    [lia | apply seven_point_curve_present].
Defined.

(** PR-style downsampling with budget 2 returns all 3 points of a 3-point
    curve: 2 popped as the prefix, then the 1 left over appended. *)
Lemma pr_downsampling_exceeds_budget :
  exists new_recall new_precision s',
    optimize_pr_points 1 2 three_point_curve = Ok ((new_recall, new_precision), s') /\
    new_recall !! 0%nat = Some [0; 1 # 2; 1]%Q /\
    new_precision !! 0%nat = Some [1; 1 # 2; 0]%Q /\
    (2 < len [0; 1 # 2; 1]%Q)%Z.
Proof.
  eexists _, _, _. split; [vm_compute; reflexivity|].
  repeat split.
Qed.

Lemma pr_downsampling_pops_roc_keeps_witness :
  (exists out s',
     optimize_pr_points 1 2 seven_point_curve = Ok (out, s') /\
     (forall i x y, (i < 1)%nat ->
        seven_point_curve.1 !! i = Some x -> seven_point_curve.2 !! i = Some y ->
        s'.1 !! i = Some (drop (Z.to_nat (Z.min 2 (len x))) x) /\
        s'.2 !! i = Some (drop (Z.to_nat (Z.min 2 (len y))) y)) /\
     (forall i, (1 <= i)%nat ->
        s'.1 !! i = seven_point_curve.1 !! i /\ s'.2 !! i = seven_point_curve.2 !! i)) /\
  (exists out, optimize_roc_points 1 2 seven_point_curve = Ok (out, seven_point_curve)).
Proof.
  apply (pr_downsampling_pops_roc_keeps 1 2 seven_point_curve);
    [lia | apply seven_point_curve_present].
Defined.

(** ** Curve building, in any arithmetic *)

Section CurveFacts.
Context {F : Type} `{Num F}.

Lemma comprehension_total {A B} (f : A -> result B) (g : A -> B) (l : list A) :
  (forall e, In e l -> f e = Ok (g e)) -> comprehension f l = Ok (map g l).
Proof.
  induction l as [|x l IH]; intros Hf; simpl; [reflexivity|].
  rewrite Hf by now left. simpl.
  rewrite IH by (intros e He; apply Hf; now right). reflexivity.
Qed.

Lemma comprehension_raises {A B} (f : A -> result B) (x : A) (l : list A) (e : exn) :
  f x = Raise e -> comprehension f (x :: l) = Raise e.
Proof. intros Hf. simpl. now rewrite Hf. Qed.

Lemma rates_nonzero (counts : list Z) (count : Z) :
  count <> 0%Z -> rates counts count = Ok (map (rate count) counts).
Proof.
  intros Hc. unfold rates. apply comprehension_total. intros e _.
  unfold div_by_int. destruct (Z.eqb_spec count 0); [contradiction | reflexivity].
Qed.

Lemma rates_zero (e : Z) (counts : list Z) :
  rates (e :: counts) 0 = Raise ZeroDivisionError.
Proof. reflexivity. Qed.

Lemma positives_cons (r : GenomicRegion) (rs : list GenomicRegion) :
  positives (r :: rs) = ((if is_positive r then 1 else 0) + positives rs)%Z.
Proof. unfold positives, len. simpl. destruct (is_positive r); simpl; lia. Qed.

Lemma negatives_cons (r : GenomicRegion) (rs : list GenomicRegion) :
  negatives (r :: rs) = ((if is_positive r then 0 else 1) + negatives rs)%Z.
Proof. unfold negatives, len. simpl. destruct (is_positive r); simpl; lia. Qed.

Lemma positives_nonneg rs : (0 <= positives rs)%Z.
Proof. unfold positives, len. lia. Qed.

Lemma negatives_nonneg rs : (0 <= negatives rs)%Z.
Proof. unfold negatives, len. lia. Qed.

Lemma roc_walk_spec (regions : list GenomicRegion) (count_x count_y : Z)
    (fpr tpr : list Z) :
  exists steps_x steps_y,
    roc_walk regions count_x count_y fpr tpr =
      ((count_x + negatives regions)%Z, (count_y + positives regions)%Z,
       fpr ++ steps_x, tpr ++ steps_y) /\
    length steps_x = length regions /\ length steps_y = length regions /\
    climbs count_x steps_x (count_x + negatives regions) /\
    climbs count_y steps_y (count_y + positives regions).
Proof.
  revert count_x count_y fpr tpr.
  induction regions as [|r rs IH]; intros cx cy fpr tpr.
  - exists [], []. simpl. rewrite !app_nil_r.
    unfold negatives, positives, len. simpl. rewrite !Z.add_0_r. repeat split.
  - rewrite positives_cons, negatives_cons. simpl.
    destruct (is_positive r).
    + destruct (IH cx (cy + 1)%Z (fpr ++ [cx]) (tpr ++ [(cy + 1)%Z]))
        as (sx & sy & Hrun & Hlx & Hly & Hcx & Hcy).
      exists (cx :: sx), ((cy + 1)%Z :: sy). rewrite Hrun, <- !app_assoc. simpl.
      rewrite Hlx, Hly. replace (cy + (1 + positives rs))%Z with (cy + 1 + positives rs)%Z by lia.
      repeat split; auto.
    + destruct (IH (cx + 1)%Z cy (fpr ++ [(cx + 1)%Z]) (tpr ++ [cy]))
        as (sx & sy & Hrun & Hlx & Hly & Hcx & Hcy).
      exists ((cx + 1)%Z :: sx), (cy :: sy). rewrite Hrun, <- !app_assoc. simpl.
      rewrite Hlx, Hly. replace (cx + (1 + negatives rs))%Z with (cx + 1 + negatives rs)%Z by lia.
      repeat split; auto.
Qed.

(** Lines 182-196 in closed form. *)
Lemma roc_points_spec (regions : list GenomicRegion) :
  exists steps_x steps_y,
    length steps_x = length regions /\ length steps_y = length regions /\
    climbs 0 steps_x (negatives regions) /\ climbs 0 steps_y (positives regions) /\
    roc_points regions =
      if (negatives regions =? 0)%Z then Raise ZeroDivisionError
      else if (positives regions =? 0)%Z then Raise ZeroDivisionError
      else Ok (map (rate (negatives regions)) (0%Z :: steps_x),
               map (rate (positives regions)) (0%Z :: steps_y)).
Proof.
  destruct (roc_walk_spec regions 0 0 [0%Z] [0%Z])
    as (sx & sy & Hrun & Hlx & Hly & Hcx & Hcy).
  rewrite !Z.add_0_l in *.
  exists sx, sy. repeat split; try assumption.
  unfold roc_points. rewrite Hrun. simpl app.
  destruct (Z.eqb_spec (negatives regions) 0) as [->|Hn]; [reflexivity|].
  rewrite (rates_nonzero _ _ Hn).
  destruct (Z.eqb_spec (positives regions) 0) as [->|Hp]; [reflexivity|].
  rewrite (rates_nonzero _ _ Hp). reflexivity.
Qed.

Lemma getitem_of_nat {A} (l : list A) (k : nat) (a : A) :
  l !! k = Some a -> getitem l (Z.of_nat k) = Ok a.
Proof.
  intros Hk. unfold getitem.
  destruct (Z.ltb_spec (Z.of_nat k) 0); [lia|].
  destruct (Z.ltb_spec (Z.of_nat k) 0); [lia|].
  now rewrite Nat2Z.id, Hk.
Qed.

(** The scan of lines 205-208 from index [k] on. *)
Lemma prefix_loop_from (c : F) (fpr tpr : list F) (m k : nat) (fpr_1 tpr_1 : list F) :
  (k + m)%nat = length fpr -> length fpr = length tpr ->
  prefix_loop c fpr tpr (map Z.of_nat (seq k m)) fpr_1 tpr_1 =
  Ok (fpr_1 ++ longest_prefix c (drop k fpr),
      tpr_1 ++ take (length (longest_prefix c (drop k fpr))) (drop k tpr)).
Proof.
  revert k fpr_1 tpr_1. induction m as [|m IH]; intros k fpr_1 tpr_1 Hk Hlen.
  - rewrite drop_ge by lia. simpl. now rewrite !app_nil_r.
  - destruct (lookup_lt_is_Some_2 fpr k) as [x Hx]; [lia|].
    destruct (lookup_lt_is_Some_2 tpr k) as [y Hy]; [lia|].
    rewrite (drop_S _ _ _ Hx), (drop_S _ _ _ Hy). simpl.
    rewrite (getitem_of_nat _ _ _ Hx). simpl.
    destruct (fltb c x).
    + now rewrite !app_nil_r.
    + rewrite (getitem_of_nat _ _ _ Hy). simpl.
      rewrite IH by lia. now rewrite <- !app_assoc.
Qed.

Lemma prefix_loop_spec (c : F) (fpr tpr : list F) :
  length fpr = length tpr ->
  prefix_loop c fpr tpr (range (len fpr)) [] [] =
  Ok (longest_prefix c fpr, take (length (longest_prefix c fpr)) tpr).
Proof.
  intros Hlen. unfold range, len. rewrite Nat2Z.id.
  now rewrite (prefix_loop_from c fpr tpr (length fpr) 0) by lia.
Qed.

Lemma truncated_auc_spec (c : F) (fpr tpr : list F) :
  length fpr = length tpr ->
  truncated_auc c fpr tpr =
  (x ← standardize (longest_prefix c fpr);
   auc x (take (length (longest_prefix c fpr)) tpr)).
Proof. intros Hlen. unfold truncated_auc. now rewrite prefix_loop_spec. Qed.

Lemma roc_points_lengths (regions : list GenomicRegion) (fpr tpr : list F) :
  roc_points regions = Ok (fpr, tpr) ->
  length fpr = S (length regions) /\ length tpr = S (length regions).
Proof.
  destruct (roc_points_spec regions) as (sx & sy & Hlx & Hly & _ & _ & ->).
  destruct (negatives regions =? 0)%Z; [discriminate|].
  destruct (positives regions =? 0)%Z; [discriminate|].
  intros [= <- <-]. simpl. now rewrite !length_map, Hlx, Hly.
Qed.


Lemma recall_rates_nonzero (recall : list F) (count : Z) :
  count <> 0%Z ->
  comprehension (fun e => r ← div_by_int f1 count; Ok (fmul e r)) recall =
  Ok (map (fun e => fmul e (fdiv f1 (of_int count))) recall).
Proof.
  intros Hc. apply comprehension_total. intros e _.
  unfold div_by_int. destruct (Z.eqb_spec count 0); [contradiction | reflexivity].
Qed.

(** The precision-recall walk never divides by zero. *)
Lemma pr_walk_spec (regions : list GenomicRegion) (count_x count_y : Z)
    (precision recall : list F) :
  (0 <= count_x)%Z -> (0 <= count_y)%Z ->
  exists ps rs,
    pr_walk regions count_x count_y precision recall =
      Ok ((count_x + negatives regions)%Z, (count_y + positives regions)%Z,
          precision ++ ps, recall ++ rs) /\
    length ps = length regions /\ length rs = length regions /\
    Forall (fun p => exists k n, (0 <= k <= n)%Z /\ (0 < n)%Z /\
                                 p = fdiv (of_int k) (of_int n)) ps.
Proof.
  revert count_x count_y precision recall.
  induction regions as [|r rs' IH]; intros cx cy precision recall Hcx Hcy.
  - exists [], []. simpl. rewrite !app_nil_r.
    unfold negatives, positives, len. simpl. rewrite !Z.add_0_r. repeat split.
    constructor.
  - rewrite positives_cons, negatives_cons. simpl.
    destruct (is_positive r).
    + unfold div_by_int.
      destruct (Z.eqb_spec (cx + (cy + 1)) 0) as [|_]; [lia|]. simpl.
      destruct (IH cx (cy + 1)%Z
                  (precision ++ [fdiv (of_int (cy + 1)) (of_int (cx + (cy + 1)))])
                  (recall ++ [of_int (cy + 1)]))
        as (ps & rs & Hrun & Hlp & Hlr & Hps); [lia | lia |].
      eexists (_ :: ps), (_ :: rs). rewrite Hrun, <- !app_assoc. simpl.
      rewrite Hlp, Hlr.
      replace (cy + (1 + positives rs'))%Z with (cy + 1 + positives rs')%Z by lia.
      repeat split. constructor; [|assumption].
      exists (cy + 1)%Z, (cx + (cy + 1))%Z. repeat split; lia.
    + unfold div_by_int.
      destruct (Z.eqb_spec (cx + 1 + cy) 0) as [|_]; [lia|]. simpl.
      destruct (IH (cx + 1)%Z cy
                  (precision ++ [fdiv (of_int cy) (of_int (cx + 1 + cy))])
                  (recall ++ [of_int cy]))
        as (ps & rs & Hrun & Hlp & Hlr & Hps); [lia | lia |].
      eexists (_ :: ps), (_ :: rs). rewrite Hrun, <- !app_assoc. simpl.
      rewrite Hlp, Hlr.
      replace (cx + (1 + negatives rs'))%Z with (cx + 1 + negatives rs')%Z by lia.
      repeat split. constructor; [|assumption].
      exists cy, (cx + 1 + cy)%Z. repeat split; lia.
Qed.

(** Lines 224-244 in closed form. *)
Lemma precision_recall_curve_spec (regions : list GenomicRegion) :
  exists ps rs,
    length ps = length regions /\ length rs = length regions /\
    Forall (fun p => exists k n, (0 <= k <= n)%Z /\ (0 < n)%Z /\
                                 p = fdiv (of_int k) (of_int n)) ps /\
    precision_recall_curve regions =
      if (positives regions =? 0)%Z then Raise ZeroDivisionError
      else
        let recall :=
          map (fun e => fmul e (fdiv f1 (of_int (positives regions)))) (f0 :: rs)
          ++ [f1] in
        let precision := (f0 :: ps) ++ [f0] in
        Ok (recall, precision, fabs (trapz recall precision)).
Proof.
  destruct (pr_walk_spec regions 0 0 [f0] [f0]) as (ps & rs & Hrun & Hlp & Hlr & Hps);
    [lia | lia |].
  rewrite !Z.add_0_l in Hrun.
  exists ps, rs. repeat split; try assumption.
  unfold precision_recall_curve. rewrite Hrun.
  unfold mbind at 1, result_bind at 1. cbv beta iota.
  destruct (Z.eqb_spec (positives regions) 0) as [Hp|Hp].
  - rewrite Hp. reflexivity.
  - rewrite (recall_rates_nonzero _ _ Hp). reflexivity.
Qed.

(** C1 (as amended).  A ranked list without positive-labeled or without
    negative-labeled regions makes [roc_curve] raise [ZeroDivisionError]:
    the walk is done first and the division by the zero count of line 195
    or 196 raises.  [precision_recall_curve] raises [ZeroDivisionError]
    when there is no positive-labeled region and returns when only the
    negative-labeled ones are missing.  No other error is involved. *)
Theorem missing_class_raises_ZeroDivisionError (regions : list GenomicRegion) :
  positives regions = 0%Z \/ negatives regions = 0%Z ->
  roc_curve regions = Raise ZeroDivisionError /\
  (positives regions = 0%Z ->
     precision_recall_curve regions = Raise ZeroDivisionError) /\
  (positives regions <> 0%Z -> returns (precision_recall_curve regions)).
Proof.
  intros Hzero. split; [|split].
  - unfold roc_curve.
    destruct (roc_points_spec regions) as (sx & sy & _ & _ & _ & _ & ->).
    destruct (Z.eqb_spec (negatives regions) 0); [reflexivity|].
    destruct (Z.eqb_spec (positives regions) 0); [reflexivity | lia].
  - intros Hp.
    destruct (precision_recall_curve_spec regions) as (ps & rs & _ & _ & _ & ->).
    now rewrite Hp.
  - intros Hp.
    destruct (precision_recall_curve_spec regions) as (ps & rs & _ & _ & _ & ->).
    destruct (Z.eqb_spec (positives regions) 0); [contradiction|].
    eexists. reflexivity.
Qed.

(** In any arithmetic the returned curve starts with precision 0.0 and ends
    with the appended point: recall 1.0, precision 0.0. *)
Theorem precision_recall_curve_end_points (regions : list GenomicRegion) :
  (1 <= positives regions)%Z ->
  exists recall precision area,
    precision_recall_curve regions = Ok (recall, precision, area) /\
    head precision = Some f0 /\
    last recall = Some f1 /\ last precision = Some f0 /\
    length recall = (length regions + 2)%nat /\
    length precision = (length regions + 2)%nat.
Proof.
  intros Hp.
  destruct (precision_recall_curve_spec regions) as (ps & rs & Hlp & Hlr & _ & ->).
  destruct (Z.eqb_spec (positives regions) 0); [lia|].
  eexists _, _, _. split; [reflexivity|]. split; [reflexivity|].
  split; [apply last_snoc|]. split; [apply last_snoc|].
  rewrite !length_app, length_map. simpl. rewrite Hlp, Hlr. lia.
Qed.
End CurveFacts.

(** ** Curve building, in exact arithmetic *)

Section ExactArithmetic.
Local Open Scope Q_scope.

Lemma inject_Z_pos (n : Z) : (0 < n)%Z -> 0 < inject_Z n.
Proof. intros Hn. now rewrite (Zlt_Qlt 0 n) in Hn. Qed.

Lemma inv_count_pos (n : Z) : (0 < n)%Z -> 0 < 1 / inject_Z n.
Proof.
  intros Hn. unfold Qdiv. rewrite Qmult_1_l.
  apply Qinv_lt_0_compat. now apply inject_Z_pos.
Qed.

Lemma rate_mono (n a b : Z) :
  (0 < n)%Z -> (a <= b)%Z -> rate (F:=Q) n a <= rate n b.
Proof.
  intros Hn Hab. unfold rate. simpl.
  apply Qmult_le_compat_r; [now rewrite <- Zle_Qle|].
  apply Qlt_le_weak. now apply inv_count_pos.
Qed.

Lemma rate_zero (n : Z) : rate (F:=Q) n 0 == 0.
Proof. unfold rate. simpl. apply Qmult_0_l. Qed.

Lemma rate_full (n : Z) : (0 < n)%Z -> rate (F:=Q) n n == 1.
Proof.
  intros Hn. unfold rate. simpl. field.
  intros Hz. rewrite (Zlt_Qlt 0 n) in Hn. rewrite Hz in Hn. now apply Qlt_irrefl in Hn.
Qed.

Lemma rate_unit (n : Z) : (0 < n)%Z -> rate (F:=Q) n 1 == 1 / inject_Z n.
Proof. intros Hn. unfold rate. simpl. apply Qmult_1_l. Qed.

Lemma climbs_bounds (lo hi : Z) (l : list Z) :
  climbs lo l hi -> (lo <= hi)%Z /\ Forall (fun x => lo <= x <= hi)%Z l.
Proof.
  revert lo. induction l as [|x l IH]; simpl; intros lo Hc.
  - subst. split; [lia | constructor].
  - destruct Hc as [Hx Hc]. destruct (IH x Hc) as [Hle Hall]. split; [lia|].
    constructor; [lia|]. eapply Forall_impl; [exact Hall|]. simpl. intros; lia.
Qed.

Lemma climbs_last (lo hi : Z) (l : list Z) :
  climbs lo l hi -> last (lo :: l) = Some hi.
Proof.
  revert lo. induction l as [|x l IH]; simpl; intros lo Hc.
  - now subst.
  - destruct Hc as [_ Hc]. rewrite <- (IH x Hc). reflexivity.
Qed.

Lemma climbs_rates_sorted (n lo hi : Z) (l : list Z) :
  (0 < n)%Z -> climbs lo l hi -> Sorted Qle (map (rate (F:=Q) n) (lo :: l)).
Proof.
  intros Hn. revert lo. induction l as [|x l IH]; intros lo Hc.
  - repeat constructor.
  - destruct Hc as [Hx Hc]. specialize (IH x Hc). simpl in *.
    constructor; [exact IH|]. constructor. apply rate_mono; lia.
Qed.

(** The first count that leaves 0 is 1, and only zeros come before it. *)
Lemma climbs_reaches_one (hi : Z) (l : list Z) :
  (1 <= hi)%Z -> climbs 0 l hi ->
  exists zeros rest, l = zeros ++ 1%Z :: rest /\ Forall (fun x => x = 0%Z) zeros.
Proof.
  intros Hhi. induction l as [|x l IH]; simpl; intros Hc.
  - lia.
  - destruct Hc as [[->| ->] Hc].
    + destruct (IH Hc) as (zeros & rest & -> & Hz).
      exists (0%Z :: zeros), rest. split; [reflexivity | now constructor].
    + exists [], l. split; [reflexivity | constructor].
Qed.

Lemma fltb_Q (x y : Q) : fltb x y = true <-> x < y.
Proof.
  simpl. rewrite negb_true_iff. split.
  - intros Hb. apply Qnot_le_lt. intros Hle. apply Qle_bool_iff in Hle. congruence.
  - intros Hlt. destruct (Qle_bool y x) eqn:E; [|reflexivity].
    apply Qle_bool_iff in E. exfalso. now apply (Qlt_not_le x y).
Qed.

Lemma fltb_Q_false (x y : Q) : fltb x y = false <-> y <= x.
Proof. simpl. rewrite negb_false_iff. apply Qle_bool_iff. Qed.

Lemma diff_sorted_nonneg (x : list Q) :
  Sorted Qle x -> existsb (fun d => fltb d f0) (diff x) = false.
Proof.
  induction 1 as [|a l Hs IH Hhd]; [reflexivity|].
  destruct Hhd as [|b l Hab]; [reflexivity|].
  change (diff (a :: b :: l)) with (fsub b a :: diff (b :: l)).
  cbn [existsb]. rewrite IH, orb_false_r. apply fltb_Q_false. change (0 <= b - a). lra.
Qed.

(** On a non-decreasing abscissa of at least two points [auc] returns. *)
Lemma auc_sorted (x y : list Q) :
  length x = length y -> (2 <= length x)%nat -> Sorted Qle x ->
  auc x y = Ok (fmul (of_int 1) (trapz y x)).
Proof.
  intros Hlen H2 Hs. unfold auc.
  rewrite (proj2 (Nat.eqb_eq _ _) Hlen). simpl negb. cbv iota.
  destruct (Nat.ltb_spec (length x) 2); [lia|].
  now rewrite diff_sorted_nonneg.
Qed.

Lemma py_max_fold_spec (l : list Q) (a : Q) :
  let m := fold_left (fun m e => if fltb m e then e else m) l a in
  In m (a :: l) /\ a <= m /\ Forall (fun e => e <= m) l.
Proof.
  revert a. induction l as [|x l IH]; intros a; cbn [fold_left].
  - split; [now left|]. split; [apply Qle_refl | constructor].
  - specialize (IH (if fltb a x then x else a)). cbv zeta in *.
    destruct IH as (Hin & Hge & Hall).
    destruct (fltb a x) eqn:E.
    + apply fltb_Q in E. split; [|split].
      * destruct Hin as [<-|Hin]; [right; now left | right; now right].
      * apply Qlt_le_weak. eapply Qlt_le_trans; eassumption.
      * constructor; assumption.
    + apply fltb_Q_false in E. split; [|split].
      * destruct Hin as [<-|Hin]; [now left | right; now right].
      * assumption.
      * constructor; [eapply Qle_trans; eassumption | assumption].
Qed.

Lemma py_min_fold_spec (l : list Q) (a : Q) :
  let m := fold_left (fun m e => if fltb e m then e else m) l a in
  In m (a :: l) /\ m <= a /\ Forall (fun e => m <= e) l.
Proof.
  revert a. induction l as [|x l IH]; intros a; cbn [fold_left].
  - split; [now left|]. split; [apply Qle_refl | constructor].
  - specialize (IH (if fltb x a then x else a)). cbv zeta in *.
    destruct IH as (Hin & Hge & Hall).
    destruct (fltb x a) eqn:E.
    + apply fltb_Q in E. split; [|split].
      * destruct Hin as [<-|Hin]; [right; now left | right; now right].
      * apply Qlt_le_weak. eapply Qle_lt_trans; eassumption.
      * constructor; assumption.
    + apply fltb_Q_false in E. split; [|split].
      * destruct Hin as [<-|Hin]; [now left | right; now right].
      * assumption.
      * constructor; [eapply Qle_trans; eassumption | assumption].
Qed.

(** [max] and [min] of a non-empty list: members that bound every entry. *)
Lemma py_max_min_spec (x : Q) (l : list Q) :
  exists maxN minN,
    py_max (x :: l) = Ok maxN /\ py_min (x :: l) = Ok minN /\
    In maxN (x :: l) /\ In minN (x :: l) /\
    Forall (fun e => minN <= e <= maxN) (x :: l).
Proof.
  destruct (py_max_fold_spec l x) as (Hmi & Hma & Hmall).
  destruct (py_min_fold_spec l x) as (Hni & Hna & Hnall).
  eexists _, _. split; [reflexivity|]. split; [reflexivity|].
  split; [exact Hmi|]. split; [exact Hni|].
  constructor; [split; assumption|].
  apply List.Forall_forall. intros e He.
  rewrite List.Forall_forall in Hmall, Hnall. split; auto.
Qed.

Lemma standardize_spec (x : Q) (l : list Q) :
  exists maxN minN,
    In maxN (x :: l) /\ In minN (x :: l) /\
    Forall (fun e => minN <= e <= maxN) (x :: l) /\
    standardize (x :: l) =
      if Qeq_bool (maxN - minN) 0 then Raise ZeroDivisionError
      else Ok (map (fun e => (e - minN) / (maxN - minN)) (x :: l)).
Proof.
  destruct (py_max_min_spec x l) as (maxN & minN & Hmax & Hmin & Hi & Hj & Hall).
  exists maxN, minN. repeat split; try assumption.
  unfold standardize. rewrite Hmax, Hmin.
  unfold mbind at 1 2, result_bind at 1 2.
  destruct (Qeq_bool (maxN - minN) 0) eqn:E.
  - apply comprehension_raises. unfold div_float. simpl. now rewrite E.
  - apply comprehension_total. intros e _. unfold div_float. simpl. now rewrite E.
Qed.

Lemma sorted_map_monotone (g : Q -> Q) (l : list Q) :
  (forall a b, a <= b -> g a <= g b) -> Sorted Qle l -> Sorted Qle (map g l).
Proof.
  intros Hg. induction 1 as [|a l Hs IH Hhd]; simpl; [constructor|].
  constructor; [exact IH|]. destruct Hhd; simpl; constructor. now apply Hg.
Qed.

(** What [auc(standardize(w), y)] does on a non-decreasing window [w]: it
    raises [ZeroDivisionError] when all values of [w] are equal and returns
    otherwise. *)
Lemma standardize_then_auc (w y : list Q) :
  w <> [] -> Sorted Qle w -> length w = length y ->
  let r := x ← standardize w; auc x y in
  ((forall a b, In a w -> In b w -> a == b) -> r = Raise ZeroDivisionError) /\
  ((exists a b, In a w /\ In b w /\ ~ a == b) -> exists v, r = Ok v) /\
  (r = Raise ZeroDivisionError \/ exists v, r = Ok v).
Proof.
  intros Hne Hs Hlen r. destruct w as [|x l]; [contradiction|].
  destruct (standardize_spec x l) as (maxN & minN & Hmax & Hmin & Hall & Hstd).
  subst r. rewrite Hstd. rewrite List.Forall_forall in Hall.
  destruct (Qeq_bool (maxN - minN) 0) eqn:E.
  - apply Qeq_bool_iff in E. split; [reflexivity|]. split; [|now left].
    intros (a & b & Ha & Hb & Hab). exfalso. apply Hab.
    destruct (Hall a Ha), (Hall b Hb). lra.
  - assert (Hd : 0 < maxN - minN).
    { destruct (Hall x (or_introl eq_refl)).
      destruct (Qlt_le_dec 0 (maxN - minN)) as [|Hle]; [assumption|].
      assert (Heq : maxN - minN == 0) by lra.
      apply Qeq_bool_iff in Heq. congruence. }
    assert (Hok : exists v,
               (Ok (map (fun e => (e - minN) / (maxN - minN)) (x :: l))
                  ≫= fun x0 => auc x0 y) = Ok v).
    { eexists. unfold mbind, result_bind. apply auc_sorted.
      - now rewrite length_map.
      - rewrite length_map. destruct l as [|x' l]; [|simpl; lia].
        exfalso. destruct Hmax as [<-|[]], Hmin as [<-|[]]. lra.
      - apply sorted_map_monotone; [|assumption].
        intros a b Hab. unfold Qdiv. apply Qmult_le_compat_r; [lra|].
        apply Qlt_le_weak. now apply Qinv_lt_0_compat. }
    split; [|split; [intros _; exact Hok | right; exact Hok]].
    intros Heq. exfalso. specialize (Heq maxN minN Hmax Hmin).
    assert (Hz : maxN - minN == 0) by lra.
    apply Qeq_bool_iff in Hz. congruence.
Qed.


Lemma longest_prefix_sorted (c : Q) (l : list Q) :
  Sorted Qle l -> Sorted Qle (longest_prefix c l).
Proof.
  induction 1 as [|a l Hs IH Hhd]; simpl; [constructor|].
  destruct (negb (Qle_bool a c)); [constructor|].
  constructor; [exact IH|].
  destruct Hhd as [|b l Hab]; simpl; [constructor|].
  destruct (negb (Qle_bool b c)); constructor. assumption.
Qed.

Lemma longest_prefix_length (c : Q) (l : list Q) :
  (length (longest_prefix c l) <= length l)%nat.
Proof.
  induction l as [|a l IH]; simpl; [lia|].
  destruct (negb (Qle_bool a c)); simpl; lia.
Qed.

Lemma longest_prefix_In (c a : Q) (l : list Q) :
  In a (longest_prefix c l) -> In a l /\ a <= c.
Proof.
  induction l as [|x l IH]; simpl; [tauto|].
  destruct (Qle_bool x c) eqn:E; simpl; [|tauto].
  intros [<-|Ha]; [split; [now left | now apply Qle_bool_iff]|].
  destruct (IH Ha). split; [now right | assumption].
Qed.

Lemma longest_prefix_cons (c x : Q) (l : list Q) :
  x <= c -> longest_prefix c (x :: l) = x :: longest_prefix c l.
Proof. intros Hx. apply Qle_bool_iff in Hx. simpl. now rewrite Hx. Qed.

Lemma longest_prefix_app (c : Q) (l1 l2 : list Q) :
  Forall (fun x => x <= c) l1 ->
  longest_prefix c (l1 ++ l2) = l1 ++ longest_prefix c l2.
Proof.
  induction 1 as [|x l1 Hx _ IH]; simpl; [reflexivity|].
  apply Qle_bool_iff in Hx. rewrite Hx. simpl. now rewrite IH.
Qed.

Lemma unit_rate_le_cutoff (n : Z) (d : positive) :
  (Zpos d <= n)%Z -> 1 / inject_Z n <= 1 # d.
Proof.
  intros Hn. apply Qle_shift_div_r.
  - apply inject_Z_pos. lia.
  - unfold Qle, Qmult, inject_Z. simpl. lia.
Qed.

Lemma cutoff_lt_unit_rate (n : Z) (d : positive) :
  (0 < n < Zpos d)%Z -> 1 # d < 1 / inject_Z n.
Proof.
  intros Hn. apply Qlt_shift_div_l.
  - apply inject_Z_pos. lia.
  - unfold Qlt, Qmult, inject_Z. simpl. lia.
Qed.

Lemma roc_points_shape (regions : list GenomicRegion) :
  (1 <= positives regions)%Z -> (1 <= negatives regions)%Z ->
  exists steps_x steps_y,
    roc_points (F:=Q) regions =
      Ok (map (rate (negatives regions)) (0%Z :: steps_x),
          map (rate (positives regions)) (0%Z :: steps_y)) /\
    climbs 0 steps_x (negatives regions) /\ climbs 0 steps_y (positives regions) /\
    length steps_x = length regions /\ length steps_y = length regions.
Proof.
  intros Hp Hn.
  destruct (roc_points_spec (F:=Q) regions) as (sx & sy & Hlx & Hly & Hcx & Hcy & Hrun).
  exists sx, sy. rewrite Hrun.
  destruct (Z.eqb_spec (negatives regions) 0); [lia|].
  destruct (Z.eqb_spec (positives regions) 0); [lia|].
  repeat split; assumption.
Qed.

(** The window of a cutoff below [1/N] holds only the rate of count 0. *)
Lemma window_below_unit_rate (c : Q) (n hi : Z) (steps : list Z) (a : Q) :
  (0 < n)%Z -> climbs 0 steps hi -> c < 1 / inject_Z n ->
  In a (longest_prefix c (map (rate n) (0%Z :: steps))) -> a = rate n 0.
Proof.
  intros Hn Hc Hlt Ha. apply longest_prefix_In in Ha as [Ha Hac].
  apply in_map_iff in Ha as (k & <- & Hk).
  assert (Hk0 : (0 <= k)%Z).
  { destruct Hk as [<-|Hk]; [lia|].
    destruct (climbs_bounds _ _ _ Hc) as [_ Hall].
    rewrite List.Forall_forall in Hall. specialize (Hall k Hk). lia. }
  destruct (Z.eq_dec k 0%Z) as [->|Hne]; [reflexivity|]. exfalso.
  pose proof (rate_mono n 1 k Hn ltac:(lia)) as Hmono.
  rewrite (rate_unit n Hn) in Hmono. lra.
Qed.

(** The window of a cutoff of at least [1/N] holds the rates of 0 and 1. *)
Lemma window_above_unit_rate (c : Q) (n hi : Z) (steps : list Z) :
  (0 < n)%Z -> (1 <= hi)%Z -> climbs 0 steps hi -> 1 / inject_Z n <= c ->
  In (rate n 0) (longest_prefix c (map (rate n) (0%Z :: steps))) /\
  In (rate n 1) (longest_prefix c (map (rate n) (0%Z :: steps))).
Proof.
  intros Hn Hhi Hc Hle.
  destruct (climbs_reaches_one hi steps Hhi Hc) as (zeros & rest & -> & Hz).
  assert (Hc0 : 0 <= c).
  { pose proof (inv_count_pos n Hn). lra. }
  replace (0%Z :: zeros ++ 1%Z :: rest) with ((0%Z :: zeros ++ [1%Z]) ++ rest)
    by (simpl; now rewrite <- app_assoc).
  rewrite map_app, longest_prefix_app.
  - split; apply in_or_app; left; apply in_map; [now left|].
    right. apply in_or_app. right. now left.
  - apply List.Forall_forall. intros a Ha.
    apply in_map_iff in Ha as (k & <- & Hk).
    destruct Hk as [<-|Hk]; [rewrite rate_zero; assumption|].
    apply in_app_or in Hk as [Hk|[<-|[]]].
    + rewrite List.Forall_forall in Hz. rewrite (Hz k Hk), rate_zero. assumption.
    + now rewrite (rate_unit n Hn).
Qed.

(** Lines 202-209 and 212-220 on the normalized sequences of a ranked list
    with [P >= 1] and [N >= 1]. *)
Lemma truncated_auc_on_roc_points (c : Q) (regions : list GenomicRegion)
    (fpr tpr : list Q) :
  (1 <= positives regions)%Z -> (1 <= negatives regions)%Z ->
  roc_points regions = Ok (fpr, tpr) -> 0 <= c ->
  let r := truncated_auc c fpr tpr in
  ((forall a b, In a (longest_prefix c fpr) -> In b (longest_prefix c fpr) -> a == b) ->
     r = Raise ZeroDivisionError) /\
  (c < 1 / inject_Z (negatives regions) -> r = Raise ZeroDivisionError) /\
  (1 / inject_Z (negatives regions) <= c -> exists v, r = Ok v) /\
  (r = Raise ZeroDivisionError \/ exists v, r = Ok v).
Proof.
  intros Hp Hn Hpts Hc r.
  destruct (roc_points_shape regions Hp Hn) as (sx & sy & Hrun & Hcx & Hcy & Hlx & Hly).
  rewrite Hrun in Hpts. injection Hpts as <- <-.
  set (fpr := map (rate (negatives regions)) (0%Z :: sx)) in *.
  set (tpr := map (rate (positives regions)) (0%Z :: sy)) in *.
  assert (Hlen : length fpr = length tpr).
  { subst fpr tpr. rewrite !length_map. simpl. congruence. }
  assert (Hsorted : Sorted Qle (longest_prefix c fpr)).
  { apply longest_prefix_sorted. eapply climbs_rates_sorted; [lia | eassumption]. }
  assert (Hne : longest_prefix c fpr <> []).
  { subst fpr. cbn [map]. rewrite longest_prefix_cons; [discriminate|].
    now rewrite rate_zero. }
  assert (Hwy : length (longest_prefix c fpr) =
                length (take (length (longest_prefix c fpr)) tpr)).
  { rewrite length_take. pose proof (longest_prefix_length c fpr). lia. }
  destruct (standardize_then_auc _ _ Hne Hsorted Hwy) as (Hdeg & Hok & Hdich).
  subst r. rewrite (truncated_auc_spec c fpr tpr Hlen).
  split; [exact Hdeg|]. split; [|split; [|exact Hdich]].
  - intros Hlt. apply Hdeg. intros a b Ha Hb.
    rewrite (window_below_unit_rate c (negatives regions) _ sx a ltac:(lia) Hcx Hlt Ha).
    rewrite (window_below_unit_rate c (negatives regions) _ sx b ltac:(lia) Hcx Hlt Hb).
    reflexivity.
  - intros Hle. apply Hok.
    destruct (window_above_unit_rate c (negatives regions) _ sx ltac:(lia) Hn Hcx Hle)
      as [H0 H1].
    exists (rate (negatives regions) 0), (rate (negatives regions) 1).
    split; [exact H0|]. split; [exact H1|].
    rewrite rate_zero, rate_unit by lia.
    pose proof (inv_count_pos (negatives regions) ltac:(lia)). lra.
Qed.

Lemma last_map_cons {A B} (f : A -> B) (l : list A) (a : A) :
  last l = Some a -> last (map f l) = Some (f a).
Proof.
  induction l as [|x l IH]; [discriminate|].
  destruct l as [|y l]; simpl in *; [now intros [= ->]|]. exact IH.
Qed.

Lemma regions_at_least_negatives (regions : list GenomicRegion) :
  (negatives regions <= len regions)%Z.
Proof. unfold negatives, len. pose proof (filter_length_le (fun r => negb (is_positive r)) regions). lia. Qed.

(** C7 (as amended).  For a ranked list with [P >= 1] positive-labeled and
    [N >= 1] negative-labeled regions, the normalized ROC point sequence
    built by lines 182-196 starts at (0,0), ends at (N * (1/N), P * (1/P)),
    which is (1,1) in exact arithmetic, and is non-decreasing in both
    coordinates.  [roc_curve] returns that sequence when [N >= 100]; with
    fewer negative-labeled regions the 1% window holds only points with
    x = 0 and [roc_curve] raises [ZeroDivisionError] instead. *)
Theorem roc_sequence_shape (regions : list GenomicRegion) :
  (1 <= positives regions)%Z -> (1 <= negatives regions)%Z ->
  exists fpr tpr : list Q,
    roc_points regions = Ok (fpr, tpr) /\
    (exists x0 y0, head fpr = Some x0 /\ head tpr = Some y0 /\ x0 == 0 /\ y0 == 0) /\
    (exists x1 y1, last fpr = Some x1 /\ last tpr = Some y1 /\ x1 == 1 /\ y1 == 1) /\
    Sorted Qle fpr /\ Sorted Qle tpr /\
    ((100 <= negatives regions)%Z ->
       exists roc_auc roc_auc_1 roc_auc_2,
         roc_curve regions = Ok (fpr, tpr, roc_auc, roc_auc_1, roc_auc_2)) /\
    ((negatives regions < 100)%Z ->
       roc_curve (F:=Q) regions = Raise ZeroDivisionError).
Proof.
  intros Hp Hn.
  destruct (roc_points_shape regions Hp Hn) as (sx & sy & Hrun & Hcx & Hcy & Hlx & Hly).
  set (fpr := map (rate (negatives regions)) (0%Z :: sx)) in *.
  set (tpr := map (rate (positives regions)) (0%Z :: sy)) in *.
  assert (Hsx : Sorted Qle fpr) by (eapply climbs_rates_sorted; [lia | eassumption]).
  assert (Hsy : Sorted Qle tpr) by (eapply climbs_rates_sorted; [lia | eassumption]).
  assert (Hauc : auc fpr tpr = Ok (fmul (of_int 1) (trapz tpr fpr))).
  { apply auc_sorted; [| |assumption]; subst fpr tpr; rewrite ?length_map; simpl.
    - congruence.
    - pose proof (regions_at_least_negatives regions). unfold len in *. lia. }
  destruct (truncated_auc_on_roc_points (1 # 10) regions fpr tpr Hp Hn Hrun ltac:(lra))
    as (_ & _ & Hok10 & Hdich10).
  destruct (truncated_auc_on_roc_points (1 # 100) regions fpr tpr Hp Hn Hrun ltac:(lra))
    as (_ & Hlow100 & Hok100 & _).
  exists fpr, tpr. split; [exact Hrun|]. split; [|split; [|split; [|split; [|split]]]];
    try assumption.
  - exists (rate (negatives regions) 0), (rate (positives regions) 0).
    repeat split; apply rate_zero.
  - exists (rate (negatives regions) (negatives regions)),
           (rate (positives regions) (positives regions)).
    split; [apply last_map_cons, (climbs_last _ _ _ Hcx)|].
    split; [apply last_map_cons, (climbs_last _ _ _ Hcy)|].
    split; apply rate_full; lia.
  - intros H100.
    destruct Hok10 as [a1 Ha1].
    { eapply Qle_trans; [apply (unit_rate_le_cutoff _ 100 H100) | lra]. }
    destruct Hok100 as [a2 Ha2]; [apply (unit_rate_le_cutoff _ 100 H100)|].
    exists (fmul (of_int 1) (trapz tpr fpr)), a1, a2.
    unfold roc_curve. rewrite Hrun. simpl. rewrite Hauc. simpl.
    change (truncated_auc f_tenth fpr tpr) with (truncated_auc (1 # 10) fpr tpr).
    change (truncated_auc f_hundredth fpr tpr) with (truncated_auc (1 # 100) fpr tpr).
    rewrite Ha1. simpl. rewrite Ha2. reflexivity.
  - intros H100.
    unfold roc_curve. rewrite Hrun. simpl. rewrite Hauc. simpl.
    change (truncated_auc f_tenth fpr tpr) with (truncated_auc (1 # 10) fpr tpr).
    change (truncated_auc f_hundredth fpr tpr) with (truncated_auc (1 # 100) fpr tpr).
    destruct Hdich10 as [->|[a1 ->]]; [reflexivity|]. simpl.
    rewrite Hlow100; [reflexivity|].
    apply (cutoff_lt_unit_rate _ 100). lia.
Qed.

Lemma roc_points_returns_counts (regions : list GenomicRegion) (fpr tpr : list Q) :
  roc_points regions = Ok (fpr, tpr) ->
  (1 <= positives regions)%Z /\ (1 <= negatives regions)%Z.
Proof.
  destruct (roc_points_spec (F:=Q) regions) as (sx & sy & _ & _ & _ & _ & ->).
  pose proof (positives_nonneg regions). pose proof (negatives_nonneg regions).
  destruct (Z.eqb_spec (negatives regions) 0); [discriminate|].
  destruct (Z.eqb_spec (positives regions) 0); [discriminate|].
  intros _. lia.
Qed.

Lemma roc_sequence_shape_aux (regions : list GenomicRegion) (fpr tpr : list Q) :
  roc_points regions = Ok (fpr, tpr) -> exists a, auc fpr tpr = Ok a.
Proof.
  intros Hpts.
  destruct (roc_points_returns_counts regions fpr tpr Hpts) as [Hp Hn].
  destruct (roc_points_shape regions Hp Hn) as (sx & sy & Hrun & Hcx & Hcy & Hlx & Hly).
  rewrite Hrun in Hpts.
  assert (Hf : fpr = map (rate (negatives regions)) (0%Z :: sx)) by congruence.
  assert (Ht : tpr = map (rate (positives regions)) (0%Z :: sy)) by congruence.
  subst fpr tpr. eexists. apply auc_sorted.
  - rewrite !length_map. simpl. congruence.
  - rewrite length_map. simpl.
    pose proof (regions_at_least_negatives regions). unfold len in *. lia.
  - eapply climbs_rates_sorted; [lia | eassumption].
Qed.


Lemma precision_step_in_unit_interval (k n : Z) :
  (0 <= k <= n)%Z -> (0 < n)%Z -> 0 <= inject_Z k / inject_Z n <= 1.
Proof.
  intros Hk Hn. pose proof (inject_Z_pos n Hn) as Hpos. split.
  - apply Qle_shift_div_l; [assumption|]. rewrite Qmult_0_l.
    change 0 with (inject_Z 0). rewrite <- Zle_Qle. lia.
  - apply Qle_shift_div_r; [assumption|]. rewrite Qmult_1_l.
    rewrite <- Zle_Qle. lia.
Qed.

Lemma fold_left_Qplus (l : list Q) (a : Q) :
  fold_left Qplus l a == a + fold_left Qplus l 0.
Proof.
  revert a. induction l as [|x l IH]; intros a; simpl.
  - ring.
  - rewrite (IH (a + x)), (IH (0 + x)). ring.
Qed.

Lemma trapz_cons (a b c d : Q) (x y : list Q) :
  trapz (c :: d :: y) (a :: b :: x) ==
  (b - a) * (d + c) / 2 + trapz (d :: y) (b :: x).
Proof.
  unfold trapz. cbn [diff pair_sums zip_with fold_left].
  rewrite fold_left_Qplus. simpl. ring.
Qed.

(** Summation by parts for the trapezoid rule: the two orientations add up
    to the difference of the end products. *)
Lemma trapz_by_parts (x y : list Q) :
  length x = length y ->
  trapz y x + trapz x y ==
  List.last x 0 * List.last y 0 - List.hd 0 x * List.hd 0 y.
Proof.
  revert y. induction x as [|a x IH]; intros [|c y] Hlen; try discriminate.
  - unfold trapz. simpl. ring.
  - destruct x as [|b x], y as [|d y]; try discriminate.
    + unfold trapz. simpl. ring.
    + rewrite !trapz_cons.
      specialize (IH (d :: y) ltac:(simpl in *; lia)).
      change (List.last (a :: b :: x) 0) with (List.last (b :: x) 0).
      change (List.last (c :: d :: y) 0) with (List.last (d :: y) 0).
      cbn [List.hd] in *. 
      assert (E : trapz (d :: y) (b :: x) ==
                  List.last (b :: x) 0 * List.last (d :: y) 0 - b * d
                  - trapz (b :: x) (d :: y)) by (rewrite <- IH; ring).
      rewrite E. field.
Qed.

(** In exact arithmetic the orientation of the last integration does not
    change the reported area: the curve runs from a point with precision 0 to
    a point with precision 0, so integrating recall over precision gives the
    negative of integrating precision over recall, and [abs] removes the
    sign. *)
Theorem pr_auc_orientation_immaterial (regions : list GenomicRegion) :
  (1 <= positives regions)%Z ->
  exists (recall precision : list Q) (auc : Q),
    precision_recall_curve regions = Ok (recall, precision, auc) /\
    auc == Qabs (trapz precision recall).
Proof.
  intros Hp.
  destruct (precision_recall_curve_spec (F:=Q) regions)
    as (ps & rs & Hlp & Hlr & _ & ->).
  destruct (Z.eqb_spec (positives regions) 0); [lia|].
  eexists _, _, _. split; [reflexivity|].
  set (recall := map _ (f0 :: rs) ++ [f1]).
  set (precision := (f0 :: ps) ++ [f0]).
  assert (Hlen : length precision = length recall).
  { subst recall precision. rewrite !length_app, length_map. simpl. lia. }
  pose proof (trapz_by_parts precision recall Hlen) as Hparts.
  assert (Hlp' : List.last precision 0 = 0) by apply List.last_last.
  assert (Hlr' : List.last recall 0 = 1) by apply List.last_last.
  assert (Hhp : List.hd 0 precision = 0) by reflexivity.
  rewrite Hlp', Hlr', Hhp in Hparts.
  assert (E : trapz recall precision == - trapz precision recall) by lra.
  cbn [fabs Num_Q]. rewrite E. apply Qabs_opp.
Qed.
End ExactArithmetic.

(** ** The theorems at sample inputs *)


Lemma missing_class_raises_ZeroDivisionError_witness :
  roc_curve (F:=float) [site_Y] = Raise ZeroDivisionError /\
  (positives [site_Y] = 0%Z ->
     precision_recall_curve (F:=float) [site_Y] = Raise ZeroDivisionError) /\
  (positives [site_Y] <> 0%Z -> returns (precision_recall_curve (F:=float) [site_Y])).
Proof.
  apply (missing_class_raises_ZeroDivisionError (F:=float) [site_Y]).
  right. reflexivity.
Defined.

(** A ranked list with a positive-labeled region only: the walk is done, then
    line 195 divides by the zero count of negatives.  A list with a
    negative-labeled region only fails the same way in both builders. *)
Lemma roc_curve_propagates_division_by_zero :
  negatives [site_Y] = 0%Z /\
  roc_walk [site_Y] 0 0 [0%Z] [0%Z] = (0%Z, 1%Z, [0%Z; 0%Z], [0%Z; 1%Z]) /\
  roc_curve (F:=float) [site_Y] = Raise ZeroDivisionError /\
  positives [site_N] = 0%Z /\
  roc_curve (F:=float) [site_N] = Raise ZeroDivisionError /\
  precision_recall_curve (F:=float) [site_N] = Raise ZeroDivisionError.
Proof. repeat split; vm_compute; reflexivity. Qed.





Lemma roc_sequence_shape_witness :
  exists fpr tpr : list Q,
    roc_points (one_hit_then 100) = Ok (fpr, tpr) /\
    (exists x0 y0, head fpr = Some x0 /\ head tpr = Some y0 /\ x0 == 0 /\ y0 == 0) /\
    (exists x1 y1, last fpr = Some x1 /\ last tpr = Some y1 /\ x1 == 1 /\ y1 == 1) /\
    Sorted Qle fpr /\ Sorted Qle tpr /\
    ((100 <= negatives (one_hit_then 100))%Z ->
       exists roc_auc roc_auc_1 roc_auc_2,
         roc_curve (one_hit_then 100) = Ok (fpr, tpr, roc_auc, roc_auc_1, roc_auc_2)) /\
    ((negatives (one_hit_then 100) < 100)%Z ->
       roc_curve (F:=Q) (one_hit_then 100) = Raise ZeroDivisionError).
Proof.
  apply (roc_sequence_shape (one_hit_then 100)); apply Z.leb_le; reflexivity.
Defined.

(** P = 1 and N = 1: [roc_curve] produces no sequence at all. *)
Lemma roc_curve_raises_on_short_list :
  positives [site_Y; site_N] = 1%Z /\ negatives [site_Y; site_N] = 1%Z /\
  roc_curve (F:=float) [site_Y; site_N] = Raise ZeroDivisionError /\
  roc_curve (F:=Q) [site_Y; site_N] = Raise ZeroDivisionError.
Proof. repeat split; vm_compute; reflexivity. Qed.



Lemma pr_downsampling_keeps_prefix_witness :
  exists new_recall new_precision s',
    optimize_pr_points 1 2 seven_point_curve = Ok ((new_recall, new_precision), s') /\
    forall i x y, (i < 1)%nat ->
      seven_point_curve.1 !! i = Some x -> seven_point_curve.2 !! i = Some y ->
      let k := Z.to_nat (Z.min 2 (len x)) in
      exists ox oy, new_recall !! i = Some ox /\ new_precision !! i = Some oy /\
                    take k ox = take k x /\ take k oy = take k y.
Proof.
  apply (pr_downsampling_keeps_prefix 1 2 seven_point_curve);
    [lia | apply seven_point_curve_present].
Defined.

Lemma downsampling_negative_budget_raises_witness :
  optimize_roc_points 1 (-1) seven_point_curve = Raise ValueError /\
  optimize_pr_points 1 (-1) seven_point_curve = Raise ValueError.
Proof.
  apply (downsampling_negative_budget_raises 1 (-1) seven_point_curve);
    [lia | lia | apply seven_point_curve_present].
Defined.

Lemma pr_auc_orientation_immaterial_witness :
  exists (recall precision : list Q) (auc : Q),
    precision_recall_curve [site_Y; site_N; site_Y] = Ok (recall, precision, auc) /\
    (auc == Qabs (trapz precision recall))%Q.
Proof.
  apply (pr_auc_orientation_immaterial [site_Y; site_N; site_Y]).
  apply Z.leb_le. reflexivity.
Defined.

Lemma precision_recall_curve_end_points_witness :
  exists (recall precision : list float) (area : float),
    precision_recall_curve [site_Y; site_N; site_Y] = Ok (recall, precision, area) /\
    head precision = Some f0 /\
    last recall = Some f1 /\ last precision = Some f0 /\
    length recall = (length [site_Y; site_N; site_Y] + 2)%nat /\
    length precision = (length [site_Y; site_N; site_Y] + 2)%nat.
Proof.
  apply (precision_recall_curve_end_points (F:=float) [site_Y; site_N; site_Y]).
  apply Z.leb_le. reflexivity.
Defined.

(** The end-to-end example: fusion gives the scores 21 (Y), 13 (Y), 5 (N) in
    that order, the walk gives x = 0, 0, 0, 1 and y = 0, 1/2, 1, 1, and the
    full area is 1; but with a single negative-labeled site both truncated
    windows are degenerate and [roc_curve] raises. *)
Lemma end_to_end_example :
  let ranked := fuse intersect_model subtract_model sort_score_model
                  example_mpbs example_footprints in
  max_score_plus_one example_mpbs = 11%Z /\
  map data ranked = [21; 13; 5]%Z /\
  map is_positive ranked = [true; true; false] /\
  (exists (fpr tpr : list Q) (a : Q),
     roc_points ranked = Ok (fpr, tpr) /\
     Forall2 Qeq fpr [0; 0; 0; 1]%Q /\ Forall2 Qeq tpr [0; 1 # 2; 1; 1]%Q /\
     auc fpr tpr = Ok a /\ (a == 1)%Q) /\
  roc_curve (F:=Q) ranked = Raise ZeroDivisionError /\
  roc_curve (F:=float) ranked = Raise ZeroDivisionError.
Proof.
  cbv zeta. split; [reflexivity|]. split; [reflexivity|]. split; [reflexivity|].
  split; [|split; vm_compute; reflexivity].
  eexists _, _, _. split; [vm_compute; reflexivity|].
  split; [repeat constructor|]. split; [repeat constructor|].
  split; vm_compute; reflexivity.
Qed.

(** ** Binary64 *)

(** In binary64 [n * (1.0 / n)] is not always [1.0]: for [n = 103] it is the
    double just below.  The last x-value that [roc_curve] returns for a list
    with 103 negative-labeled regions is that double. *)
Lemma binary64_rate_of_full_count :
  rate (F:=float) 103 103 = 0x1.fffffffffffffp-1%float /\
  exists fpr tpr roc_auc roc_auc_1 roc_auc_2,
    roc_curve (F:=float) (one_hit_then 103) = Ok (fpr, tpr, roc_auc, roc_auc_1, roc_auc_2) /\
    head fpr = Some 0%float /\ head tpr = Some 0%float /\
    last fpr = Some 0x1.fffffffffffffp-1%float /\ last tpr = Some 1%float.
Proof.
  split; [vm_compute; reflexivity|].
  eexists _, _, _, _, _. split; [vm_compute; reflexivity|].
  repeat split.
Qed.

(** On the ranked list Y, N, Y the returned area is 13/24.  Swapping the two
    arguments of [trapz] changes the sign of the integral but not its
    absolute value here, the curve running from (0,0) to (recall 1,
    precision 0). *)
Lemma pr_auc_orientation_example :
  exists (recall precision : list Q) (auc : Q),
    precision_recall_curve [site_Y; site_N; site_Y] = Ok (recall, precision, auc) /\
    (trapz recall precision == - (13 # 24))%Q /\
    (auc == 13 # 24)%Q /\
    (trapz precision recall == 13 # 24)%Q.
Proof.
  eexists _, _, _. split; [vm_compute; reflexivity|].
  repeat split; vm_compute; reflexivity.
Qed.

Section LabelsOnly.
Context {F : Type} `{Num F}.

Lemma roc_walk_reads_labels (r1 r2 : list GenomicRegion) (cx cy : Z) (fpr tpr : list Z) :
  map is_positive r1 = map is_positive r2 ->
  roc_walk r1 cx cy fpr tpr = roc_walk r2 cx cy fpr tpr.
Proof.
  revert r2 cx cy fpr tpr. induction r1 as [|a r1 IH]; intros [|b r2] cx cy fpr tpr Hl;
    try discriminate; [reflexivity|].
  simpl in Hl. injection Hl as Hab Hl. simpl. rewrite Hab.
  destruct (is_positive b); now apply IH.
Qed.

Lemma pr_walk_reads_labels (r1 r2 : list GenomicRegion) (cx cy : Z)
    (precision recall : list F) :
  map is_positive r1 = map is_positive r2 ->
  pr_walk r1 cx cy precision recall = pr_walk r2 cx cy precision recall.
Proof.
  revert r2 cx cy precision recall.
  induction r1 as [|a r1 IH]; intros [|b r2] cx cy precision recall Hl;
    try discriminate; [reflexivity|].
  simpl in Hl. injection Hl as Hab Hl. simpl. rewrite Hab.
  destruct (is_positive b); destruct (div_by_int _ _); simpl; try reflexivity;
    now apply IH.
Qed.

(** The curve builders read nothing of a region but its label, and they do
    not check the order of the list: two lists with the same sequence of
    labels give the same result, whatever their scores and coordinates. *)
Theorem curves_read_labels_only (r1 r2 : list GenomicRegion) :
  map is_positive r1 = map is_positive r2 ->
  roc_curve r1 = roc_curve r2 /\
  precision_recall_curve r1 = precision_recall_curve r2.
Proof.
  intros Hl. split.
  - unfold roc_curve, roc_points. now rewrite (roc_walk_reads_labels r1 r2).
  - unfold precision_recall_curve. now rewrite (pr_walk_reads_labels r1 r2).
Qed.
End LabelsOnly.

Section LabelRule.
Local Open Scope string_scope.

Lemma has_colon_app (p t : string) :
  has_colon (p ++ t) = has_colon p || has_colon t.
Proof.
  induction p as [|c p IH]; simpl; [reflexivity|].
  rewrite IH. now rewrite orb_assoc.
Qed.

Lemma last_token_no_colon (s : string) : has_colon (last_token s) = false.
Proof.
  induction s as [|c s IH]; simpl; [reflexivity|].
  destruct (has_colon s) eqn:Hs; [exact IH|].
  destruct (Ascii.eqb c ":") eqn:Hc; [exact Hs|].
  simpl. now rewrite Hc, Hs.
Qed.

Lemma last_token_after_colon (p t : string) :
  has_colon t = false -> last_token (p ++ String ":" t) = t.
Proof.
  intros Ht. induction p as [|c p IH]; simpl.
  - now rewrite Ht.
  - rewrite has_colon_app. simpl. now rewrite orb_true_r.
Qed.

Lemma last_token_whole (s : string) : has_colon s = false -> last_token s = s.
Proof.
  destruct s as [|c s]; simpl; [reflexivity|].
  destruct (Ascii.eqb c ":"); simpl; [discriminate|].
  intros ->. reflexivity.
Qed.

Lemma last_token_split (s : string) :
  s = last_token s \/ exists p, s = p ++ String ":" (last_token s).
Proof.
  induction s as [|c s IH]; simpl; [now left|].
  destruct (has_colon s) eqn:Hs.
  - right. destruct IH as [IH|[p IH]].
    + rewrite IH, last_token_no_colon in Hs. discriminate.
    + exists (String c p).
      change (String c s = String c (p ++ String ":" (last_token s))).
      f_equal. exact IH.
  - destruct (Ascii.eqb_spec c ":") as [->|Hc]; [|now left].
    right. exists "". reflexivity.
Qed.

(** The label rule of lines 187 and 230: a region counts as positive exactly
    when its name is [Y] or ends with [:Y]. *)
Theorem positive_label_rule (region : GenomicRegion) :
  is_positive region = true <->
  name region = "Y" \/ exists prefix, name region = prefix ++ ":Y".
Proof.
  unfold is_positive. rewrite String.eqb_eq. split.
  - intros Ht. destruct (last_token_split (name region)) as [Hs|[p Hs]].
    + left. congruence.
    + right. exists p. rewrite Hs at 1. now rewrite Ht.
  - intros [->|[p ->]]; [reflexivity|].
    now apply (last_token_after_colon p "Y").
Qed.
End LabelRule.

(** ** The standardizer *)

Section StandardizeFacts.
Local Open Scope Q_scope.

Lemma standardize_two_values (vector : list Q) :
  (exists a b, In a vector /\ In b vector /\ ~ a == b) ->
  exists out, standardize vector = Ok out.
Proof.
  intros (a & b & Ha & Hb & Hab). destruct vector as [|x l]; [destruct Ha|].
  destruct (standardize_spec x l) as (maxN & minN & _ & _ & Hall & ->).
  rewrite List.Forall_forall in Hall.
  destruct (Qeq_bool (maxN - minN) 0) eqn:E; [|eexists; reflexivity].
  exfalso. apply Hab. apply Qeq_bool_iff in E.
  destruct (Hall a Ha), (Hall b Hb). lra.
Qed.

(** [standardize] returns exactly on the vectors that hold two different
    values; it raises [ValueError] on the empty vector and
    [ZeroDivisionError] on every other one. *)
Theorem standardize_returns_iff (vector : list Q) :
  (returns (standardize vector) <->
     exists a b, In a vector /\ In b vector /\ ~ a == b) /\
  (vector = [] -> standardize vector = Raise ValueError) /\
  (vector <> [] -> ~ returns (standardize vector) ->
     standardize vector = Raise ZeroDivisionError).
Proof.
  destruct vector as [|x l].
  - split; [|split; [reflexivity | congruence]]. split.
    + intros [out Hout]. discriminate.
    + intros (a & _ & [] & _).
  - destruct (standardize_spec x l) as (maxN & minN & Hmax & Hmin & Hall & Hstd).
    rewrite List.Forall_forall in Hall.
    split; [|split; [discriminate|]].
    + rewrite Hstd. destruct (Qeq_bool (maxN - minN) 0) eqn:E; split.
      * intros [out Hout]. discriminate.
      * intros (a & b & Ha & Hb & Hab). exfalso. apply Hab.
        apply Qeq_bool_iff in E. destruct (Hall a Ha), (Hall b Hb). lra.
      * intros _. exists maxN, minN. split; [assumption|]. split; [assumption|].
        intros Heq. assert (Hz : maxN - minN == 0) by lra.
        apply Qeq_bool_iff in Hz. congruence.
      * intros _. eexists. reflexivity.
    + intros _ Hno. rewrite Hstd in *.
      destruct (Qeq_bool (maxN - minN) 0); [reflexivity|].
      exfalso. apply Hno. eexists. reflexivity.
Qed.

Lemma standardize_values (x : Q) (l : list Q) (out : list Q) :
  standardize (x :: l) = Ok out ->
  exists lo hi,
    In lo (x :: l) /\ In hi (x :: l) /\ lo < hi /\
    Forall (fun e => lo <= e <= hi) (x :: l) /\
    out = map (fun e => (e - lo) / (hi - lo)) (x :: l).
Proof.
  destruct (standardize_spec x l) as (maxN & minN & Hmax & Hmin & Hall & Hstd).
  rewrite Hstd. destruct (Qeq_bool (maxN - minN) 0) eqn:E; [discriminate|].
  intros [= <-]. exists minN, maxN. repeat split; try assumption.
  rewrite List.Forall_forall in Hall. destruct (Hall x (or_introl eq_refl)).
  destruct (Qlt_le_dec minN maxN) as [|Hle]; [assumption|].
  assert (Hz : maxN - minN == 0) by lra.
  apply Qeq_bool_iff in Hz. congruence.
Qed.

Lemma rescale_bounds (lo hi e : Q) :
  lo < hi -> lo <= e <= hi -> 0 <= (e - lo) / (hi - lo) <= 1.
Proof.
  intros Hlt He. split.
  - apply Qle_shift_div_l; lra.
  - apply Qle_shift_div_r; lra.
Qed.

Lemma rescale_monotone (lo hi a b : Q) :
  lo < hi -> a <= b -> (a - lo) / (hi - lo) <= (b - lo) / (hi - lo).
Proof.
  intros Hlt Hab. unfold Qdiv. apply Qmult_le_compat_r; [lra|].
  apply Qlt_le_weak, Qinv_lt_0_compat. lra.
Qed.

(** Lines 246-249 on a vector with two different values: the result has the
    length of the vector, every value of it lies in [0,1], the minimum of the
    vector is sent to 0 and the maximum to 1, and the order of any two
    entries is kept. *)
Theorem standardize_rescales_to_unit_interval (vector : list Q) :
  (exists a b, In a vector /\ In b vector /\ ~ a == b) ->
  exists out,
    standardize vector = Ok out /\
    length out = length vector /\
    Forall (fun e => 0 <= e <= 1) out /\
    (exists e, In e out /\ e == 0) /\ (exists e, In e out /\ e == 1) /\
    (forall i j x y x' y',
       vector !! i = Some x -> vector !! j = Some y ->
       out !! i = Some x' -> out !! j = Some y' -> x <= y -> x' <= y').
Proof.
  intros Hdiff.
  destruct (standardize_two_values vector Hdiff) as [out Hout].
  exists out. split; [exact Hout|].
  destruct vector as [|x l]; [discriminate|].
  destruct (standardize_values x l out Hout) as (lo & hi & Hlo & Hhi & Hlt & Hall & ->).
  rewrite List.Forall_forall in Hall.
  split; [apply length_map|]. split; [|split; [|split]].
  - apply List.Forall_forall. intros e He.
    apply in_map_iff in He as (e0 & <- & He0). apply rescale_bounds; auto.
  - exists ((lo - lo) / (hi - lo)). split; [now apply (in_map (fun e => (e - lo) / (hi - lo)))|].
    field. lra.
  - exists ((hi - lo) / (hi - lo)). split; [now apply (in_map (fun e => (e - lo) / (hi - lo)))|].
    field. lra.
  - intros i j a b a' b' Ha Hb Ha' Hb' Hab.
    rewrite list_lookup_fmap in Ha', Hb'. rewrite Ha in Ha'. rewrite Hb in Hb'.
    simpl in Ha', Hb'. injection Ha' as <-. injection Hb' as <-.
    now apply rescale_monotone.
Qed.
End StandardizeFacts.

(** ** The walk in closed form *)

Lemma roc_walk_steps (regions : list GenomicRegion) (count_x count_y : Z)
    (fpr tpr : list Z) :
  roc_walk regions count_x count_y fpr tpr =
  ((count_x + negatives regions)%Z, (count_y + positives regions)%Z,
   fpr ++ map fst (walk_steps regions count_x count_y),
   tpr ++ map snd (walk_steps regions count_x count_y)).
Proof.
  revert count_x count_y fpr tpr.
  induction regions as [|r rs IH]; intros cx cy fpr tpr.
  - simpl. rewrite !app_nil_r. unfold negatives, positives, len. simpl.
    now rewrite !Z.add_0_r.
  - rewrite positives_cons, negatives_cons. simpl.
    destruct (is_positive r); rewrite IH, <- !app_assoc, !Z.add_0_l, !Z.add_assoc;
      reflexivity.
Qed.

Lemma walk_steps_climb (regions : list GenomicRegion) (count_x count_y : Z) :
  climbs count_x (map fst (walk_steps regions count_x count_y))
         (count_x + negatives regions) /\
  climbs count_y (map snd (walk_steps regions count_x count_y))
         (count_y + positives regions).
Proof.
  revert count_x count_y. induction regions as [|r rs IH]; intros cx cy.
  - unfold negatives, positives, len. simpl. split; lia.
  - rewrite positives_cons, negatives_cons. simpl.
    destruct (is_positive r); simpl.
    + destruct (IH cx (cy + 1)%Z) as [Hx Hy]. split.
      * split; [now left|]. now rewrite Z.add_0_l.
      * split; [now right|]. now rewrite Z.add_assoc.
    + destruct (IH (cx + 1)%Z cy) as [Hx Hy]. split.
      * split; [now right|]. now rewrite Z.add_assoc.
      * split; [now left|]. now rewrite Z.add_0_l.
Qed.

Lemma length_walk_steps (regions : list GenomicRegion) (count_x count_y : Z) :
  length (walk_steps regions count_x count_y) = length regions.
Proof.
  revert count_x count_y. induction regions as [|r rs IH]; intros cx cy; simpl;
    [reflexivity|]. destruct (is_positive r); simpl; now rewrite IH.
Qed.

Section WalkClosedForm.
Context {F : Type} `{Num F}.

(** Lines 182-196: the sequences are the rates of the counts of the walk. *)
Lemma roc_points_closed_form (regions : list GenomicRegion) :
  (1 <= positives regions)%Z -> (1 <= negatives regions)%Z ->
  roc_points regions =
  Ok (map (rate (negatives regions)) (0%Z :: map fst (walk_steps regions 0 0)),
      map (rate (positives regions)) (0%Z :: map snd (walk_steps regions 0 0))).
Proof.
  intros Hp Hn. unfold roc_points. rewrite roc_walk_steps, !Z.add_0_l.
  rewrite (rates_nonzero _ (negatives regions)) by lia. simpl mbind.
  unfold mbind, result_bind.
  rewrite (rates_nonzero _ (positives regions)) by lia. reflexivity.
Qed.
End WalkClosedForm.

(** ** Areas under the ROC curve, in exact arithmetic *)

Section RocAreas.
Local Open Scope Q_scope.

Lemma rate_step (n e : Z) : (0 < n)%Z -> rate (F:=Q) n (e + 1) - rate n e == 1 / inject_Z n.
Proof.
  intros Hn. unfold rate. simpl. rewrite inject_Z_plus. simpl. ring.
Qed.

Lemma rate_as_quotient (n e : Z) : (0 < n)%Z -> rate (F:=Q) n e == inject_Z e / inject_Z n.
Proof.
  intros Hn. unfold rate. simpl. field.
  pose proof (inject_Z_pos n Hn). lra.
Qed.

(** The trapezoid sum over the walk: every step to the right adds the
    current height times the step width. *)
Lemma trapz_walk (P N : Z) (regions : list GenomicRegion) (count_x count_y : Z) :
  (0 < P)%Z -> (0 < N)%Z ->
  trapz (map (rate (F:=Q) P) (count_y :: map snd (walk_steps regions count_x count_y)))
        (map (rate (F:=Q) N) (count_x :: map fst (walk_steps regions count_x count_y))) ==
  inject_Z (concordant_from regions count_y) / (inject_Z P * inject_Z N).
Proof.
  intros HP HN. revert count_x count_y.
  pose proof (inject_Z_pos P HP) as HPq. pose proof (inject_Z_pos N HN) as HNq.
  induction regions as [|r rs IH]; intros cx cy.
  - unfold trapz. simpl. field. lra.
  - simpl. destruct (is_positive r); cbn [map fst snd].
    + rewrite trapz_cons.
      change (map (rate P) (map snd (walk_steps rs cx (cy + 1)%Z)))
        with (map (rate (F:=Q) P) (map snd (walk_steps rs cx (cy + 1)%Z))).
      specialize (IH cx (cy + 1)%Z). cbn [map] in IH. rewrite IH.
      unfold rate. cbn [fmul fdiv of_int f1 Num_Q]. field. lra.
    + rewrite trapz_cons.
      specialize (IH (cx + 1)%Z cy). cbn [map] in IH. rewrite IH.
      unfold rate. cbn [fmul fdiv of_int f1 Num_Q]. rewrite !inject_Z_plus.
      change (inject_Z 1) with 1. field. lra.
Qed.

Lemma filter_pairs_with (r : GenomicRegion) (rs : list GenomicRegion) :
  len (List.filter (fun p => is_positive p.1 && negb (is_positive p.2))
                   (map (pair r) rs)) =
  if is_positive r then negatives rs else 0%Z.
Proof.
  unfold negatives, len. induction rs as [|x rs IH]; simpl.
  - now destruct (is_positive r).
  - destruct (is_positive r) eqn:Hr; simpl in *.
    + destruct (is_positive x); simpl; [exact IH|]. lia.
    + exact IH.
Qed.

Lemma well_ranked_pairs_cons (r : GenomicRegion) (rs : list GenomicRegion) :
  well_ranked_pairs (r :: rs) =
  ((if is_positive r then negatives rs else 0) + well_ranked_pairs rs)%Z.
Proof.
  unfold well_ranked_pairs. cbn [ordered_pairs].
  rewrite List.filter_app. unfold len at 1. rewrite length_app, Nat2Z.inj_add.
  fold (len (List.filter (fun p => is_positive p.1 && negb (is_positive p.2))
                         (map (pair r) rs))).
  now rewrite filter_pairs_with.
Qed.

Lemma concordant_from_pairs (regions : list GenomicRegion) (count_y : Z) :
  concordant_from regions count_y =
  (count_y * negatives regions + well_ranked_pairs regions)%Z.
Proof.
  revert count_y. induction regions as [|r rs IH]; intros cy.
  - unfold negatives, well_ranked_pairs, len. simpl. lia.
  - rewrite well_ranked_pairs_cons, negatives_cons. simpl.
    destruct (is_positive r); rewrite IH; lia.
Qed.

Lemma well_ranked_pairs_bounds (regions : list GenomicRegion) :
  (0 <= well_ranked_pairs regions <= positives regions * negatives regions)%Z.
Proof.
  induction regions as [|r rs IH].
  - unfold well_ranked_pairs, positives, negatives, len. simpl. lia.
  - rewrite well_ranked_pairs_cons, positives_cons, negatives_cons.
    pose proof (positives_nonneg rs). pose proof (negatives_nonneg rs).
    destruct (is_positive r); nia.
Qed.
End RocAreas.

Section CurveInversion.
Context {F : Type} `{Num F}.

Lemma roc_curve_inv (regions : list GenomicRegion) (fpr tpr : list F) (a a1 a2 : F) :
  roc_curve regions = Ok (fpr, tpr, a, a1, a2) ->
  roc_points regions = Ok (fpr, tpr) /\ auc fpr tpr = Ok a /\
  truncated_auc f_tenth fpr tpr = Ok a1 /\ truncated_auc f_hundredth fpr tpr = Ok a2.
Proof.
  unfold roc_curve. destruct (roc_points regions) as [[f t]|e]; [|discriminate].
  unfold mbind at 1, result_bind at 1. cbv beta iota.
  destruct (auc f t) as [b|e] eqn:Hb; [|discriminate].
  unfold mbind at 1, result_bind at 1. cbv beta iota.
  destruct (truncated_auc f_tenth f t) as [b1|e] eqn:Hb1; [|discriminate].
  unfold mbind at 1, result_bind at 1. cbv beta iota.
  destruct (truncated_auc f_hundredth f t) as [b2|e] eqn:Hb2; [|discriminate].
  unfold mbind at 1, result_bind at 1. cbv beta iota.
  intros E. assert (f = fpr) by congruence. assert (t = tpr) by congruence.
  assert (b = a) by congruence. assert (b1 = a1) by congruence.
  assert (b2 = a2) by congruence. subst. repeat split; assumption.
Qed.

(** Lines 225-237 in closed form: the precision after a step is
    [count_y / (count_x + count_y)] and the recall entry is [count_y]. *)
Lemma pr_walk_steps (regions : list GenomicRegion) (count_x count_y : Z)
    (precision recall : list F) :
  (0 <= count_x)%Z -> (0 <= count_y)%Z ->
  pr_walk regions count_x count_y precision recall =
  Ok ((count_x + negatives regions)%Z, (count_y + positives regions)%Z,
      precision ++ map (fun s => fdiv (of_int s.2) (of_int (s.1 + s.2)))
                       (walk_steps regions count_x count_y),
      recall ++ map (fun s => of_int s.2) (walk_steps regions count_x count_y)).
Proof.
  revert count_x count_y precision recall.
  induction regions as [|r rs IH]; intros cx cy precision recall Hcx Hcy.
  - simpl. rewrite !app_nil_r. unfold negatives, positives, len. simpl.
    now rewrite !Z.add_0_r.
  - rewrite positives_cons, negatives_cons. simpl.
    destruct (is_positive r); unfold div_by_int.
    + destruct (Z.eqb_spec (cx + (cy + 1)) 0) as [|_]; [lia|].
      unfold mbind at 1, result_bind at 1. cbv beta iota.
      rewrite IH by lia. cbn [map fst snd].
      rewrite <- !app_assoc, !Z.add_0_l, !Z.add_assoc. reflexivity.
    + destruct (Z.eqb_spec (cx + 1 + cy) 0) as [|_]; [lia|].
      unfold mbind at 1, result_bind at 1. cbv beta iota.
      rewrite IH by lia. cbn [map fst snd].
      rewrite <- !app_assoc, !Z.add_0_l, !Z.add_assoc. reflexivity.
Qed.

(** Lines 224-244 in closed form over the steps of the walk. *)
Lemma precision_recall_curve_closed_form (regions : list GenomicRegion) :
  (1 <= positives regions)%Z ->
  precision_recall_curve regions =
  let steps := walk_steps regions 0 0 in
  let recall :=
    map (fun e => fmul e (fdiv f1 (of_int (positives regions))))
        (f0 :: map (fun s => of_int s.2) steps) ++ [f1] in
  let precision :=
    (f0 :: map (fun s => fdiv (of_int s.2) (of_int (s.1 + s.2))) steps) ++ [f0] in
  Ok (recall, precision, fabs (trapz recall precision)).
Proof.
  intros Hp. unfold precision_recall_curve.
  rewrite pr_walk_steps by lia. rewrite !Z.add_0_l.
  unfold mbind at 1, result_bind at 1. cbv beta iota.
  rewrite recall_rates_nonzero by lia. reflexivity.
Qed.
End CurveInversion.

Section UnitInterval.
Local Open Scope Q_scope.

(** The trapezoid rule on a non-decreasing abscissa and an integrand in
    [0,1]: the area is between 0 and the width of the abscissa. *)
Lemma trapz_bounds (x y : list Q) :
  Sorted Qle x -> Forall (fun v => 0 <= v <= 1) y -> length x = length y ->
  0 <= trapz y x <= List.last x 0 - List.hd 0 x.
Proof.
  intros Hs. revert y. induction Hs as [|a x Hs IH Hhd]; intros [|c y] Hy Hlen;
    try discriminate.
  - unfold trapz. simpl. lra.
  - destruct Hhd as [|b x Hab].
    + destruct y; [|discriminate]. unfold trapz. simpl. lra.
    + destruct y as [|d y]; [discriminate|].
      rewrite trapz_cons.
      apply Forall_cons in Hy as [Hc Hy].
      pose proof (Forall_inv Hy) as Hd. cbv beta in Hc, Hd.
      specialize (IH (d :: y) Hy ltac:(simpl in *; lia)).
      change (List.last (a :: b :: x) 0) with (List.last (b :: x) 0).
      cbn [List.hd] in *.
      assert (0 <= (b - a) * (d + c) / 2 <= b - a).
      { split.
        - apply Qle_shift_div_l; [lra|]. nra.
        - apply Qle_shift_div_r; [lra|]. nra. }
      lra.
Qed.

Lemma last_in_bounds (x : list Q) :
  Forall (fun v => 0 <= v <= 1) x -> 0 <= List.last x 0 <= 1 /\ 0 <= List.hd 0 x <= 1.
Proof.
  intros Hx. split.
  - induction Hx as [|a x Ha Hx IH]; [simpl; lra|].
    destruct x; [exact Ha | exact IH].
  - destruct Hx; simpl; [lra | assumption].
Qed.

Lemma trapz_unit (x y : list Q) :
  Sorted Qle x -> Forall (fun v => 0 <= v <= 1) x -> Forall (fun v => 0 <= v <= 1) y ->
  length x = length y -> 0 <= trapz y x <= 1.
Proof.
  intros Hs Hx Hy Hlen.
  destruct (trapz_bounds x y Hs Hy Hlen). destruct (last_in_bounds x Hx) as [[] []].
  lra.
Qed.

Lemma rates_in_unit_interval (n lo hi : Z) (steps : list Z) :
  (0 < n)%Z -> (0 <= lo)%Z -> (hi <= n)%Z -> climbs lo steps hi ->
  Forall (fun v => 0 <= v <= 1) (map (rate (F:=Q) n) (lo :: steps)).
Proof.
  intros Hn Hlo Hhi Hc. destruct (climbs_bounds _ _ _ Hc) as [Hle Hall].
  apply List.Forall_forall. intros v Hv.
  apply in_map_iff in Hv as (k & <- & Hk).
  assert (0 <= k <= n)%Z as Hkn.
  { destruct Hk as [<-|Hk]; [lia|].
    rewrite List.Forall_forall in Hall. specialize (Hall k Hk). lia. }
  pose proof (rate_mono n 0 k Hn ltac:(lia)) as H0.
  pose proof (rate_mono n k n Hn ltac:(lia)) as H1.
  rewrite rate_zero in H0. rewrite (rate_full n Hn) in H1. split; assumption.
Qed.

(** [auc(standardize(w), y)] on a non-decreasing window and an integrand
    in [0,1]: what it returns lies in [0,1]. *)
Lemma standardize_then_auc_bounds (w y : list Q) (v : Q) :
  Sorted Qle w -> length w = length y -> Forall (fun e => 0 <= e <= 1) y ->
  (x ← standardize w; auc x y) = Ok v -> 0 <= v <= 1.
Proof.
  intros Hs Hlen Hy. destruct w as [|x l]; [discriminate|].
  destruct (standardize_spec x l) as (maxN & minN & Hmax & Hmin & Hall & ->).
  destruct (Qeq_bool (maxN - minN) 0) eqn:E; [discriminate|].
  rewrite List.Forall_forall in Hall.
  assert (Hd : minN < maxN).
  { destruct (Hall x (or_introl eq_refl)).
    destruct (Qlt_le_dec minN maxN) as [|Hle]; [assumption|].
    assert (Heq : maxN - minN == 0) by lra.
    apply Qeq_bool_iff in Heq. congruence. }
  unfold mbind, result_bind.
  rewrite auc_sorted.
  - intros [= <-]. cbn [fmul of_int Num_Q].
    assert (0 <= trapz y (map (fun e => (e - minN) / (maxN - minN)) (x :: l)) <= 1).
    { apply trapz_unit; [| |assumption|now rewrite length_map].
      - apply sorted_map_monotone; [|assumption].
        intros a b Hab. unfold Qdiv. apply Qmult_le_compat_r; [lra|].
        apply Qlt_le_weak, Qinv_lt_0_compat. lra.
      - apply List.Forall_forall. intros e He.
        apply in_map_iff in He as (e0 & <- & He0). specialize (Hall e0 He0).
        split; [apply Qle_shift_div_l | apply Qle_shift_div_r]; lra. }
    change (inject_Z 1) with 1. rewrite Qmult_1_l. assumption.
  - now rewrite length_map.
  - rewrite length_map. destruct l as [|x' l]; [|simpl; lia].
    exfalso. destruct Hmax as [<-|[]], Hmin as [<-|[]]. lra.
  - apply sorted_map_monotone; [|assumption].
    intros a b Hab. unfold Qdiv. apply Qmult_le_compat_r; [lra|].
    apply Qlt_le_weak, Qinv_lt_0_compat. lra.
Qed.

(** What [roc_curve] returns, over the steps of the walk. *)
Lemma roc_curve_returned (regions : list GenomicRegion) (fpr tpr : list Q) (a a1 a2 : Q) :
  roc_curve regions = Ok (fpr, tpr, a, a1, a2) ->
  (1 <= positives regions)%Z /\ (1 <= negatives regions)%Z /\
  fpr = map (rate (negatives regions)) (0%Z :: map fst (walk_steps regions 0 0)) /\
  tpr = map (rate (positives regions)) (0%Z :: map snd (walk_steps regions 0 0)) /\
  Sorted Qle fpr /\ Sorted Qle tpr /\ length fpr = length tpr /\
  a = fmul (of_int 1) (trapz tpr fpr) /\
  truncated_auc f_tenth fpr tpr = Ok a1 /\ truncated_auc f_hundredth fpr tpr = Ok a2.
Proof.
  intros Hrun. apply roc_curve_inv in Hrun as (Hpts & Hauc & H1 & H2).
  destruct (roc_points_returns_counts regions fpr tpr Hpts) as [Hp Hn].
  rewrite (roc_points_closed_form regions Hp Hn) in Hpts.
  assert (Hf : fpr = map (rate (negatives regions)) (0%Z :: map fst (walk_steps regions 0 0)))
    by congruence.
  assert (Ht : tpr = map (rate (positives regions)) (0%Z :: map snd (walk_steps regions 0 0)))
    by congruence.
  destruct (walk_steps_climb regions 0 0) as [Hcx Hcy]. rewrite !Z.add_0_l in Hcx, Hcy.
  assert (Hsx : Sorted Qle fpr).
  { rewrite Hf. eapply climbs_rates_sorted; [lia | eassumption]. }
  assert (Hsy : Sorted Qle tpr).
  { rewrite Ht. eapply climbs_rates_sorted; [lia | eassumption]. }
  assert (Hlen : length fpr = length tpr).
  { rewrite Hf, Ht. cbn [map length]. now rewrite !length_map. }
  repeat split; try assumption.
  rewrite auc_sorted in Hauc; [congruence | assumption | | assumption].
  rewrite Hf. cbn [map length]. rewrite !length_map, length_walk_steps.
  pose proof (regions_at_least_negatives regions). unfold len in *. lia.
Qed.
End UnitInterval.

Section AreaTheorems.
Local Open Scope Q_scope.

Lemma walk_steps_counts (regions : list GenomicRegion) (count_x count_y : Z) :
  (0 <= count_x)%Z -> (0 <= count_y)%Z ->
  Forall (fun s => (0 <= s.2 <= s.1 + s.2)%Z /\ (0 < s.1 + s.2)%Z)
         (walk_steps regions count_x count_y).
Proof.
  revert count_x count_y. induction regions as [|r rs IH]; intros cx cy Hx Hy; simpl;
    [constructor|].
  destruct (is_positive r); (constructor; [simpl; lia | apply IH; lia]).
Qed.

Lemma sorted_snoc (l : list Q) (b : Q) :
  Sorted Qle l -> Forall (fun v => v <= b) l -> Sorted Qle (l ++ [b]).
Proof.
  induction 1 as [|a l Hs IH Hhd]; intros Hall; simpl; [repeat constructor|].
  apply Forall_cons in Hall as [Ha Hall].
  constructor; [now apply IH|].
  destruct Hhd; simpl; constructor; assumption.
Qed.

(** The full area that [roc_curve] returns is the share of the pairs of a
    positive-labeled and a negative-labeled region in which the
    positive-labeled one is ranked first. *)
Theorem roc_auc_counts_well_ranked_pairs
    (regions : list GenomicRegion) (fpr tpr : list Q) (a a1 a2 : Q) :
  roc_curve regions = Ok (fpr, tpr, a, a1, a2) ->
  a == inject_Z (well_ranked_pairs regions) /
       (inject_Z (positives regions) * inject_Z (negatives regions)).
Proof.
  intros Hrun.
  destruct (roc_curve_returned regions fpr tpr a a1 a2 Hrun)
    as (Hp & Hn & -> & -> & _ & _ & _ & -> & _).
  cbn [fmul of_int Num_Q]. change (inject_Z 1) with 1. rewrite Qmult_1_l.
  rewrite trapz_walk by lia.
  now rewrite concordant_from_pairs, Z.mul_0_l, Z.add_0_l.
Qed.

(** In exact arithmetic everything [roc_curve] returns lies in [0,1]: the
    coordinates of the curve, the full area and the two truncated areas. *)
Theorem roc_statistics_in_unit_interval
    (regions : list GenomicRegion) (fpr tpr : list Q) (a a1 a2 : Q) :
  roc_curve regions = Ok (fpr, tpr, a, a1, a2) ->
  Forall (fun v => 0 <= v <= 1) fpr /\ Forall (fun v => 0 <= v <= 1) tpr /\
  0 <= a <= 1 /\ 0 <= a1 <= 1 /\ 0 <= a2 <= 1.
Proof.
  intros Hrun.
  destruct (roc_curve_returned regions fpr tpr a a1 a2 Hrun)
    as (Hp & Hn & Hf & Ht & Hsx & Hsy & Hlen & -> & H1 & H2).
  destruct (walk_steps_climb regions 0 0) as [Hcx Hcy]. rewrite !Z.add_0_l in Hcx, Hcy.
  assert (Hux : Forall (fun v => 0 <= v <= 1) fpr).
  { rewrite Hf. eapply rates_in_unit_interval; [lia | lia | | eassumption]. lia. }
  assert (Huy : Forall (fun v => 0 <= v <= 1) tpr).
  { rewrite Ht. eapply rates_in_unit_interval; [lia | lia | | eassumption]. lia. }
  assert (Hwin : forall c v, truncated_auc c fpr tpr = Ok v -> 0 <= v <= 1).
  { intros c v Hv. rewrite (truncated_auc_spec c fpr tpr Hlen) in Hv.
    eapply standardize_then_auc_bounds; [| | |exact Hv].
    - now apply longest_prefix_sorted.
    - rewrite length_take. pose proof (longest_prefix_length c fpr). lia.
    - now apply Forall_take. }
  split; [assumption|]. split; [assumption|].
  split; [|split; [exact (Hwin _ _ H1) | exact (Hwin _ _ H2)]].
  cbn [fmul of_int Num_Q]. change (inject_Z 1) with 1. rewrite Qmult_1_l.
  now apply trapz_unit.
Qed.

(** In exact arithmetic the recall sequence that [precision_recall_curve]
    returns is non-decreasing with values in [0,1], and the area lies in
    [0,1]. *)
Theorem pr_curve_in_unit_interval (regions : list GenomicRegion) :
  (1 <= positives regions)%Z ->
  exists (recall precision : list Q) (area : Q),
    precision_recall_curve regions = Ok (recall, precision, area) /\
    Sorted Qle recall /\ Forall (fun v => 0 <= v <= 1) recall /\
    0 <= area <= 1.
Proof.
  intros Hp. rewrite (precision_recall_curve_closed_form regions Hp). cbv zeta.
  eexists _, _, _. split; [reflexivity|].
  set (steps := walk_steps regions 0 0).
  set (precision := (f0 :: map _ steps) ++ [f0]).
  assert (Hrec : map (fun e : Q => fmul e (fdiv f1 (of_int (positives regions))))
                     (f0 :: map (fun s => of_int s.2) steps) =
                 map (rate (F:=Q) (positives regions)) (0%Z :: map snd steps)).
  { cbn [map]. f_equal. rewrite !map_map. reflexivity. }
  rewrite Hrec. set (recall := map _ (0%Z :: map snd steps) ++ [f1]).
  destruct (walk_steps_climb regions 0 0) as [_ Hcy]. rewrite !Z.add_0_l in Hcy.
  fold steps in Hcy.
  assert (Hur : Forall (fun v => 0 <= v <= 1)
                       (map (rate (F:=Q) (positives regions)) (0%Z :: map snd steps))).
  { eapply rates_in_unit_interval; [lia | lia | | eassumption]. lia. }
  assert (Hs : Sorted Qle recall).
  { apply sorted_snoc; [eapply climbs_rates_sorted; [lia | eassumption]|].
    eapply Forall_impl; [exact Hur|]. cbv beta. intros v Hv. cbn [f1 Num_Q]. lra. }
  assert (Hu : Forall (fun v => 0 <= v <= 1) recall).
  { apply Forall_app. split; [assumption|]. repeat constructor; cbn [f1 Num_Q]; lra. }
  assert (Hup : Forall (fun v => 0 <= v <= 1) precision).
  { apply Forall_app. split; [|repeat constructor; cbn [f0 Num_Q]; lra].
    constructor; [cbn [f0 Num_Q]; lra|].
    apply List.Forall_forall. intros p Hin. apply in_map_iff in Hin as (s & <- & Hin).
    pose proof (walk_steps_counts regions 0 0 ltac:(lia) ltac:(lia)) as Hc.
    rewrite List.Forall_forall in Hc. destruct (Hc s Hin) as [Hk Hn].
    now apply precision_step_in_unit_interval. }
  split; [assumption|]. split; [assumption|].
  assert (Hlen : length recall = length precision).
  { subst recall precision. rewrite !length_app. cbn [map length].
    now rewrite !length_map. }
  pose proof (trapz_by_parts precision recall (eq_sym Hlen)) as Hparts.
  pose proof (trapz_bounds recall precision Hs Hup Hlen) as Hb.
  assert (Hlp : List.last precision 0 = 0) by apply List.last_last.
  assert (Hlr : List.last recall 0 = 1) by apply List.last_last.
  assert (Hhp : List.hd 0 precision = 0) by reflexivity.
  assert (Hhr : List.hd 0 recall == 0) by apply rate_zero.
  rewrite Hlp, Hlr, Hhp in Hparts. rewrite Hlr, Hhr in Hb.
  assert (E : trapz recall precision == - trapz precision recall) by lra.
  cbn [fabs Num_Q]. rewrite E, Qabs_opp, Qabs_pos; lra.
Qed.
End AreaTheorems.

Section RecallAndTpr.
Context {F : Type} `{Num F}.
Hypothesis of_int_zero : of_int 0 = f0.

Lemma recall_extends_tpr (regions : list GenomicRegion)
    (fpr tpr recall precision : list F) (a a1 a2 area : F) :
  roc_curve regions = Ok (fpr, tpr, a, a1, a2) ->
  precision_recall_curve regions = Ok (recall, precision, area) ->
  recall = tpr ++ [f1] /\ length precision = length recall.
Proof.
  intros Hroc Hpr. apply roc_curve_inv in Hroc as (Hpts & _).
  assert (positives regions <> 0%Z /\ negatives regions <> 0%Z) as [Hp Hn].
  { destruct (roc_points_spec regions) as (sx & sy & _ & _ & _ & _ & Hspec).
    rewrite Hspec in Hpts.
    destruct (Z.eqb_spec (negatives regions) 0) as [|Hn]; [discriminate|].
    destruct (Z.eqb_spec (positives regions) 0) as [|Hp]; [discriminate|].
    now split. }
  pose proof (positives_nonneg regions). pose proof (negatives_nonneg regions).
  rewrite (roc_points_closed_form regions) in Hpts by lia.
  rewrite (precision_recall_curve_closed_form regions) in Hpr by lia. cbv zeta in Hpr.
  assert (tpr = map (rate (positives regions)) (0%Z :: map snd (walk_steps regions 0 0)))
    as -> by congruence.
  assert (recall = map (fun e => fmul e (fdiv f1 (of_int (positives regions))))
                       (f0 :: map (fun s => of_int s.2) (walk_steps regions 0 0)) ++ [f1])
    as -> by congruence.
  assert (precision =
          (f0 :: map (fun s => fdiv (of_int s.2) (of_int (s.1 + s.2)))
                     (walk_steps regions 0 0)) ++ [f0]) as -> by congruence.
  split.
  - f_equal. cbn [map]. unfold rate at 1. rewrite of_int_zero. f_equal.
    rewrite !map_map. reflexivity.
  - rewrite !length_app. cbn [map length]. now rewrite !length_map.
Qed.
End RecallAndTpr.

(** The recall sequence of [precision_recall_curve] is the [tpr] sequence of
    [roc_curve] on the same list with the appended 1.0, in exact arithmetic
    and in binary64. *)
Theorem recall_is_tpr_then_one :
  (forall (regions : list GenomicRegion) (fpr tpr recall precision : list Q)
          (a a1 a2 area : Q),
     roc_curve regions = Ok (fpr, tpr, a, a1, a2) ->
     precision_recall_curve regions = Ok (recall, precision, area) ->
     recall = tpr ++ [1%Q] /\ length precision = length recall) /\
  (forall (regions : list GenomicRegion) (fpr tpr recall precision : list float)
          (a a1 a2 area : float),
     roc_curve regions = Ok (fpr, tpr, a, a1, a2) ->
     precision_recall_curve regions = Ok (recall, precision, area) ->
     recall = tpr ++ [1%float] /\ length precision = length recall).
Proof.
  split.
  - intros regions fpr tpr recall precision a a1 a2 area Hroc Hpr.
    exact (recall_extends_tpr (F:=Q) eq_refl regions fpr tpr recall precision
             a a1 a2 area Hroc Hpr).
  - intros regions fpr tpr recall precision a a1 a2 area Hroc Hpr.
    exact (recall_extends_tpr (F:=float) eq_refl regions fpr tpr recall precision
             a a1 a2 area Hroc Hpr).
Qed.

Lemma roc_auc_counts_well_ranked_pairs_witness :
  exists (fpr tpr : list Q) (a a1 a2 : Q),
    roc_curve (one_hit_then 100) = Ok (fpr, tpr, a, a1, a2) /\
    (a == inject_Z (well_ranked_pairs (one_hit_then 100)) /
          (inject_Z (positives (one_hit_then 100)) *
           inject_Z (negatives (one_hit_then 100))))%Q.
Proof.
  eexists _, _, _, _, _. split; [vm_compute; reflexivity|].
  eapply (roc_auc_counts_well_ranked_pairs (one_hit_then 100)).
  vm_compute. reflexivity.
Defined.

Lemma roc_statistics_in_unit_interval_witness :
  exists (fpr tpr : list Q) (a a1 a2 : Q),
    roc_curve (one_hit_then 100) = Ok (fpr, tpr, a, a1, a2) /\
    Forall (fun v => 0 <= v <= 1)%Q fpr /\ Forall (fun v => 0 <= v <= 1)%Q tpr /\
    (0 <= a <= 1)%Q /\ (0 <= a1 <= 1)%Q /\ (0 <= a2 <= 1)%Q.
Proof.
  eexists _, _, _, _, _. split; [vm_compute; reflexivity|].
  apply (roc_statistics_in_unit_interval (one_hit_then 100)).
  vm_compute. reflexivity.
Defined.

Lemma pr_curve_in_unit_interval_witness :
  exists (recall precision : list Q) (area : Q),
    precision_recall_curve [site_Y; site_N; site_Y] = Ok (recall, precision, area) /\
    Sorted Qle recall /\ Forall (fun v => 0 <= v <= 1)%Q recall /\
    (0 <= area <= 1)%Q.
Proof.
  apply (pr_curve_in_unit_interval [site_Y; site_N; site_Y]).
  apply Z.leb_le. reflexivity.
Defined.

Lemma recall_is_tpr_then_one_witness :
  exists (fpr tpr recall precision : list Q) (a a1 a2 area : Q),
    roc_curve (one_hit_then 100) = Ok (fpr, tpr, a, a1, a2) /\
    precision_recall_curve (one_hit_then 100) = Ok (recall, precision, area) /\
    recall = tpr ++ [1%Q] /\ length precision = length recall.
Proof.
  eexists _, _, _, _, _, _, _, _.
  split; [vm_compute; reflexivity|]. split; [vm_compute; reflexivity|].
  eapply (proj1 recall_is_tpr_then_one (one_hit_then 100)); vm_compute; reflexivity.
Defined.

Lemma curves_read_labels_only_witness :
  roc_curve (F:=float) [site_Y; site_N; site_Y] = roc_curve [weak_site; strong_site; site_Y] /\
  precision_recall_curve (F:=float) [site_Y; site_N; site_Y] =
  precision_recall_curve [weak_site; strong_site; site_Y].
Proof.
  apply (curves_read_labels_only (F:=float)). reflexivity.
Defined.

Lemma standardize_rescales_to_unit_interval_witness :
  exists out,
    standardize [1; 3; 2]%Q = Ok out /\
    length out = length [1; 3; 2]%Q /\
    Forall (fun e => 0 <= e <= 1)%Q out /\
    (exists e, In e out /\ e == 0)%Q /\ (exists e, In e out /\ e == 1)%Q /\
    (forall i j x y x' y',
       [1; 3; 2]%Q !! i = Some x -> [1; 3; 2]%Q !! j = Some y ->
       out !! i = Some x' -> out !! j = Some y' -> (x <= y)%Q -> (x' <= y')%Q).
Proof.
  apply (standardize_rescales_to_unit_interval [1; 3; 2]%Q).
  exists 1%Q, 3%Q. split; [now left|]. split; [right; now left|]. discriminate.
Defined.

(** ** Score fusion and the curves *)

Lemma is_positive_set_data (r : GenomicRegion) (score : Z) :
  is_positive (set_data r score) = is_positive r.
Proof. reflexivity. Qed.

Lemma positives_perm (l1 l2 : list GenomicRegion) :
  Permutation l1 l2 -> positives l1 = positives l2 /\ negatives l1 = negatives l2.
Proof.
  induction 1 as [|x l1 l2 _ IH|x y l|l1 l2 l3 _ IH1 _ IH2].
  - split; reflexivity.
  - rewrite !positives_cons, !negatives_cons. destruct IH as [-> ->]. split; reflexivity.
  - rewrite !positives_cons, !negatives_cons. split; lia.
  - destruct IH1 as [-> ->]. exact IH2.
Qed.

Lemma positives_map_labels (g : GenomicRegion -> GenomicRegion) (l : list GenomicRegion) :
  (forall r, is_positive (g r) = is_positive r) ->
  positives (map g l) = positives l /\ negatives (map g l) = negatives l.
Proof.
  intros Hg. induction l as [|x l [IHp IHn]]; [split; reflexivity|].
  cbn [map]. rewrite !positives_cons, !negatives_cons, Hg, IHp, IHn. split; reflexivity.
Qed.

Section ExactOutcome.
Local Open Scope Q_scope.

(** In exact arithmetic [roc_curve] returns exactly on the lists with a
    positive-labeled region and 100 negative-labeled ones, and raises
    [ZeroDivisionError] on every other list. *)
Lemma roc_curve_outcome (regions : list GenomicRegion) :
  ((1 <= positives regions)%Z /\ (100 <= negatives regions)%Z ->
     returns (roc_curve (F:=Q) regions)) /\
  (~ ((1 <= positives regions)%Z /\ (100 <= negatives regions)%Z) ->
     roc_curve (F:=Q) regions = Raise ZeroDivisionError).
Proof.
  pose proof (positives_nonneg regions) as Hp0.
  pose proof (negatives_nonneg regions) as Hn0.
  destruct (Z_le_gt_dec 1 (positives regions)) as [Hp|Hp];
    [destruct (Z_le_gt_dec 1 (negatives regions)) as [Hn|Hn]|].
  - destruct (roc_points_shape regions Hp Hn) as (sx & sy & Hrun & Hcx & Hcy & Hlx & Hly).
    set (fpr := map (rate (negatives regions)) (0%Z :: sx)) in *.
    set (tpr := map (rate (positives regions)) (0%Z :: sy)) in *.
    destruct (roc_sequence_shape_aux regions fpr tpr Hrun) as [a Hauc].
    destruct (truncated_auc_on_roc_points (1 # 10) regions fpr tpr Hp Hn Hrun ltac:(lra))
      as (_ & _ & Hok10 & Hdich10).
    destruct (truncated_auc_on_roc_points (1 # 100) regions fpr tpr Hp Hn Hrun ltac:(lra))
      as (_ & Hlow100 & Hok100 & _).
    split.
    + intros [_ H100].
      destruct Hok10 as [a1 Ha1].
      { eapply Qle_trans; [apply (unit_rate_le_cutoff _ 100 H100) | lra]. }
      destruct Hok100 as [a2 Ha2]; [apply (unit_rate_le_cutoff _ 100 H100)|].
      exists (fpr, tpr, a, a1, a2).
      unfold roc_curve. rewrite Hrun. simpl. rewrite Hauc. simpl.
      change (truncated_auc f_tenth fpr tpr) with (truncated_auc (1 # 10) fpr tpr).
      change (truncated_auc f_hundredth fpr tpr) with (truncated_auc (1 # 100) fpr tpr).
      rewrite Ha1. simpl. rewrite Ha2. reflexivity.
    + intros Hnot. assert (H100 : (negatives regions < 100)%Z) by lia.
      unfold roc_curve. rewrite Hrun. simpl. rewrite Hauc. simpl.
      change (truncated_auc f_tenth fpr tpr) with (truncated_auc (1 # 10) fpr tpr).
      change (truncated_auc f_hundredth fpr tpr) with (truncated_auc (1 # 100) fpr tpr).
      destruct Hdich10 as [->|[a1 ->]]; [reflexivity|]. simpl.
      rewrite Hlow100; [reflexivity|].
      apply (cutoff_lt_unit_rate _ 100). lia.
  - split; [lia|]. intros _. unfold roc_curve.
    destruct (roc_points_spec (F:=Q) regions) as (sx & sy & _ & _ & _ & _ & ->).
    destruct (Z.eqb_spec (negatives regions) 0); [reflexivity | lia].
  - split; [lia|]. intros _. unfold roc_curve.
    destruct (roc_points_spec (F:=Q) regions) as (sx & sy & _ & _ & _ & _ & ->).
    destruct (Z.eqb_spec (negatives regions) 0); [reflexivity|].
    destruct (Z.eqb_spec (positives regions) 0); [reflexivity | lia].
Qed.
End ExactOutcome.

Section FusionAndCurves.
Variable overlapping : list GenomicRegion -> GenomicRegion -> bool.
Variable intersect subtract : list GenomicRegion -> list GenomicRegion -> list GenomicRegion.
Variable sort_score : list GenomicRegion -> list GenomicRegion.
Hypothesis intersect_spec : forall a b,
  Permutation (intersect a b) (List.filter (overlapping b) a).
Hypothesis subtract_spec : forall a b,
  Permutation (subtract a b) (List.filter (fun r => negb (overlapping b r)) a).
Hypothesis sort_score_spec : forall l, Permutation (sort_score l) l.

Lemma fuse_counts (mpbs footprints : list GenomicRegion) :
  positives (fuse intersect subtract sort_score mpbs footprints) = positives mpbs /\
  negatives (fuse intersect subtract sort_score mpbs footprints) = negatives mpbs.
Proof.
  destruct (positives_perm _ _
              (fuse_perm overlapping intersect subtract sort_score
                 intersect_spec subtract_spec sort_score_spec mpbs footprints))
    as [-> ->].
  apply positives_map_labels. intros r. unfold fused_region.
  now destruct (overlapping footprints r).
Qed.

(** Fusion re-scores and reorders but never relabels: the fused list has the
    positive- and negative-labeled counts of the MPBS set, whatever the
    footprints.  So whether the curves of a "SEG" input can be computed is
    decided by the MPBS file alone: in exact arithmetic [roc_curve] returns
    on the fused list exactly when the MPBS set has a positive-labeled
    region and 100 negative-labeled ones, and [precision_recall_curve]
    exactly when it has a positive-labeled one. *)
Theorem fusion_keeps_label_counts (mpbs footprints : list GenomicRegion) :
  let fused := fuse intersect subtract sort_score mpbs footprints in
  positives fused = positives mpbs /\ negatives fused = negatives mpbs /\
  (returns (roc_curve (F:=Q) fused) <->
     (1 <= positives mpbs)%Z /\ (100 <= negatives mpbs)%Z) /\
  (returns (precision_recall_curve (F:=Q) fused) <-> (1 <= positives mpbs)%Z).
Proof.
  intros fused. destruct (fuse_counts mpbs footprints) as [Hp Hn]. fold fused in Hp, Hn.
  split; [exact Hp|]. split; [exact Hn|]. rewrite <- Hp, <- Hn. split.
  - destruct (roc_curve_outcome fused) as [Hok Hbad]. split; [|exact Hok].
    intros [out Hout].
    destruct (Z_le_gt_dec 1 (positives fused)); [destruct (Z_le_gt_dec 100 (negatives fused))|];
      [now split | |]; rewrite Hbad in Hout by lia; discriminate.
  - destruct (precision_recall_curve_spec (F:=Q) fused) as (ps & rs & _ & _ & _ & ->).
    pose proof (positives_nonneg fused).
    destruct (Z.eqb_spec (positives fused) 0); split.
    + intros [out Hout]. discriminate.
    + lia.
    + lia.
    + intros _. eexists. reflexivity.
Qed.
End FusionAndCurves.

Lemma fusion_keeps_label_counts_witness :
  let fused := fuse intersect_model subtract_model sort_score_model
                 (one_hit_then 100) one_footprint in
  positives fused = positives (one_hit_then 100) /\
  negatives fused = negatives (one_hit_then 100) /\
  (returns (roc_curve (F:=Q) fused) <->
     (1 <= positives (one_hit_then 100))%Z /\ (100 <= negatives (one_hit_then 100))%Z) /\
  (returns (precision_recall_curve (F:=Q) fused) <->
     (1 <= positives (one_hit_then 100))%Z).
Proof.
  apply (fusion_keeps_label_counts overlaps_any intersect_model subtract_model
           sort_score_model);
    apply score_fusion_models_meet_spec.
Defined.

(** ** Where fusion puts the overlapped regions *)

Lemma filter_perm {A} (p : A -> bool) (l1 l2 : list A) :
  Permutation l1 l2 -> Permutation (List.filter p l1) (List.filter p l2).
Proof.
  induction 1 as [|x l1 l2 _ IH|x y l|l1 l2 l3 _ IH1 _ IH2]; simpl.
  - constructor.
  - destruct (p x); [now constructor | assumption].
  - destruct (p x), (p y); try reflexivity. apply perm_swap.
  - now rewrite IH1.
Qed.

Lemma filter_all {A} (p : A -> bool) (l : list A) :
  Forall (fun a => p a = true) l ->
  List.filter p l = l /\ List.filter (fun a => negb (p a)) l = [].
Proof.
  induction 1 as [|a l Ha _ [IH1 IH2]]; simpl; [split; reflexivity|].
  rewrite Ha, IH1, IH2. split; reflexivity.
Qed.

Lemma filter_none {A} (p : A -> bool) (l : list A) :
  Forall (fun a => p a = false) l ->
  List.filter p l = [] /\ List.filter (fun a => negb (p a)) l = l.
Proof.
  induction 1 as [|a l Ha _ [IH1 IH2]]; simpl; [split; reflexivity|].
  rewrite Ha, IH1, IH2. split; reflexivity.
Qed.

(** A list ranked by score splits at any threshold: the scores at or above
    it come first. *)
Lemma ranked_split (M : Z) (l : list GenomicRegion) :
  ranked_by_score l ->
  l = List.filter (fun r => (M <=? data r)%Z) l ++
      List.filter (fun r => negb (M <=? data r)%Z) l.
Proof.
  induction 1 as [|a l Hs IH Hall]; [reflexivity|]. simpl.
  destruct (Z.leb_spec M (data a)); simpl.
  - now rewrite <- IH.
  - destruct (filter_none (fun r => (M <=? data r)%Z) l) as [-> ->]; [|reflexivity].
    eapply Forall_impl; [exact Hall|]. cbv beta. intros b Hb.
    apply Z.leb_gt. lia.
Qed.

Lemma insert_by_score_ranked (r : GenomicRegion) (l : list GenomicRegion) :
  ranked_by_score l -> ranked_by_score (insert_by_score r l).
Proof.
  induction 1 as [|a l Hs IH Hall]; simpl.
  - repeat constructor.
  - destruct (Z.leb_spec (data a) (data r)).
    + constructor; [now constructor|].
      constructor; [assumption|].
      eapply Forall_impl; [exact Hall|]. cbv beta. intros; lia.
    + constructor; [exact IH|].
      apply List.Forall_forall. intros b Hb.
      apply (Permutation_in _ (insert_by_score_perm r l)) in Hb.
      destruct Hb as [<-|Hb]; [lia|].
      rewrite List.Forall_forall in Hall. now apply Hall.
Qed.

Lemma sort_score_model_ranked (l : list GenomicRegion) :
  ranked_by_score (sort_score_model l).
Proof.
  induction l as [|x l IH]; simpl; [constructor|]. now apply insert_by_score_ranked.
Qed.

Section FusionRanking.
Variable overlapping : list GenomicRegion -> GenomicRegion -> bool.
Variable intersect subtract : list GenomicRegion -> list GenomicRegion -> list GenomicRegion.
Variable sort_score : list GenomicRegion -> list GenomicRegion.
Hypothesis intersect_spec : forall a b,
  Permutation (intersect a b) (List.filter (overlapping b) a).
Hypothesis subtract_spec : forall a b,
  Permutation (subtract a b) (List.filter (fun r => negb (overlapping b r)) a).
Hypothesis sort_score_spec : forall l, Permutation (sort_score l) l.
Hypothesis sort_score_ranked : forall l, ranked_by_score (sort_score l).

(** When [sort_score] ranks by score, highest first, and no overlapped MPBS
    has a negative score, the fused list handed to the curve builders is the
    overlapped MPBSs (re-scored) followed by the others: the walk meets
    every MPBS with a footprint before any MPBS without one. *)
Theorem fusion_ranks_overlaps_first (mpbs footprints : list GenomicRegion) :
  (forall r, In r mpbs -> overlapping footprints r = true -> (0 <= data r)%Z) ->
  let M := max_score_plus_one mpbs in
  exists hits misses,
    fuse intersect subtract sort_score mpbs footprints = hits ++ misses /\
    Permutation hits (map (fun r => set_data r (data r + M))
                          (List.filter (overlapping footprints) mpbs)) /\
    Permutation misses (List.filter (fun r => negb (overlapping footprints r)) mpbs) /\
    ranked_by_score hits /\ ranked_by_score misses.
Proof.
  intros Hpos M.
  set (fused := fuse intersect subtract sort_score mpbs footprints).
  set (boosted := map (fun r => set_data r (data r + M))
                      (List.filter (overlapping footprints) mpbs)).
  set (others := List.filter (fun r => negb (overlapping footprints r)) mpbs).
  assert (Hperm : Permutation fused (boosted ++ others)).
  { subst fused boosted others. unfold fuse, increased_score_mpbs_regions.
    rewrite sort_score_spec, intersect_spec, subtract_spec. reflexivity. }
  assert (Hb : Forall (fun r => (M <=? data r)%Z = true) boosted).
  { apply List.Forall_forall. intros b Hin. subst boosted.
    apply in_map_iff in Hin as (r & <- & Hr). apply List.filter_In in Hr as [Hr Hov].
    apply Z.leb_le. simpl. specialize (Hpos r Hr Hov). lia. }
  assert (Ho : Forall (fun r => (M <=? data r)%Z = false) others).
  { apply List.Forall_forall. intros r Hin. subst others.
    apply List.filter_In in Hin as [Hr _]. apply Z.leb_gt.
    now apply max_score_plus_one_above. }
  pose proof (sort_score_ranked
                (increased_score_mpbs_regions intersect subtract mpbs footprints)) as Hs.
  fold (fuse intersect subtract sort_score mpbs footprints) in Hs. fold fused in Hs.
  exists (List.filter (fun r => (M <=? data r)%Z) fused),
         (List.filter (fun r => negb (M <=? data r)%Z) fused).
  split; [now apply ranked_split|].
  destruct (filter_all _ _ Hb) as [Hb1 Hb2]. destruct (filter_none _ _ Ho) as [Ho1 Ho2].
  split; [|split; [|split]].
  - rewrite (filter_perm _ _ _ Hperm), List.filter_app, Hb1, Ho1. now rewrite app_nil_r.
  - rewrite (filter_perm _ _ _ Hperm), List.filter_app, Hb2, Ho2. reflexivity.
  - clear -Hs. induction Hs as [|a l Hs IH Hall]; simpl; [constructor|].
    destruct (M <=? data a)%Z; [|exact IH].
    constructor; [exact IH|].
    apply List.Forall_forall. intros b Hin. apply List.filter_In in Hin as [Hin _].
    rewrite List.Forall_forall in Hall. now apply Hall.
  - clear -Hs. induction Hs as [|a l Hs IH Hall]; simpl; [constructor|].
    destruct (negb (M <=? data a)%Z); [|exact IH].
    constructor; [exact IH|].
    apply List.Forall_forall. intros b Hin. apply List.filter_In in Hin as [Hin _].
    rewrite List.Forall_forall in Hall. now apply Hall.
Qed.
End FusionRanking.

Lemma fusion_ranks_overlaps_first_witness :
  let M := max_score_plus_one example_mpbs in
  exists hits misses,
    fuse intersect_model subtract_model sort_score_model example_mpbs example_footprints =
      hits ++ misses /\
    Permutation hits (map (fun r => set_data r (data r + M))
                          (List.filter (overlaps_any example_footprints) example_mpbs)) /\
    Permutation misses
      (List.filter (fun r => negb (overlaps_any example_footprints r)) example_mpbs) /\
    ranked_by_score hits /\ ranked_by_score misses.
Proof.
  apply (fusion_ranks_overlaps_first overlaps_any intersect_model subtract_model
           sort_score_model);
    try apply score_fusion_models_meet_spec.
  - apply sort_score_model_ranked.
  - intros r Hr _. simpl in Hr.
    destruct Hr as [<-|[<-|[<-|[]]]]; simpl; lia.
Defined.

(** ** Which points the downsamplers keep *)

Lemma ceil_div_step (a a' b : Z) :
  (0 < b)%Z -> (a + b <= a')%Z -> (ceil_div a b < ceil_div a' b)%Z.
Proof.
  intros Hb Ha. unfold ceil_div.
  assert (- a' / b <= (- a - 1 * b) / b)%Z by (apply Z.div_le_mono; lia).
  replace ((- a - 1 * b) / b)%Z with (- a / b - 1)%Z in *; [lia|].
  replace (- a - 1 * b)%Z with (- a + (-1) * b)%Z by lia.
  rewrite Z.div_add by lia. lia.
Qed.

Lemma ceil_div_exact (k b : Z) : (0 < b)%Z -> ceil_div (b * k) b = k.
Proof.
  intros Hb. unfold ceil_div.
  replace (- (b * k))%Z with ((- k) * b)%Z by lia.
  rewrite Z.div_mul by lia. lia.
Qed.

Lemma increasing_map_seq (f : nat -> Z) (a n : nat) :
  (forall i k, (i < k)%nat -> (f i < f k)%Z) ->
  StronglySorted Z.lt (map f (seq a n)).
Proof.
  intros Hf. revert a. induction n as [|n IH]; intros a; simpl; [constructor|].
  constructor; [apply IH|].
  apply List.Forall_forall. intros z Hz. apply in_map_iff in Hz as (k & <- & Hk).
  apply in_seq in Hk. apply Hf. lia.
Qed.

(** The sampled indices when more points than the budget are there: they
    start at 0, end at [stop] and increase strictly. *)
Lemma linspace_ceil_increasing (stop num : Z) :
  (2 <= num)%Z -> (num <= stop)%Z ->
  exists idxs, linspace_ceil stop num = Ok idxs /\
               length idxs = Z.to_nat num /\
               head idxs = Some 0%Z /\ last idxs = Some stop /\
               StronglySorted Z.lt idxs /\
               Forall (fun j => 0 <= j <= stop)%Z idxs.
Proof.
  intros Hnum Hstop.
  destruct (linspace_ceil_spec stop num ltac:(lia) ltac:(lia)) as (idxs & Hrun & Hlen & Hall).
  exists idxs. split; [exact Hrun|]. split; [exact Hlen|].
  unfold linspace_ceil in Hrun.
  destruct (Z.ltb_spec num 0); [lia|]. destruct (Z.eqb_spec num 1); [lia|].
  injection Hrun as <-. unfold range in *. rewrite map_map in *.
  split; [|split; [|split; [|exact Hall]]].
  - destruct (Z.to_nat num) as [|m] eqn:E; [lia|]. reflexivity.
  - replace (Z.to_nat num) with (S (Z.to_nat (num - 1))) by lia.
    rewrite seq_S, map_app. cbn [map]. rewrite last_snoc. f_equal.
    rewrite Nat.add_0_l, Z2Nat.id by lia.
    replace (num - 1)%Z with (num - 1)%Z by reflexivity.
    apply ceil_div_exact. lia.
  - apply increasing_map_seq. intros i k Hik. apply ceil_div_step; [lia | nia].
Qed.

Section DownsamplerValues.
Context {A : Type}.
Implicit Types (s : @store A) (lx ly : list A).

Lemma pick_points_values i idxs ax ay s lx ly :
  s.1 !! i = Some lx -> s.2 !! i = Some ly ->
  Forall (fun j => 0 <= j < len lx /\ j < len ly)%Z idxs ->
  exists px py,
    pick_points i idxs (ax, ay) s = Ok ((ax ++ px, ay ++ py), s) /\
    picked idxs lx px /\ picked idxs ly py.
Proof.
  intros Hx Hy Hidx. revert ax ay.
  induction Hidx as [|j idxs [Hjx Hjy] _ IH]; intros ax ay.
  - exists [], []. rewrite !app_nil_r. repeat split; constructor.
  - destruct (getitem_in_range lx j) as (a & Ha & Hla); [lia|].
    destruct (getitem_in_range ly j) as (b & Hb & Hlb); [lia|].
    destruct (IH (ax ++ [a]) (ay ++ [b])) as (px & py & Hrun & Hpx & Hpy).
    exists (a :: px), (b :: py).
    unfold pick_points in *. rewrite for_each_cons.
    match goal with |- context [for_each ?body _ _ _] =>
      assert (body (ax, ay) j s = Ok ((ax ++ [a], ay ++ [b]), s)) as ->
    end.
    { unfold mbind, stateful_bind, mret, stateful_ret, dict_get, lift, the_dict.
      now rewrite Hx, Ha, Hy, Hb. }
    rewrite Hrun, <- !app_assoc. simpl. repeat split; now constructor.
Qed.

Lemma optimize_roc_round_values max_points new_fpr new_tpr i s lx ly :
  (2 <= max_points)%Z ->
  s.1 !! i = Some lx -> s.2 !! i = Some ly -> length lx = length ly ->
  exists ox oy,
    optimize_roc_round max_points (new_fpr, new_tpr) i s =
      Ok ((<[i := ox]> new_fpr, <[i := oy]> new_tpr), s) /\
    ((len lx <= max_points)%Z /\ ox = lx /\ oy = ly \/
     (max_points < len lx)%Z /\ sampled max_points lx ly ox oy).
Proof.
  intros Hmp Hx Hy Hlen. unfold optimize_roc_round.
  unfold mbind at 1, stateful_bind at 1, dict_get at 1, the_dict. rewrite Hx.
  destruct (Z.ltb_spec max_points (len lx)) as [Hlt|Hge].
  - destruct (linspace_ceil_increasing (len lx - 1) max_points)
      as (idxs & Hlin & Hn & Hhd & Hlast & Hinc & Hin); [lia | lia |].
    destruct (pick_points_values i idxs [] [] s lx ly Hx Hy) as (px & py & Hrun & Hpx & Hpy).
    { eapply Forall_impl; [exact Hin|]. simpl. intros j Hj. unfold len in *. rewrite <- Hlen. lia. }
    exists px, py.
    unfold mbind, stateful_bind, lift. rewrite Hlin, Hrun. simpl.
    unfold mret, stateful_ret. split; [reflexivity|].
    right. split; [assumption|]. exists idxs. repeat split; assumption.
  - exists lx, ly.
    unfold mbind, stateful_bind, dict_get, the_dict. rewrite Hx, Hy.
    unfold mret, stateful_ret. split; [reflexivity|]. left. repeat split. assumption.
Qed.

(** The loop of [optimize_roc_points], for any property [R] that each round
    establishes of the curve it stores. *)
Lemma optimize_roc_loop_post (R : list A -> list A -> list A -> list A -> Prop)
    max_points l acc s :
  (forall i, i ∈ l -> exists lx ly,
     s.1 !! i = Some lx /\ s.2 !! i = Some ly /\
     forall new_fpr new_tpr, exists ox oy,
       optimize_roc_round max_points (new_fpr, new_tpr) i s =
         Ok ((<[i := ox]> new_fpr, <[i := oy]> new_tpr), s) /\ R lx ly ox oy) ->
  exists acc',
    for_each (optimize_roc_round max_points) l acc s = Ok (acc', s) /\
    (forall i lx ly, i ∈ l -> s.1 !! i = Some lx -> s.2 !! i = Some ly ->
       exists ox oy, acc'.1 !! i = Some ox /\ acc'.2 !! i = Some oy /\ R lx ly ox oy) /\
    (forall i, i ∉ l -> acc'.1 !! i = acc.1 !! i /\ acc'.2 !! i = acc.2 !! i).
Proof.
  revert acc. induction l as [|i l IH]; intros [new_fpr new_tpr] Hwf.
  - exists (new_fpr, new_tpr). split; [reflexivity|]. split; [|done].
    intros i lx ly Hi. by apply elem_of_nil in Hi.
  - destruct (Hwf i) as (lx & ly & Hx & Hy & Hround); [left|].
    destruct (Hround new_fpr new_tpr) as (ox & oy & Hrun & HR).
    destruct (IH (<[i := ox]> new_fpr, <[i := oy]> new_tpr)) as (acc' & Hloop & Hin & Hout).
    { intros j Hj. apply Hwf. by right. }
    exists acc'. rewrite for_each_cons, Hrun. split; [exact Hloop|]. split.
    + intros j x y Hj Hjx Hjy. destruct (decide (j ∈ l)) as [Hjl|Hjl]; [by apply Hin|].
      apply elem_of_cons in Hj as [->|Hj]; [|done].
      destruct (Hout i Hjl) as [-> ->]. simpl. rewrite !lookup_insert_eq.
      rewrite Hx in Hjx. rewrite Hy in Hjy. injection Hjx as <-. injection Hjy as <-.
      by exists ox, oy.
    + intros j Hj. apply not_elem_of_cons in Hj as [Hne Hj].
      destruct (Hout j Hj) as [-> ->]. simpl. by rewrite !lookup_insert_ne.
Qed.

(** With a budget of at least two points, ROC-style downsampling returns a
    curve of at most [max_points] points as it is, and of a longer one it
    keeps [max_points] points in their order, the first and the last point
    among them, the two coordinates taken at the same positions. *)
Theorem roc_downsampling_keeps_order_and_ends (n : nat) (max_points : Z) (s : @store A) :
  (2 <= max_points)%Z -> curves_present n s ->
  exists new_fpr new_tpr,
    optimize_roc_points n max_points s = Ok ((new_fpr, new_tpr), s) /\
    forall i x y, (i < n)%nat -> s.1 !! i = Some x -> s.2 !! i = Some y ->
      exists ox oy, new_fpr !! i = Some ox /\ new_tpr !! i = Some oy /\
        ((len x <= max_points)%Z /\ ox = x /\ oy = y \/
         (max_points < len x)%Z /\ sampled max_points x y ox oy).
Proof.
  intros Hmp Hwf.
  destruct (optimize_roc_loop_post
              (fun lx ly ox oy : list A =>
                 (len lx <= max_points)%Z /\ ox = lx /\ oy = ly \/
                 (max_points < len lx)%Z /\ sampled max_points lx ly ox oy)
              max_points (seq 0 n) (∅, ∅) s)
    as ([new_fpr new_tpr] & Hrun & Hin & _).
  { intros i Hi. apply elem_of_seq in Hi.
    destruct (Hwf i ltac:(lia)) as (lx & ly & Hx & Hy & Hlen).
    exists lx, ly. split; [done|]. split; [done|]. intros new_fpr new_tpr.
    by apply optimize_roc_round_values. }
  exists new_fpr, new_tpr. split; [exact Hrun|].
  intros i x y Hi Hx Hy. apply (Hin i x y); [apply elem_of_seq; lia | done | done].
Qed.

Lemma optimize_pr_round_values max_points new_recall new_precision i s lx ly :
  (2 <= max_points)%Z ->
  s.1 !! i = Some lx -> s.2 !! i = Some ly -> length lx = length ly ->
  let k := Z.to_nat (Z.min max_points (len lx)) in
  exists ox oy,
    optimize_pr_round max_points (new_recall, new_precision) i s =
      Ok ((<[i := ox]> new_recall, <[i := oy]> new_precision),
          (<[i := drop k lx]> s.1, <[i := drop k ly]> s.2)) /\
    ((len lx <= 2 * max_points)%Z /\ ox = lx /\ oy = ly \/
     (2 * max_points < len lx)%Z /\
     exists tx ty,
       ox = take (Z.to_nat max_points) lx ++ tx /\
       oy = take (Z.to_nat max_points) ly ++ ty /\
       sampled max_points (drop (Z.to_nat max_points) lx)
               (drop (Z.to_nat max_points) ly) tx ty).
Proof.
  intros Hmp Hx Hy Hlen k. unfold optimize_pr_round.
  unfold mbind at 1, stateful_bind at 1, dict_get at 1, the_dict. rewrite Hx.
  assert (Hk : (k <= length lx)%nat) by (unfold k, len; lia).
  unfold mbind at 1, stateful_bind at 1.
  rewrite (pop_points_spec i _ s lx ly Hx Hy) by (fold k; lia). fold k.
  set (s' := (<[i := drop k lx]> s.1, <[i := drop k ly]> s.2)).
  assert (Hx' : s'.1 !! i = Some (drop k lx)) by apply lookup_insert_eq.
  assert (Hy' : s'.2 !! i = Some (drop k ly)) by apply lookup_insert_eq.
  unfold mbind at 1, stateful_bind at 1, dict_get at 1, the_dict. rewrite Hx'.
  assert (Hdrop : len (drop k lx) = (len lx - Z.of_nat k)%Z)
    by (unfold len; rewrite length_drop; lia).
  destruct (Z.ltb_spec max_points (len (drop k lx))) as [Hlt|Hge].
  - assert (Hkm : k = Z.to_nat max_points) by (unfold k, len in *; lia).
    destruct (linspace_ceil_increasing (len (drop k lx) - 1) max_points)
      as (idxs & Hlin & Hn & Hhd & Hlast & Hinc & Hin); [lia | lia |].
    destruct (pick_points_values i idxs (take k lx) (take k ly) s' _ _ Hx' Hy')
      as (px & py & Hrun & Hpx & Hpy).
    { eapply Forall_impl; [exact Hin|]. simpl. intros j Hj.
      unfold len in *. rewrite !length_drop in *. rewrite <- Hlen. lia. }
    exists (take k lx ++ px), (take k ly ++ py).
    unfold mbind, stateful_bind, lift. rewrite Hlin, Hrun. simpl.
    unfold mret, stateful_ret.
    split; [reflexivity|]. right. split; [unfold k, len in *; lia|].
    exists px, py. rewrite <- Hkm. split; [reflexivity|]. split; [reflexivity|].
    exists idxs. repeat split; assumption.
  - exists (take k lx ++ drop k lx), (take k ly ++ drop k ly).
    unfold mbind, stateful_bind, dict_get, the_dict. rewrite Hx', Hy'.
    unfold mret, stateful_ret.
    split; [reflexivity|]. left.
    rewrite !take_drop. unfold len in *. unfold k in *. repeat split; lia.
Qed.

(** The loop of [optimize_pr_points], for any property [R] that each round
    establishes of the curve it stores. *)
Lemma optimize_pr_loop_post (R : list A -> list A -> list A -> list A -> Prop)
    max_points l acc s :
  NoDup l ->
  (forall i, i ∈ l -> exists lx ly,
     s.1 !! i = Some lx /\ s.2 !! i = Some ly /\ length lx = length ly) ->
  (forall i s0 lx ly new_recall new_precision,
     s0.1 !! i = Some lx -> s0.2 !! i = Some ly -> length lx = length ly ->
     exists ox oy k,
       optimize_pr_round max_points (new_recall, new_precision) i s0 =
         Ok ((<[i := ox]> new_recall, <[i := oy]> new_precision),
             (<[i := drop k lx]> s0.1, <[i := drop k ly]> s0.2)) /\
       R lx ly ox oy) ->
  exists acc' s',
    for_each (optimize_pr_round max_points) l acc s = Ok (acc', s') /\
    (forall i lx ly, i ∈ l -> s.1 !! i = Some lx -> s.2 !! i = Some ly ->
       exists ox oy, acc'.1 !! i = Some ox /\ acc'.2 !! i = Some oy /\ R lx ly ox oy) /\
    (forall i, i ∉ l -> acc'.1 !! i = acc.1 !! i /\ acc'.2 !! i = acc.2 !! i).
Proof.
  intros Hnd Hwf Hround. revert acc s Hnd Hwf.
  induction l as [|i l IH]; intros [new_recall new_precision] s Hnd Hwf.
  - exists (new_recall, new_precision), s. split; [reflexivity|]. split; [|done].
    intros i lx ly Hi. by apply elem_of_nil in Hi.
  - apply NoDup_cons in Hnd as [Hil Hnd].
    destruct (Hwf i) as (lx & ly & Hx & Hy & Hlen); [left|].
    destruct (Hround i s lx ly new_recall new_precision Hx Hy Hlen)
      as (ox & oy & k & Hrun & HR).
    set (s1 := (<[i := drop k lx]> s.1, <[i := drop k ly]> s.2)) in *.
    destruct (IH (<[i := ox]> new_recall, <[i := oy]> new_precision) s1 Hnd)
      as (acc' & s' & Hloop & Hin & Hout).
    { intros j Hj. assert (i ≠ j) by (intros ->; done).
      subst s1. simpl. rewrite !lookup_insert_ne by done. apply Hwf. by right. }
    exists acc', s'. rewrite for_each_cons, Hrun. split; [exact Hloop|]. split.
    + intros j x y Hj Hjx Hjy. apply elem_of_cons in Hj as [->|Hj].
      * destruct (Hout i Hil) as (-> & ->). simpl.
        rewrite !lookup_insert_eq. rewrite Hx in Hjx. rewrite Hy in Hjy.
        injection Hjx as <-. injection Hjy as <-. by exists ox, oy.
      * assert (i ≠ j) by (intros ->; done).
        apply Hin; [done | |]; subst s1; simpl; by rewrite lookup_insert_ne.
    + intros j Hj. apply not_elem_of_cons in Hj as [Hne Hj].
      destruct (Hout j Hj) as (-> & ->). simpl.
      by rewrite !lookup_insert_ne.
Qed.

(** With a budget of at least two points, PR-style downsampling returns a
    curve of at most [2 * max_points] points as it was, and of a longer one
    the first [max_points] points followed by [max_points] points of the
    rest, kept in their order, the first and the last point of the rest
    among them. *)
Theorem pr_downsampling_values (n : nat) (max_points : Z) (s : @store A) :
  (2 <= max_points)%Z -> curves_present n s ->
  exists new_recall new_precision s',
    optimize_pr_points n max_points s = Ok ((new_recall, new_precision), s') /\
    forall i x y, (i < n)%nat -> s.1 !! i = Some x -> s.2 !! i = Some y ->
      exists ox oy, new_recall !! i = Some ox /\ new_precision !! i = Some oy /\
        ((len x <= 2 * max_points)%Z /\ ox = x /\ oy = y \/
         (2 * max_points < len x)%Z /\
         exists tx ty,
           ox = take (Z.to_nat max_points) x ++ tx /\
           oy = take (Z.to_nat max_points) y ++ ty /\
           sampled max_points (drop (Z.to_nat max_points) x)
                   (drop (Z.to_nat max_points) y) tx ty).
Proof.
  intros Hmp Hwf.
  destruct (optimize_pr_loop_post
              (fun lx ly ox oy : list A =>
                 (len lx <= 2 * max_points)%Z /\ ox = lx /\ oy = ly \/
                 (2 * max_points < len lx)%Z /\
                 exists tx ty,
                   ox = take (Z.to_nat max_points) lx ++ tx /\
                   oy = take (Z.to_nat max_points) ly ++ ty /\
                   sampled max_points (drop (Z.to_nat max_points) lx)
                           (drop (Z.to_nat max_points) ly) tx ty)
              max_points (seq 0 n) (∅, ∅) s (NoDup_seq 0 n))
    as ([new_recall new_precision] & s' & Hrun & Hin & _).
  { intros i Hi. apply Hwf. apply elem_of_seq in Hi. lia. }
  { intros i s0 lx ly nr np Hx Hy Hlen.
    destruct (optimize_pr_round_values max_points nr np i s0 lx ly Hmp Hx Hy Hlen)
      as (ox & oy & Hrun & HR).
    by exists ox, oy, (Z.to_nat (Z.min max_points (len lx))). }
  exists new_recall, new_precision, s'. split; [exact Hrun|].
  intros i x y Hi Hx Hy. apply (Hin i x y); [apply elem_of_seq; lia | done | done].
Qed.
End DownsamplerValues.

Lemma roc_downsampling_keeps_order_and_ends_witness :
  exists new_fpr new_tpr,
    optimize_roc_points 1 3 seven_point_curve = Ok ((new_fpr, new_tpr), seven_point_curve) /\
    forall i x y, (i < 1)%nat ->
      seven_point_curve.1 !! i = Some x -> seven_point_curve.2 !! i = Some y ->
      exists ox oy, new_fpr !! i = Some ox /\ new_tpr !! i = Some oy /\
        ((len x <= 3)%Z /\ ox = x /\ oy = y \/
         (3 < len x)%Z /\ sampled 3 x y ox oy).
Proof.
  apply (roc_downsampling_keeps_order_and_ends 1 3 seven_point_curve);
    [lia | apply seven_point_curve_present].
Defined.

Lemma pr_downsampling_values_witness :
  exists new_recall new_precision s',
    optimize_pr_points 1 2 seven_point_curve = Ok ((new_recall, new_precision), s') /\
    forall i x y, (i < 1)%nat ->
      seven_point_curve.1 !! i = Some x -> seven_point_curve.2 !! i = Some y ->
      exists ox oy, new_recall !! i = Some ox /\ new_precision !! i = Some oy /\
        ((len x <= 2 * 2)%Z /\ ox = x /\ oy = y \/
         (2 * 2 < len x)%Z /\
         exists tx ty,
           ox = take (Z.to_nat 2) x ++ tx /\
           oy = take (Z.to_nat 2) y ++ ty /\
           sampled 2 (drop (Z.to_nat 2) x) (drop (Z.to_nat 2) y) tx ty).
Proof.
  apply (pr_downsampling_values 1 2 seven_point_curve);
    [lia | apply seven_point_curve_present].
Defined.

(** ** The tables of [output_points] *)

Lemma for_in_total {X Acc} (body : Acc -> X -> result Acc) (step : Acc -> X -> Acc)
    (l : list X) (acc : Acc) :
  (forall a x, In x l -> body a x = Ok (step a x)) ->
  for_in body l acc = Ok (fold_left step l acc).
Proof.
  revert acc. induction l as [|x l IH]; intros acc Hb; simpl; [reflexivity|].
  rewrite Hb by now left. simpl. apply IH. intros a y Hy. apply Hb. now right.
Qed.

Lemma fold_left_snoc {X B} (f : X -> list B) (l : list X) (acc : list B) :
  fold_left (fun a x => a ++ f x) l acc = acc ++ flat_map f l.
Proof.
  revert acc. induction l as [|x l IH]; intros acc; simpl.
  - now rewrite app_nil_r.
  - now rewrite IH, app_assoc.
Qed.

Lemma fold_left_pair {X B C} (f : X -> list B) (g : X -> list C) (l : list X)
    (b : list B) (c : list C) :
  fold_left (fun '(h, v) x => (h ++ f x, v ++ g x)) l (b, c) =
  (b ++ flat_map f l, c ++ flat_map g l).
Proof.
  revert b c. induction l as [|x l IH]; intros b c; simpl.
  - now rewrite !app_nil_r.
  - now rewrite IH, !app_assoc.
Qed.

Lemma flat_map_singleton {X B} (f : X -> B) (l : list X) :
  flat_map (fun x => [f x]) l = map f l.
Proof. induction l as [|x l IH]; simpl; [reflexivity | now rewrite IH]. Qed.

Lemma flat_map_ext_seq {B} (f g : nat -> list B) (a n : nat) :
  (forall i, (a <= i < a + n)%nat -> f i = g i) ->
  flat_map f (seq a n) = flat_map g (seq a n).
Proof.
  revert a. induction n as [|n IH]; intros a Hfg; simpl; [reflexivity|].
  rewrite Hfg by lia. f_equal. apply IH. intros i Hi. apply Hfg. lia.
Qed.

Lemma flat_map_lookup_seq {X B} (f : X -> list B) (d : X) (l : list X) :
  flat_map (fun i => f (default d (l !! i))) (seq 0 (length l)) = flat_map f l.
Proof.
  induction l as [|x l IH] using rev_ind; [reflexivity|].
  rewrite length_app, Nat.add_comm. cbn [length Nat.add].
  rewrite seq_S, !flat_map_app. cbn [flat_map Nat.add]. rewrite !app_nil_r.
  rewrite lookup_app_r, Nat.sub_diag by lia. cbn [lookup list_lookup default].
  f_equal. rewrite <- IH. apply flat_map_ext_seq. intros i Hi.
  now rewrite lookup_app_l by lia.
Qed.

Lemma max_int_spec (x : Z) (l : list Z) :
  exists m, max_int (x :: l) = Ok m /\ In m (x :: l) /\ Forall (fun e => (e <= m)%Z) (x :: l).
Proof.
  unfold max_int. eexists. split; [reflexivity|].
  revert x. induction l as [|y l IH]; intros x; cbn [fold_left].
  - split; [now left|]. repeat constructor. lia.
  - destruct (IH (if (x <? y)%Z then y else x)) as [Hin Hall].
    apply Forall_cons in Hall as [Hm Hall].
    destruct (Z.ltb_spec x y).
    + split; [right; exact Hin|]. constructor; [lia|]. now constructor.
    + split; [destruct Hin as [<-|Hin]; [now left | right; now right]|].
      constructor; [lia|]. constructor; [lia | assumption].
Qed.

Lemma index_spec (l : list Z) (v : Z) :
  In v l -> exists k, index l v = Ok k /\ l !! k = Some v.
Proof.
  induction l as [|x l IH]; intros Hin; [destruct Hin|]. simpl.
  destruct (Z.eqb_spec x v) as [->|Hne]; [exists 0%nat; now split|].
  destruct IH as (k & -> & Hk); [destruct Hin; [contradiction | assumption]|].
  exists (S k). now split.
Qed.

Section TableFacts.
Context {A : Type}.
Variable str : A -> string.

Lemma table_cell_spec (d : gmap nat (list A)) (i j : nat) :
  is_Some (d !! i) ->
  table_cell str d i (Z.of_nat j) = Ok (padded_cell str (curve d i) j).
Proof.
  intros [l Hl]. unfold table_cell, dict_getitem, curve, padded_cell. rewrite Hl. simpl.
  destruct (Z.leb_spec (len l) (Z.of_nat j)) as [Hge|Hlt].
  - rewrite lookup_ge_None_2 by (unfold len in Hge; lia). reflexivity.
  - destruct (lookup_lt_is_Some_2 l j) as [x Hx]; [unfold len in Hlt; lia|].
    rewrite (getitem_of_nat _ _ _ Hx), Hx. reflexivity.
Qed.

Lemma table_row_spec (n : nat) (new_x new_y : gmap nat (list A)) (j : nat) :
  (forall i, (i < n)%nat -> is_Some (new_x !! i) /\ is_Some (new_y !! i)) ->
  table_row str n new_x new_y (Z.of_nat j) =
  Ok (flat_map (fun i => [padded_cell str (curve new_x i) j;
                          padded_cell str (curve new_y i) j]) (seq 0 n)).
Proof.
  intros Hkeys. unfold table_row.
  rewrite (for_in_total _
             (fun to_write i => to_write ++ [padded_cell str (curve new_x i) j;
                                             padded_cell str (curve new_y i) j])).
  - now rewrite fold_left_snoc.
  - intros a i Hi. apply in_seq in Hi. destruct (Hkeys i ltac:(lia)) as [Hx Hy].
    rewrite (table_cell_spec new_x i j Hx). simpl.
    rewrite (table_cell_spec new_y i j Hy). simpl. now rewrite <- app_assoc.
Qed.

Lemma table_header_spec (names : list string) (suffix_x suffix_y : string)
    (new_x : gmap nat (list A)) :
  (forall i, (i < length names)%nat -> is_Some (new_x !! i)) ->
  table_header names suffix_x suffix_y new_x =
  Ok (flat_map (fun nm => [(nm ++ suffix_x)%string; (nm ++ suffix_y)%string]) names,
      map (fun i => len (curve new_x i)) (seq 0 (length names))).
Proof.
  intros Hkeys. unfold table_header.
  rewrite (for_in_total _
             (fun '(header, len_vec) i =>
                (header ++ [(default EmptyString (names !! i) ++ suffix_x)%string;
                            (default EmptyString (names !! i) ++ suffix_y)%string],
                 len_vec ++ [len (curve new_x i)]))).
  - rewrite (fold_left_pair
               (fun i => [(default EmptyString (names !! i) ++ suffix_x)%string;
                          (default EmptyString (names !! i) ++ suffix_y)%string])
               (fun i => [len (curve new_x i)])).
    cbn [app]. rewrite flat_map_singleton.
    now rewrite (flat_map_lookup_seq
                   (fun nm => [(nm ++ suffix_x)%string; (nm ++ suffix_y)%string])).
  - intros [header len_vec] i Hi. apply in_seq in Hi.
    destruct (lookup_lt_is_Some_2 names i) as [nm Hnm]; [lia|].
    destruct (Hkeys i ltac:(lia)) as [l Hl].
    rewrite (getitem_of_nat _ _ _ Hnm). simpl.
    unfold dict_getitem, curve. rewrite Hl, Hnm. simpl. now rewrite <- app_assoc.
Qed.

Lemma write_table_rows (names : list string) (suffix_x suffix_y : string)
    (new_x new_y : gmap nat (list A)) :
  (forall i, (i < length names)%nat -> is_Some (new_x !! i) /\ is_Some (new_y !! i)) ->
  names <> [] ->
  exists rows,
    write_table str names suffix_x suffix_y new_x new_y =
      Ok ((join tab (flat_map (fun nm => [(nm ++ suffix_x)%string; (nm ++ suffix_y)%string])
                              names) ++ newline)%string
            :: map (fun row => (join tab row ++ newline)%string) rows) /\
    (exists i, (i < length names)%nat /\ length rows = length (curve new_x i)) /\
    (forall i, (i < length names)%nat -> (length (curve new_x i) <= length rows)%nat) /\
    (forall j row, rows !! j = Some row ->
       row = flat_map (fun i => [padded_cell str (curve new_x i) j;
                                 padded_cell str (curve new_y i) j])
                      (seq 0 (length names))).
Proof.
  intros Hkeys Hne. unfold write_table.
  rewrite table_header_spec by (intros i Hi; apply Hkeys, Hi).
  destruct names as [|nm names]; [contradiction|].
  set (n := length (nm :: names)) in *.
  set (len_vec := map (fun i => len (curve new_x i)) (seq 0 n)).
  assert (Hlv : exists x l, len_vec = x :: l).
  { subst len_vec n. cbn [length seq map]. eauto. }
  destruct Hlv as (x & l & Hlv).
  unfold mbind at 1, result_bind at 1. cbv beta iota. rewrite Hlv.
  destruct (max_int_spec x l) as (m & -> & Hin & Hall).
  unfold mbind at 1, result_bind at 1. cbv beta iota. rewrite <- Hlv in *.
  destruct (index_spec len_vec m Hin) as (k & -> & Hk).
  unfold mbind at 1, result_bind at 1. cbv beta iota.
  assert (Hkn : (k < n)%nat).
  { apply lookup_lt_Some in Hk. subst len_vec.
    now rewrite length_map, length_seq in Hk. }
  assert (Hm : m = len (curve new_x k)).
  { subst len_vec. rewrite list_lookup_fmap, lookup_seq_lt in Hk by assumption.
    simpl in Hk. congruence. }
  destruct (proj1 (Hkeys k Hkn)) as [xk Hxk].
  unfold dict_getitem at 1. rewrite Hxk.
  unfold mbind at 1, result_bind at 1. cbv beta iota.
  assert (Hcurve : curve new_x k = xk) by (unfold curve; now rewrite Hxk).
  set (rows := map (fun j => flat_map (fun i => [padded_cell str (curve new_x i) j;
                                                 padded_cell str (curve new_y i) j])
                                      (seq 0 n))
                   (seq 0 (length xk))).
  exists rows.
  rewrite (comprehension_total _
             (fun j => (join tab
                          (flat_map (fun i => [padded_cell str (curve new_x i) (Z.to_nat j);
                                               padded_cell str (curve new_y i) (Z.to_nat j)])
                                    (seq 0 n)) ++ newline)%string)).
  - unfold mbind, result_bind. split; [|split; [|split]].
    + f_equal. f_equal. subst rows. unfold range, len.
      rewrite Nat2Z.id, !map_map. apply map_ext. intros j. now rewrite Nat2Z.id.
    + exists k. split; [assumption|]. subst rows.
      now rewrite length_map, length_seq, Hcurve.
    + intros i Hi. subst rows. rewrite length_map, length_seq.
      rewrite List.Forall_forall in Hall.
      assert (In (len (curve new_x i)) len_vec) as Hi'.
      { subst len_vec. apply in_map_iff. exists i. split; [reflexivity|].
        apply in_seq. lia. }
      specialize (Hall _ Hi'). rewrite Hm, Hcurve in Hall. unfold len in Hall. lia.
    + intros j row Hrow. subst rows.
      rewrite list_lookup_fmap in Hrow.
      destruct (seq 0 (length xk) !! j) as [j'|] eqn:Ej; [|discriminate].
      apply lookup_seq in Ej as [-> _]. rewrite Nat.add_0_l in Hrow.
      cbn [fmap option_fmap option_map] in Hrow. congruence.
  - intros j Hj. unfold range in Hj. apply in_map_iff in Hj as (j' & <- & _).
    rewrite table_row_spec by assumption. simpl. now rewrite Nat2Z.id.
Qed.

(** [output_points] writes one header line and one line for each point of
    the longest x-sequence; every line has two cells for each footprint
    name, and a curve that ends before the longest one is padded with
    ["NA"].  With no footprint name at all [max] raises [ValueError]. *)
Theorem write_table_grid (names : list string) (suffix_x suffix_y : string)
    (new_x new_y : gmap nat (list A)) :
  (forall i, (i < length names)%nat -> is_Some (new_x !! i) /\ is_Some (new_y !! i)) ->
  (names = [] -> write_table str names suffix_x suffix_y new_x new_y = Raise ValueError) /\
  (names <> [] ->
   exists rows,
     write_table str names suffix_x suffix_y new_x new_y =
       Ok ((join tab (flat_map (fun nm => [(nm ++ suffix_x)%string; (nm ++ suffix_y)%string])
                               names) ++ newline)%string
             :: map (fun row => (join tab row ++ newline)%string) rows) /\
     (exists i, (i < length names)%nat /\ length rows = length (curve new_x i)) /\
     (forall i, (i < length names)%nat -> (length (curve new_x i) <= length rows)%nat) /\
     (forall j row, rows !! j = Some row ->
        row = flat_map (fun i => [padded_cell str (curve new_x i) j;
                                  padded_cell str (curve new_y i) j])
                       (seq 0 (length names)))).
Proof.
  intros Hkeys. split.
  - intros ->. reflexivity.
  - now apply write_table_rows.
Qed.
End TableFacts.


Section OutputPointsFacts.
Context {A : Type}.
Variable str : A -> string.

Lemma table_line_count (names : list string) (suffix_x suffix_y : string)
    (new_x new_y : gmap nat (list A)) (bound : Z) (s : @store A) :
  names <> [] -> curves_present (length names) s ->
  (forall i x, (i < length names)%nat -> s.1 !! i = Some x ->
     exists ox oy, new_x !! i = Some ox /\ new_y !! i = Some oy /\
                   len ox = Z.min (len x) bound) ->
  exists file,
    write_table str names suffix_x suffix_y new_x new_y = Ok file /\
    (exists i x, (i < length names)%nat /\ s.1 !! i = Some x /\
                 Z.of_nat (length file) = (1 + Z.min (len x) bound)%Z) /\
    (forall i x, (i < length names)%nat -> s.1 !! i = Some x ->
       (1 + Z.min (len x) bound <= Z.of_nat (length file))%Z).
Proof.
  intros Hne Hwf Hout.
  assert (Hkeys : forall i, (i < length names)%nat ->
                    is_Some (new_x !! i) /\ is_Some (new_y !! i)).
  { intros i Hi. destruct (Hwf i Hi) as (x & y & Hx & _).
    destruct (Hout i x Hi Hx) as (ox & oy & -> & -> & _). split; eauto. }
  assert (Hlen : forall i x, (i < length names)%nat -> s.1 !! i = Some x ->
                   Z.of_nat (length (curve new_x i)) = Z.min (len x) bound).
  { intros i x Hi Hx. destruct (Hout i x Hi Hx) as (ox & oy & Hox & _ & Hl).
    unfold curve. rewrite Hox. exact Hl. }
  destruct (write_table_rows str names suffix_x suffix_y new_x new_y Hkeys Hne)
    as (rows & -> & (k & Hk & Hrows) & Hall & _).
  eexists. split; [reflexivity|]. cbn [length]. rewrite length_map. split.
  - destruct (Hwf k Hk) as (x & y & Hx & _). exists k, x.
    split; [assumption|]. split; [assumption|].
    rewrite Hrows, <- (Hlen k x Hk Hx). lia.
  - intros i x Hi Hx. specialize (Hall i Hi). rewrite <- (Hlen i x Hi Hx). lia.
Qed.

Lemma output_points_lines (names : list string) (roc prc : @store A) :
  names <> [] ->
  curves_present (length names) roc -> curves_present (length names) prc ->
  exists roc_file prc_file prc',
    output_points str names roc prc = Ok (roc_file, prc_file, roc, prc') /\
    (exists i x, (i < length names)%nat /\ roc.1 !! i = Some x /\
                 Z.of_nat (length roc_file) = (1 + Z.min (len x) 1000)%Z) /\
    (forall i x, (i < length names)%nat -> roc.1 !! i = Some x ->
       (1 + Z.min (len x) 1000 <= Z.of_nat (length roc_file))%Z) /\
    (exists i x, (i < length names)%nat /\ prc.1 !! i = Some x /\
                 Z.of_nat (length prc_file) = (1 + Z.min (len x) 2000)%Z) /\
    (forall i x, (i < length names)%nat -> prc.1 !! i = Some x ->
       (1 + Z.min (len x) 2000 <= Z.of_nat (length prc_file))%Z).
Proof.
  intros Hne Hroc Hprc. set (n := length names) in *.
  destruct (optimize_roc_loop_spec 1000 (seq 0 n) (∅, ∅) roc ltac:(lia))
    as ([new_fpr new_tpr] & Hrun1 & Hin1 & _).
  { intros i Hi. apply Hroc. apply elem_of_seq in Hi. lia. }
  destruct (optimize_pr_loop_spec 1000 (seq 0 n) (∅, ∅) prc ltac:(lia) (NoDup_seq 0 n))
    as ([new_recall new_precision] & prc' & Hrun2 & Hin2 & _).
  { intros i Hi. apply Hprc. apply elem_of_seq in Hi. lia. }
  destruct (table_line_count names "_FPR" "_TPR" new_fpr new_tpr 1000 roc Hne Hroc)
    as (roc_file & Hfile1 & Hex1 & Hall1).
  { intros i x Hi Hx.
    destruct (Hin1 i x) as (ox & oy & Hox & Hoy & Hl & _); [apply elem_of_seq; lia | done |].
    exists ox, oy. done. }
  destruct (table_line_count names "_REC" "_PRE" new_recall new_precision 2000 prc Hne Hprc)
    as (prc_file & Hfile2 & Hex2 & Hall2).
  { intros i x Hi Hx. destruct (Hprc i Hi) as (x' & y & Hx' & Hy & _).
    rewrite Hx in Hx'. injection Hx' as <-.
    destruct (Hin2 i x y) as (_ & _ & ox & oy & Hox & Hoy & Hl & _);
      [apply elem_of_seq; lia | done | done |].
    exists ox, oy. done. }
  exists roc_file, prc_file, prc'. split.
  { unfold output_points. fold n. unfold optimize_roc_points, optimize_pr_points.
    rewrite Hrun1. unfold mbind at 1, result_bind at 1. cbv beta iota.
    rewrite Hfile1. unfold mbind at 1, result_bind at 1. cbv beta iota.
    rewrite Hrun2. unfold mbind at 1, result_bind at 1. cbv beta iota.
    rewrite Hfile2. reflexivity. }
  split; [exact Hex1|]. split; [exact Hall1|]. split; [exact Hex2 | exact Hall2].
Qed.

(** With at least one footprint name and every curve present,
    [output_points] returns.  The ROC table has one header line and
    [min(length, 1000)] lines for the longest [fpr] sequence, so at most
    1001 lines; the PR table has one header line and [min(length, 2000)]
    lines for the longest [recall] sequence, so at most 2001 lines.  The
    [fpr] and [tpr] dicts are left as they were. *)
Theorem output_points_line_counts (names : list string) (roc prc : @store A) :
  names <> [] ->
  curves_present (length names) roc -> curves_present (length names) prc ->
  exists roc_file prc_file prc',
    output_points str names roc prc = Ok (roc_file, prc_file, roc, prc') /\
    (exists i x, (i < length names)%nat /\ roc.1 !! i = Some x /\
                 Z.of_nat (length roc_file) = (1 + Z.min (len x) 1000)%Z) /\
    (forall i x, (i < length names)%nat -> roc.1 !! i = Some x ->
       (1 + Z.min (len x) 1000 <= Z.of_nat (length roc_file))%Z) /\
    (exists i x, (i < length names)%nat /\ prc.1 !! i = Some x /\
                 Z.of_nat (length prc_file) = (1 + Z.min (len x) 2000)%Z) /\
    (forall i x, (i < length names)%nat -> prc.1 !! i = Some x ->
       (1 + Z.min (len x) 2000 <= Z.of_nat (length prc_file))%Z) /\
    (length roc_file <= 1001)%nat /\ (length prc_file <= 2001)%nat.
Proof.
  intros Hne Hroc Hprc.
  destruct (output_points_lines names roc prc Hne Hroc Hprc)
    as (roc_file & prc_file & prc' & Hrun & Hex1 & Hall1 & Hex2 & Hall2).
  exists roc_file, prc_file, prc'.
  split; [exact Hrun|]. split; [exact Hex1|]. split; [exact Hall1|].
  split; [exact Hex2|]. split; [exact Hall2|].
  destruct Hex1 as (i1 & x1 & _ & _ & E1). destruct Hex2 as (i2 & x2 & _ & _ & E2).
  split; lia.
Qed.
End OutputPointsFacts.

(** ** The evaluation run *)

Lemma getitem_of_nat_inv {A} (l : list A) (k : nat) (a : A) :
  getitem l (Z.of_nat k) = Ok a -> l !! k = Some a.
Proof.
  unfold getitem. destruct (Z.ltb_spec (Z.of_nat k) 0); [lia|].
  destruct (Z.ltb_spec (Z.of_nat k) 0); [lia|].
  rewrite Nat2Z.id. destruct (l !! k); [congruence | discriminate].
Qed.

Lemma comprehension_inv {A B} (f : A -> result B) (l : list A) (out : list B) :
  comprehension f l = Ok out -> Forall2 (fun x b => f x = Ok b) l out.
Proof.
  revert out. induction l as [|x l IH]; intros out; simpl.
  - intros [= <-]. constructor.
  - destruct (f x) as [b|e] eqn:Hx; [|discriminate]. simpl.
    destruct (comprehension f l) as [bs|e]; [|discriminate]. simpl.
    intros [= <-]. constructor; [assumption | now apply IH].
Qed.

(** A comprehension whose items can only raise [e] raises [e] as soon as
    one item does. *)
Lemma comprehension_raises_only {A B} (f : A -> result B) (l : list A) (e : exn) :
  (forall x, In x l -> returns (f x) \/ f x = Raise e) ->
  (exists x, In x l /\ f x = Raise e) ->
  comprehension f l = Raise e.
Proof.
  induction l as [|x l IH]; intros Hall (y & Hy & Hraise); [destruct Hy|]. simpl.
  destruct (Hall x (or_introl eq_refl)) as [[b Hb]|Hr]; [|now rewrite Hr].
  rewrite Hb. simpl.
  rewrite IH; [reflexivity | intros z Hz; apply Hall; now right |].
  destruct Hy as [->|Hy]; [congruence | eauto].
Qed.

Lemma for_in_invariant {X Acc} (Inv : Acc -> Prop) (body : Acc -> X -> result Acc)
    (l : list X) (acc r : Acc) :
  Inv acc ->
  (forall a x a', In x l -> Inv a -> body a x = Ok a' -> Inv a') ->
  for_in body l acc = Ok r -> Inv r.
Proof.
  revert acc. induction l as [|x l IH]; intros acc Hacc Hstep; simpl.
  - now intros [= <-].
  - destruct (body acc x) as [a'|e] eqn:Hb; [|discriminate]. simpl.
    apply IH; [eapply Hstep; eauto; now left|].
    intros a y a'' Hy. apply Hstep. now right.
Qed.

Lemma for_in_each_returns {X Acc} (body : Acc -> X -> result Acc)
    (l : list X) (acc r : Acc) :
  for_in body l acc = Ok r -> forall x, In x l -> exists a a', body a x = Ok a'.
Proof.
  revert acc. induction l as [|x l IH]; intros acc Hrun y Hy; [destruct Hy|].
  simpl in Hrun. destruct (body acc x) as [a'|e] eqn:Hb; [|discriminate].
  destruct Hy as [<-|Hy]; [eauto|]. simpl in Hrun. eapply IH; eauto.
Qed.

Lemma for_in_app {X Acc} (body : Acc -> X -> result Acc) (l1 l2 : list X) (acc : Acc) :
  for_in body (l1 ++ l2) acc = (a ← for_in body l1 acc; for_in body l2 a).
Proof.
  revert acc. induction l1 as [|x l1 IH]; intros acc; simpl; [reflexivity|].
  destruct (body acc x); simpl; [apply IH | reflexivity].
Qed.

Lemma for_in_ext {X Acc} (body body' : Acc -> X -> result Acc) (l : list X) (acc : Acc) :
  (forall a x, In x l -> body a x = body' a x) ->
  for_in body l acc = for_in body' l acc.
Proof.
  revert acc. induction l as [|x l IH]; intros acc Hb; simpl; [reflexivity|].
  rewrite Hb by now left. destruct (body' acc x) as [acc'|e]; simpl; [|reflexivity].
  apply IH. intros a0 y Hy. apply Hb. now right.
Qed.

(** A loop that appends one item per round is a comprehension. *)
Lemma for_in_snoc {X B} (g : X -> result B) (l : list X) (acc : list B) :
  for_in (fun out x => b ← g x; Ok (out ++ [b])) l acc =
  (bs ← comprehension g l; Ok (acc ++ bs)).
Proof.
  revert acc. induction l as [|x l IH]; intros acc; simpl.
  - now rewrite app_nil_r.
  - destruct (g x) as [b|e]; simpl; [|reflexivity].
    rewrite IH. destruct (comprehension g l); simpl; [|reflexivity].
    now rewrite <- app_assoc.
Qed.

Lemma comprehension_all_return {A B} (f : A -> result B) (l : list A) :
  (forall x, In x l -> returns (f x)) -> returns (comprehension f l).
Proof.
  induction l as [|x l IH]; intros Hall; simpl; [eexists; reflexivity|].
  destruct (Hall x (or_introl eq_refl)) as [b ->]. simpl.
  destruct IH as [bs ->]; [intros y Hy; apply Hall; now right|].
  eexists. reflexivity.
Qed.

Lemma color_list_NoDup : NoDup color_list.
Proof.
  apply (@bool_decide_unpack _ (@NoDup_dec string string_dec color_list)).
  vm_compute. exact I.
Qed.

Section PlotFacts.
Context {F : Type}.
Variable str_round : F -> string.

Lemma plot_curve_as_comprehension (names : list string)
    (data_x data_y : gmap nat (list F)) (stats : gmap nat F) :
  plot_curve str_round names data_x data_y stats =
  comprehension (plotted str_round names data_x data_y stats) (seq 0 (length names)).
Proof.
  unfold plot_curve.
  rewrite (for_in_ext _ (fun out i =>
                           b ← plotted str_round names data_x data_y stats i;
                           Ok (out ++ [b]))).
  - rewrite for_in_snoc. now destruct (comprehension _ _).
  - intros out i _. unfold plotted.
    destruct (dict_getitem data_x i); [|reflexivity].
    destruct (dict_getitem data_y i); [|reflexivity].
    destruct (getitem color_list (Z.of_nat i)); [|reflexivity].
    destruct (getitem names (Z.of_nat i)); [|reflexivity].
    destruct (dict_getitem stats i); reflexivity.
Qed.

Lemma plotted_inv (names : list string) (data_x data_y : gmap nat (list F))
    (stats : gmap nat F) (i : nat) (s : series F) :
  plotted str_round names data_x data_y stats i = Ok s ->
  data_x !! i = Some (series_x s) /\ data_y !! i = Some (series_y s) /\
  color_list !! i = Some (series_color s) /\
  exists name_i stat, names !! i = Some name_i /\ stats !! i = Some stat /\
    series_label s = (name_i ++ ": " ++ str_round stat)%string.
Proof.
  unfold plotted, dict_getitem.
  destruct (data_x !! i) as [x|]; [|discriminate].
  destruct (data_y !! i) as [y|]; [|discriminate].
  unfold mbind at 1 2, result_bind at 1 2. cbv beta iota.
  destruct (getitem color_list (Z.of_nat i)) as [c|] eqn:Hc; [|discriminate].
  unfold mbind at 1, result_bind at 1. cbv beta iota.
  destruct (getitem names (Z.of_nat i)) as [nm|] eqn:Hnm; [|discriminate].
  unfold mbind at 1, result_bind at 1. cbv beta iota.
  destruct (stats !! i) as [st|]; [|discriminate].
  unfold mbind, result_bind. intros [= <-]. cbn.
  apply getitem_of_nat_inv in Hc, Hnm. repeat split; eauto.
Qed.

Lemma plotted_outcome (names : list string) (data_x data_y : gmap nat (list F))
    (stats : gmap nat F) (i : nat) :
  (i < length names)%nat ->
  is_Some (data_x !! i) -> is_Some (data_y !! i) -> is_Some (stats !! i) ->
  ((i < 40)%nat -> returns (plotted str_round names data_x data_y stats i)) /\
  ((40 <= i)%nat -> plotted str_round names data_x data_y stats i = Raise IndexError).
Proof.
  intros Hi [x Hx] [y Hy] [st Hst]. unfold plotted, dict_getitem. rewrite Hx, Hy, Hst.
  unfold mbind at 1 2, result_bind at 1 2. cbv beta iota.
  destruct (lookup_lt_is_Some_2 names i Hi) as [nm Hnm].
  rewrite (getitem_of_nat _ _ _ Hnm). split.
  - intros H40. destruct (lookup_lt_is_Some_2 color_list i) as [c Hc]; [exact H40|].
    rewrite (getitem_of_nat _ _ _ Hc). eexists. reflexivity.
  - intros H40. unfold getitem.
    destruct (Z.ltb_spec (Z.of_nat i) 0); [lia|].
    destruct (Z.ltb_spec (Z.of_nat i) 0); [lia|].
    rewrite Nat2Z.id, (lookup_ge_None_2 color_list i); [reflexivity | exact H40].
Qed.

(** [plot_curve] has 40 colours.  With every curve there, up to 40
    footprint names are drawn, curve [i] in colour [i], no colour used
    twice; with more names the call raises [IndexError]. *)
Theorem plot_curve_draws_at_most_40 (names : list string)
    (data_x data_y : gmap nat (list F)) (stats : gmap nat F) :
  (forall i, (i < length names)%nat ->
     is_Some (data_x !! i) /\ is_Some (data_y !! i) /\ is_Some (stats !! i)) ->
  ((40 < length names)%nat ->
     plot_curve str_round names data_x data_y stats = Raise IndexError) /\
  ((length names <= 40)%nat ->
     exists drawn,
       plot_curve str_round names data_x data_y stats = Ok drawn /\
       length drawn = length names /\
       NoDup (map series_color drawn) /\
       forall i s, drawn !! i = Some s ->
         data_x !! i = Some (series_x s) /\ data_y !! i = Some (series_y s) /\
         color_list !! i = Some (series_color s)).
Proof.
  intros Hkeys. rewrite plot_curve_as_comprehension.
  assert (Hout : forall i, (i < length names)%nat ->
            ((i < 40)%nat -> returns (plotted str_round names data_x data_y stats i)) /\
            ((40 <= i)%nat ->
               plotted str_round names data_x data_y stats i = Raise IndexError)).
  { intros i Hi. destruct (Hkeys i Hi) as (Hx & Hy & Hst).
    now apply plotted_outcome. }
  split.
  - intros Hn. apply comprehension_raises_only.
    + intros i Hi. apply in_seq in Hi. destruct (Hout i ltac:(lia)) as [Hok Hbad].
      destruct (Nat.lt_ge_cases i 40); [left; now apply Hok | right; now apply Hbad].
    + exists 40%nat. split; [apply in_seq; lia|]. now apply (Hout 40%nat).
  - intros Hn.
    destruct (comprehension_all_return
                (plotted str_round names data_x data_y stats) (seq 0 (length names)))
      as [drawn Hdrawn].
    { intros i Hi. apply in_seq in Hi. apply (Hout i); lia. }
    exists drawn. split; [exact Hdrawn|].
    apply comprehension_inv in Hdrawn.
    assert (Hlen : length drawn = length names).
    { apply Forall2_length in Hdrawn. now rewrite length_seq in Hdrawn. }
    assert (Hitem : forall i s, drawn !! i = Some s ->
              plotted str_round names data_x data_y stats i = Ok s).
    { intros i s Hs. destruct (Forall2_lookup_r _ _ _ i s Hdrawn Hs) as (j & Hj & Hp).
      apply lookup_seq in Hj as [-> _]. exact Hp. }
    split; [exact Hlen|]. split.
    + assert (Hcol : map series_color drawn = take (length names) color_list).
      { apply list_eq. intros i. rewrite list_lookup_fmap.
        destruct (drawn !! i) as [s|] eqn:Hs.
        - apply lookup_lt_Some in Hs as Hi. rewrite Hlen in Hi.
          rewrite lookup_take_lt by exact Hi.
          apply Hitem, plotted_inv in Hs as (_ & _ & -> & _). reflexivity.
        - apply lookup_ge_None in Hs. rewrite Hlen in Hs.
          now rewrite lookup_take_ge. }
      rewrite Hcol. eapply sublist_NoDup; [apply color_list_NoDup | apply sublist_take].
    + intros i s Hs. apply Hitem, plotted_inv in Hs as (Hx & Hy & Hc & _). now split.
Qed.
End PlotFacts.

Section ChipEvaluateFacts.
Context {F : Type} `{Num F}.
Variable read_bed : string -> list GenomicRegion.
Variable sort : list GenomicRegion -> list GenomicRegion.
Variable intersect subtract : list GenomicRegion -> list GenomicRegion -> list GenomicRegion.
Variable sort_score : list GenomicRegion -> list GenomicRegion.
Variable updated_in_place :
  list GenomicRegion -> list GenomicRegion -> Z -> list GenomicRegion.
Variable str : F -> string.
Variable str_round : F -> string.

(** The loop round, the loop and the run with these collaborators. *)
#[local] Abbreviation round :=
  (evaluate_footprints read_bed sort intersect subtract sort_score updated_in_place).
#[local] Abbreviation loop :=
  (evaluate_all read_bed sort intersect subtract sort_score updated_in_place).
#[local] Abbreviation run :=
  (chip_evaluate read_bed sort intersect subtract sort_score updated_in_place
     str str_round).


Lemma evaluate_ranked_stores (d d' : dicts F) (i : nat) (ranked : list GenomicRegion) :
  evaluate_ranked d i ranked = Ok d' ->
  stored d' i /\
  (forall j, stored d j -> stored d' j) /\
  (forall j, is_Some (dict_roc_auc d' !! j) -> j = i \/ is_Some (dict_roc_auc d !! j)).
Proof.
  unfold evaluate_ranked.
  destruct (roc_curve ranked) as [[[[[f t] a] a1] a2]|e] eqn:Hroc; [|discriminate].
  unfold mbind at 1, result_bind at 1. cbv beta iota zeta.
  destruct (precision_recall_curve ranked) as [[[r p] c]|e] eqn:Hprc; [|discriminate].
  unfold mbind at 1, result_bind at 1. cbv beta iota. intros [= <-].
  assert (Hft : length f = length t).
  { apply roc_curve_inv in Hroc as (Hpts & _).
    destruct (roc_points_lengths ranked f t Hpts). congruence. }
  assert (Hrp : length r = length p).
  { destruct (precision_recall_curve_spec ranked) as (ps & rs & Hlp & Hlr & _ & Hspec).
    rewrite Hspec in Hprc. destruct (positives ranked =? 0)%Z; [discriminate|].
    cbv zeta in Hprc.
    assert (Er : r = map (fun e => fmul e (fdiv f1 (of_int (positives ranked)))) (f0 :: rs)
                     ++ [f1]) by congruence.
    assert (Ep : p = (f0 :: ps) ++ [f0]) by congruence.
    rewrite Er, Ep, !length_app, length_map. simpl. now rewrite Hlp, Hlr. }
  split; [|split].
  - unfold stored. cbn. rewrite !lookup_insert_eq.
    repeat split; eauto.
  - intros j (Hx & Hy & H1 & H2 & H3 & H4). unfold stored. cbn.
    destruct (decide (j = i)) as [->|Hne].
    + rewrite !lookup_insert_eq. repeat split; eauto.
    + rewrite !lookup_insert_ne by congruence. repeat split; assumption.
  - intros j. cbn. destruct (decide (j = i)) as [->|Hne]; [now left|].
    rewrite lookup_insert_ne by congruence. now right.
Qed.

(** One round of the loop: the type tag is read; a "SEG" or "SC" input
    stores its curves under key [i], any other tag stores nothing. *)
Lemma evaluate_footprints_round (self : Evaluation) (max_score : Z)
    (d d' : dicts F) (mpbs mpbs' : list GenomicRegion) (i : nat) :
  round self max_score (d, mpbs) i = Ok (d', mpbs') ->
  is_Some (footprint_file self !! i) /\
  exists type_i, footprint_type self !! i = Some type_i /\
    ((type_i = "SEG"%string \/ type_i = "SC"%string) /\
       stored d' i /\ (forall j, stored d j -> stored d' j) /\
       (forall j, is_Some (dict_roc_auc d' !! j) ->
          j = i \/ is_Some (dict_roc_auc d !! j)) \/
     type_i <> "SEG"%string /\ type_i <> "SC"%string /\ d' = d).
Proof.
  unfold evaluate_footprints.
  destruct (getitem (footprint_file self) (Z.of_nat i)) as [file_i|e] eqn:Hfile;
    [|discriminate].
  unfold mbind at 1, result_bind at 1. cbv beta iota zeta.
  destruct (getitem (footprint_type self) (Z.of_nat i)) as [type_i|e] eqn:Htype;
    [|discriminate].
  unfold mbind at 1, result_bind at 1. cbv beta iota.
  apply getitem_of_nat_inv in Hfile, Htype.
  intros Hrun. split; [eauto|]. exists type_i. split; [assumption|].
  destruct (String.eqb_spec type_i "SEG") as [Hseg|Hseg].
  - destruct (evaluate_ranked d i _) as [d1|e] eqn:Hev; [|discriminate].
    simpl in Hrun. injection Hrun as <- <-. left. split; [now left|].
    now apply evaluate_ranked_stores in Hev.
  - unfold mbind at 1, result_bind at 1 in Hrun. cbv beta iota in Hrun.
    destruct (String.eqb_spec type_i "SC") as [Hsc|Hsc].
    + destruct (evaluate_ranked d i _) as [d1|e] eqn:Hev; [|discriminate].
      simpl in Hrun. injection Hrun as <- <-. left. split; [now right|].
      now apply evaluate_ranked_stores in Hev.
    + injection Hrun as <- <-. right. repeat split; assumption.
Qed.

(** After the loop: a key is in the dicts only for an index below the
    number of files whose type is "SEG" or "SC", and then all curves of that
    key are there. *)
Lemma evaluate_all_keys (self : Evaluation) (d : dicts F) :
  loop self = Ok d ->
  (length (footprint_file self) <= length (footprint_type self))%nat /\
  forall j, is_Some (dict_roc_auc d !! j) ->
    stored d j /\ (j < length (footprint_file self))%nat /\
    exists type_j, footprint_type self !! j = Some type_j /\
                   (type_j = "SEG"%string \/ type_j = "SC"%string).
Proof.
  unfold evaluate_all. cbv zeta.
  set (mpbs0 := if existsb _ _ then _ else _).
  set (M := if existsb _ _ then _ else _).
  destruct (for_in _ _ _) as [[d0 mpbs]|e] eqn:Hloop; [|discriminate].
  unfold mbind, result_bind. intros [= <-]. split.
  - destruct (length (footprint_file self)) as [|k] eqn:Hk; [lia|].
    destruct (for_in_each_returns _ _ _ _ Hloop k) as ([a m] & [a' m'] & Hround).
    { apply in_seq. lia. }
    apply evaluate_footprints_round in Hround as (_ & t & Ht & _).
    apply lookup_lt_Some in Ht. lia.
  - refine (for_in_invariant
              (fun st : dicts F * list GenomicRegion =>
                 forall j, is_Some (dict_roc_auc st.1 !! j) ->
                   stored st.1 j /\ (j < length (footprint_file self))%nat /\
                   exists type_j, footprint_type self !! j = Some type_j /\
                                  (type_j = "SEG"%string \/ type_j = "SC"%string))
              _ _ _ (d0, mpbs) _ _ Hloop).
    + intros j [v Hv]. cbn in Hv. rewrite lookup_empty in Hv. discriminate.
    + intros [a m] i [a' m'] Hi Hinv Hround j Hj. cbn [fst] in *.
      apply in_seq in Hi.
      apply evaluate_footprints_round in Hround
        as (_ & t & Ht & [(Htag & Hst & Hkeep & Hkeys)|(_ & _ & ->)]);
        [|now apply Hinv].
      destruct (Hkeys j Hj) as [->|Hold].
      * split; [assumption|]. split; [lia|]. eauto.
      * destruct (Hinv j Hold) as (Hs & Hlt & Htj). split; [now apply Hkeep|]. now split.
Qed.

Lemma stats_lines_inv (self : Evaluation) (d : dicts F) (stats : list string) :
  stats_lines str self d = Ok stats ->
  length stats = S (length (footprint_name self)) /\
  forall i, (i < length (footprint_name self))%nat -> is_Some (dict_roc_auc d !! i).
Proof.
  unfold stats_lines. cbv zeta.
  destruct (comprehension _ _) as [rows|e] eqn:Hrows; [|discriminate].
  unfold mbind, result_bind. intros [= <-].
  apply comprehension_inv in Hrows. split.
  - cbn [length]. apply Forall2_length in Hrows. rewrite length_seq in Hrows. lia.
  - intros i Hi.
    destruct (Forall2_lookup_l _ _ _ i i Hrows (lookup_seq_lt _ _ _ Hi))
      as (row & _ & Hrow).
    cbv beta in Hrow. change (0 + i)%nat with i in Hrow.
    destruct (getitem (footprint_name self) (Z.of_nat i));
      unfold mbind at 1, result_bind at 1 in Hrow; cbv beta iota in Hrow;
      [|discriminate].
    unfold mbind, result_bind, dict_getitem in Hrow.
    destruct (dict_roc_auc d !! i); [eauto|]. cbv beta iota in Hrow. discriminate.
Qed.

Lemma chip_evaluate_inv (self : Evaluation) (files : list (written F)) :
  run self = Ok files ->
  exists d stats roc_figure prc_figure roc_file prc_file roc' prc',
    loop self = Ok d /\ stats_lines str self d = Ok stats /\
    (if print_roc_curve self
     then exists drawn,
            plot_curve str_round (footprint_name self)
                       (dict_fpr d) (dict_tpr d) (dict_roc_auc d) = Ok drawn /\
            roc_figure =
              [Figure (output_location self ++ tf_name self ++ "_" ++ "ROC" ++ ".png")%string
                      drawn]
     else roc_figure = []) /\
    (if print_pr_curve self
     then exists drawn,
            plot_curve str_round (footprint_name self)
                       (dict_recall d) (dict_precision d) (dict_prc_auc d) = Ok drawn /\
            prc_figure =
              [Figure (output_location self ++ tf_name self ++ "_" ++ "PRC" ++ ".png")%string
                      drawn]
     else prc_figure = []) /\
    output_points str (footprint_name self)
                  (dict_fpr d, dict_tpr d) (dict_recall d, dict_precision d) =
      Ok (roc_file, prc_file, roc', prc') /\
    files =
      [Text (output_location self ++ tf_name self ++ "_stats.txt")%string stats] ++
      roc_figure ++ prc_figure ++
      [Text (output_location self ++ tf_name self ++ "_roc.txt")%string roc_file;
       Text (output_location self ++ tf_name self ++ "_prc.txt")%string prc_file].
Proof.
  unfold chip_evaluate.
  destruct (loop self) as [d|e] eqn:Hloop; [|discriminate].
  unfold mbind at 1, result_bind at 1. cbv beta iota.
  destruct (stats_lines str self d) as [stats|e] eqn:Hstats; [|discriminate].
  unfold mbind at 1, result_bind at 1. cbv beta iota zeta.
  intros Hrun.
  assert (Hroc : exists roc_figure,
            (if print_roc_curve self
             then drawn ← plot_curve str_round (footprint_name self)
                            (dict_fpr d) (dict_tpr d) (dict_roc_auc d);
                  Ok [Figure (output_location self ++ tf_name self ++ "_" ++ "ROC" ++ ".png")%string
                             drawn]
             else Ok []) = Ok roc_figure).
  { destruct (if print_roc_curve self then _ else _) as [fig|e]; [eauto | discriminate]. }
  destruct Hroc as [roc_figure Hroc]. rewrite Hroc in Hrun.
  unfold mbind at 1, result_bind at 1 in Hrun. cbv beta iota in Hrun.
  assert (Hprc : exists prc_figure,
            (if print_pr_curve self
             then drawn ← plot_curve str_round (footprint_name self)
                            (dict_recall d) (dict_precision d) (dict_prc_auc d);
                  Ok [Figure (output_location self ++ tf_name self ++ "_" ++ "PRC" ++ ".png")%string
                             drawn]
             else Ok []) = Ok prc_figure).
  { destruct (if print_pr_curve self then _ else _) as [fig|e]; [eauto | discriminate]. }
  destruct Hprc as [prc_figure Hprc]. rewrite Hprc in Hrun.
  unfold mbind at 1, result_bind at 1 in Hrun. cbv beta iota in Hrun.
  destruct (output_points str (footprint_name self) _ _)
    as [[[[roc_file prc_file] roc'] prc']|e] eqn:Hout; [|discriminate].
  unfold mbind, result_bind in Hrun. cbv beta iota in Hrun. injection Hrun as <-.
  exists d, stats, roc_figure, prc_figure, roc_file, prc_file, roc', prc'.
  split; [reflexivity|]. split; [exact Hstats|].
  split; [|split; [|split; [exact Hout | reflexivity]]].
  - destruct (print_roc_curve self); [|congruence].
    unfold mbind, result_bind in Hroc.
    destruct (plot_curve _ _ (dict_fpr d) _ _) as [drawn|e]; cbv beta iota in Hroc;
      [|discriminate].
    exists drawn. split; [reflexivity | congruence].
  - destruct (print_pr_curve self); [|congruence].
    unfold mbind, result_bind in Hprc.
    destruct (plot_curve _ _ (dict_recall d) _ _) as [drawn|e]; cbv beta iota in Hprc;
      [|discriminate].
    exists drawn. split; [reflexivity | congruence].
Qed.

Lemma plot_curve_returns_inv (names : list string) (data_x data_y : gmap nat (list F))
    (stats : gmap nat F) (drawn : list (series F)) :
  plot_curve str_round names data_x data_y stats = Ok drawn ->
  (length names <= 40)%nat /\ length drawn = length names.
Proof.
  rewrite plot_curve_as_comprehension. intros Hrun.
  apply comprehension_inv in Hrun. split.
  - destruct (Nat.le_gt_cases (length names) 40) as [|Hgt]; [assumption|]. exfalso.
    destruct (Forall2_lookup_l _ _ _ 40%nat 40%nat Hrun (lookup_seq_lt _ _ _ Hgt))
      as (s & _ & Hs).
    apply plotted_inv in Hs as (_ & _ & Hc & _). discriminate.
  - apply Forall2_length in Hrun. now rewrite length_seq in Hrun.
Qed.

Lemma output_points_needs_a_name (names : list string) (roc prc : @store F)
    (out : list string * list string * @store F * @store F) :
  output_points str names roc prc = Ok out -> names <> [].
Proof. intros Hout ->. discriminate. Qed.

(** What a run that returns has been given: at least one footprint name, no
    more names than footprint files, no more files than type tags, the tag
    "SEG" or "SC" for every named input and, when a figure is drawn, at most
    40 names. *)
Theorem chip_evaluate_needs (self : Evaluation) (files : list (written F)) :
  run self = Ok files ->
  (1 <= length (footprint_name self) <= length (footprint_file self))%nat /\
  (length (footprint_file self) <= length (footprint_type self))%nat /\
  (forall i type_i, (i < length (footprint_name self))%nat ->
     footprint_type self !! i = Some type_i ->
     type_i = "SEG"%string \/ type_i = "SC"%string) /\
  (print_roc_curve self = true \/ print_pr_curve self = true ->
     (length (footprint_name self) <= 40)%nat).
Proof.
  intros Hrun.
  apply chip_evaluate_inv in Hrun
    as (d & stats & roc_fig & prc_fig & roc_file & prc_file & roc' & prc' &
        Hloop & Hstats & Hroc & Hprc & Hout & _).
  apply evaluate_all_keys in Hloop as [Htypes Hkeys].
  apply stats_lines_inv in Hstats as [_ Hnames].
  apply output_points_needs_a_name in Hout.
  assert (Hn : forall i, (i < length (footprint_name self))%nat ->
             (i < length (footprint_file self))%nat /\
             exists t, footprint_type self !! i = Some t /\
                       (t = "SEG"%string \/ t = "SC"%string)).
  { intros i Hi. destruct (Hkeys i (Hnames i Hi)) as (_ & Hlt & Ht). now split. }
  split; [|split; [exact Htypes|split]].
  - destruct (footprint_name self) as [|nm names] eqn:E; [contradiction|].
    cbn [length] in *. split; [lia|].
    destruct (Hn (length names) ltac:(lia)). lia.
  - intros i t Hi Ht. destruct (Hn i Hi) as (_ & t' & Ht' & Htag). congruence.
  - intros [Hp|Hp]; rewrite Hp in *.
    + destruct Hroc as (drawn & Hdrawn & _).
      now apply plot_curve_returns_inv in Hdrawn as [? _].
    + destruct Hprc as (drawn & Hdrawn & _).
      now apply plot_curve_returns_inv in Hdrawn as [? _].
Qed.

(** What a run that returns has written: the statistics file with a header
    and one line for each footprint name, then a figure with one curve for
    each name for each of the two print flags that is set, then the ROC table
    of at most 1001 lines and the PR table of at most 2001 lines, all under
    the output location. *)
Theorem chip_evaluate_writes (self : Evaluation) (files : list (written F)) :
  run self = Ok files ->
  exists stats roc_figure prc_figure roc_file prc_file,
    files =
      [Text (output_location self ++ tf_name self ++ "_stats.txt")%string stats] ++
      roc_figure ++ prc_figure ++
      [Text (output_location self ++ tf_name self ++ "_roc.txt")%string roc_file;
       Text (output_location self ++ tf_name self ++ "_prc.txt")%string prc_file] /\
    length stats = S (length (footprint_name self)) /\
    (if print_roc_curve self
     then exists drawn,
            roc_figure =
              [Figure (output_location self ++ tf_name self ++ "_ROC.png")%string drawn] /\
            length drawn = length (footprint_name self)
     else roc_figure = []) /\
    (if print_pr_curve self
     then exists drawn,
            prc_figure =
              [Figure (output_location self ++ tf_name self ++ "_PRC.png")%string drawn] /\
            length drawn = length (footprint_name self)
     else prc_figure = []) /\
    (length roc_file <= 1001)%nat /\ (length prc_file <= 2001)%nat.
Proof.
  intros Hrun.
  apply chip_evaluate_inv in Hrun
    as (d & stats & roc_fig & prc_fig & roc_file & prc_file & roc' & prc' &
        Hloop & Hstats & Hroc & Hprc & Hout & ->).
  apply evaluate_all_keys in Hloop as [_ Hkeys].
  apply stats_lines_inv in Hstats as [Hlen Hnames].
  pose proof (output_points_needs_a_name _ _ _ _ Hout) as Hne.
  exists stats, roc_fig, prc_fig, roc_file, prc_file.
  split; [reflexivity|]. split; [exact Hlen|]. split; [|split].
  - destruct (print_roc_curve self); [|assumption].
    destruct Hroc as (drawn & Hdrawn & ->). exists drawn. split; [reflexivity|].
    now apply plot_curve_returns_inv in Hdrawn as [_ ?].
  - destruct (print_pr_curve self); [|assumption].
    destruct Hprc as (drawn & Hdrawn & ->). exists drawn. split; [reflexivity|].
    now apply plot_curve_returns_inv in Hdrawn as [_ ?].
  - assert (Hst : forall i, (i < length (footprint_name self))%nat -> stored d i).
    { intros i Hi. now destruct (Hkeys i (Hnames i Hi)). }
    destruct (output_points_lines str (footprint_name self)
                (dict_fpr d, dict_tpr d) (dict_recall d, dict_precision d) Hne)
      as (roc_file' & prc_file' & prc'' & Hout' & Hex1 & _ & Hex2 & _).
    { intros i Hi. now destruct (Hst i Hi) as (Hft & _). }
    { intros i Hi. now destruct (Hst i Hi) as (_ & Hrp & _). }
    rewrite Hout in Hout'. injection Hout' as <- <- _ _.
    destruct Hex1 as (i1 & x1 & _ & _ & E1). destruct Hex2 as (i2 & x2 & _ & _ & E2).
    split; lia.
Qed.

Lemma stats_lines_KeyError (self : Evaluation) (d : dicts F) :
  (exists i, (i < length (footprint_name self))%nat /\ dict_roc_auc d !! i = None) ->
  stats_lines str self d = Raise KeyError.
Proof.
  intros (i & Hi & Hnone). unfold stats_lines. cbv zeta.
  rewrite (comprehension_raises_only _ _ KeyError); [reflexivity | |].
  - intros j Hj. apply in_seq in Hj.
    destruct (lookup_lt_is_Some_2 (footprint_name self) j) as [nm Hnm]; [lia|].
    rewrite (getitem_of_nat _ _ _ Hnm). unfold mbind, result_bind, dict_getitem.
    destruct (dict_roc_auc d !! j); [|now right].
    destruct (dict_roc_auc_1 d !! j); [|now right].
    destruct (dict_roc_auc_2 d !! j); [|now right].
    destruct (dict_prc_auc d !! j); [left; eexists; reflexivity | now right].
  - exists i. split; [apply in_seq; lia|].
    destruct (lookup_lt_is_Some_2 (footprint_name self) i) as [nm Hnm]; [lia|].
    rewrite (getitem_of_nat _ _ _ Hnm). unfold mbind, result_bind, dict_getitem.
    now rewrite Hnone.
Qed.

(** The loop skips an input whose type is neither "SEG" nor "SC" without
    notice, and it knows nothing of a name beyond the last file; when the
    loop has returned, either one makes the statistics loop raise
    [KeyError]. *)
Theorem unreported_input_raises_KeyError (self : Evaluation) (d : dicts F) :
  loop self = Ok d ->
  (exists i, (i < length (footprint_name self))%nat /\
     ((length (footprint_file self) <= i)%nat \/
      exists type_i, footprint_type self !! i = Some type_i /\
                     type_i <> "SEG"%string /\ type_i <> "SC"%string)) ->
  run self = Raise KeyError.
Proof.
  intros Hloop (i & Hi & Hbad). unfold chip_evaluate. rewrite Hloop.
  unfold mbind at 1, result_bind at 1. cbv beta iota.
  rewrite stats_lines_KeyError; [reflexivity|].
  exists i. split; [assumption|].
  apply evaluate_all_keys in Hloop as [_ Hkeys].
  destruct (dict_roc_auc d !! i) as [v|] eqn:Hv; [|reflexivity]. exfalso.
  destruct (Hkeys i ltac:(eauto)) as (_ & Hlt & t & Ht & Htag).
  destruct Hbad as [Hge|(t' & Ht' & Hseg & Hsc)]; [lia|].
  rewrite Ht in Ht'. injection Ht' as <-. destruct Htag; contradiction.
Qed.

Lemma roc_curve_returns_counts (regions : list GenomicRegion)
    (out : list F * list F * F * F * F) :
  roc_curve regions = Ok out ->
  (1 <= positives regions)%Z /\ (1 <= negatives regions)%Z.
Proof.
  destruct out as [[[[fpr tpr] a] a1] a2]. intros Hrun.
  apply roc_curve_inv in Hrun as (Hpts & _).
  destruct (roc_points_spec regions) as (sx & sy & _ & _ & _ & _ & Hspec).
  rewrite Hspec in Hpts.
  pose proof (positives_nonneg regions). pose proof (negatives_nonneg regions).
  destruct (Z.eqb_spec (negatives regions) 0); [discriminate|].
  destruct (Z.eqb_spec (positives regions) 0); [discriminate|]. lia.
Qed.

Hypothesis sort_spec : forall l, Permutation (sort l) l.
Hypothesis sort_score_spec : forall l, Permutation (sort_score l) l.

(** Every "SC" input is evaluated, named or not; so a run that returns had
    a positive-labeled and a negative-labeled region in every footprint file
    of type "SC": one file without either aborts the whole run. *)
Theorem successful_run_has_both_labels (self : Evaluation) (files : list (written F)) :
  run self = Ok files ->
  forall i file_i,
    footprint_file self !! i = Some file_i ->
    footprint_type self !! i = Some "SC"%string ->
    (1 <= positives (read_bed file_i))%Z /\ (1 <= negatives (read_bed file_i))%Z.
Proof.
  intros Hrun i file_i Hfile Htype.
  apply chip_evaluate_inv in Hrun as (d & _ & _ & _ & _ & _ & _ & _ & Hloop & _).
  unfold evaluate_all in Hloop. cbv zeta in Hloop.
  destruct (for_in _ _ _) as [[d0 mpbs]|e] eqn:Hfor; [|discriminate].
  destruct (for_in_each_returns _ _ _ _ Hfor i) as ([a m] & [a' m'] & Hround).
  { apply in_seq. apply lookup_lt_Some in Hfile. lia. }
  unfold evaluate_footprints in Hround.
  rewrite (getitem_of_nat _ _ _ Hfile), (getitem_of_nat _ _ _ Htype) in Hround.
  unfold mbind at 1 2, result_bind at 1 2 in Hround. cbv beta iota zeta in Hround.
  change (String.eqb "SC" "SEG") with false in Hround.
  change (String.eqb "SC" "SC") with true in Hround. cbv iota in Hround.
  unfold mbind at 1, result_bind at 1 in Hround. cbv beta iota in Hround.
  change (String.eqb "SC" "SC") with true in Hround. cbv iota in Hround.
  destruct (evaluate_ranked a i _) as [d1|e] eqn:Hev; [|discriminate].
  unfold evaluate_ranked in Hev.
  destruct (roc_curve (sort_score (sort (read_bed file_i)))) as [out|e] eqn:Hroc;
    [|discriminate].
  apply roc_curve_returns_counts in Hroc.
  destruct (positives_perm _ _ (sort_score_spec (sort (read_bed file_i)))) as [Ep En].
  destruct (positives_perm _ _ (sort_spec (read_bed file_i))) as [Ep' En'].
  lia.
Qed.
End ChipEvaluateFacts.

(** ** The constructor *)

Section InitFacts.
Local Open Scope string_scope.






End InitFacts.

(** ** The reporting code at sample inputs *)

Lemma example_run_returns : exists files, example_chip_evaluate example_evaluation = Ok files.
Proof. eexists. vm_compute. reflexivity. Qed.

Lemma write_table_grid_witness :
  let new_x := seven_point_curve.1 in
  let new_y := seven_point_curve.2 in
  let names := ["HINT"%string] in
  (names = [] ->
     write_table example_str names "_FPR" "_TPR" new_x new_y = Raise ValueError) /\
  (names <> [] ->
   exists rows,
     write_table example_str names "_FPR" "_TPR" new_x new_y =
       Ok ((join tab (flat_map (fun nm => [(nm ++ "_FPR")%string; (nm ++ "_TPR")%string])
                               names) ++ newline)%string
             :: map (fun row => (join tab row ++ newline)%string) rows) /\
     (exists i, (i < length names)%nat /\ length rows = length (curve new_x i)) /\
     (forall i, (i < length names)%nat -> (length (curve new_x i) <= length rows)%nat) /\
     (forall j row, rows !! j = Some row ->
        row = flat_map (fun i => [padded_cell example_str (curve new_x i) j;
                                  padded_cell example_str (curve new_y i) j])
                       (seq 0 (length names)))).
Proof.
  apply (write_table_grid example_str ["HINT"%string] "_FPR" "_TPR"
           seven_point_curve.1 seven_point_curve.2).
  intros i Hi. simpl in Hi. assert (i = 0%nat) as -> by lia.
  split; eexists; reflexivity.
Defined.

Lemma output_points_line_counts_witness :
  let names := ["HINT"%string] in
  let roc := seven_point_curve in
  let prc := three_point_curve in
  exists roc_file prc_file prc',
    output_points example_str names roc prc = Ok (roc_file, prc_file, roc, prc') /\
    (exists i x, (i < length names)%nat /\ roc.1 !! i = Some x /\
                 Z.of_nat (length roc_file) = (1 + Z.min (len x) 1000)%Z) /\
    (forall i x, (i < length names)%nat -> roc.1 !! i = Some x ->
       (1 + Z.min (len x) 1000 <= Z.of_nat (length roc_file))%Z) /\
    (exists i x, (i < length names)%nat /\ prc.1 !! i = Some x /\
                 Z.of_nat (length prc_file) = (1 + Z.min (len x) 2000)%Z) /\
    (forall i x, (i < length names)%nat -> prc.1 !! i = Some x ->
       (1 + Z.min (len x) 2000 <= Z.of_nat (length prc_file))%Z) /\
    (length roc_file <= 1001)%nat /\ (length prc_file <= 2001)%nat.
Proof.
  apply (output_points_line_counts example_str ["HINT"%string]
           seven_point_curve three_point_curve);
    [discriminate | apply seven_point_curve_present | apply three_point_curve_present].
Defined.

Lemma plot_curve_draws_at_most_40_witness :
  let names := ["HINT"%string] in
  let data_x := seven_point_curve.1 in
  let data_y := seven_point_curve.2 in
  let stats : gmap nat Q := {[ 0%nat := 1%Q ]} in
  ((40 < length names)%nat ->
     plot_curve example_str names data_x data_y stats = Raise IndexError) /\
  ((length names <= 40)%nat ->
     exists drawn,
       plot_curve example_str names data_x data_y stats = Ok drawn /\
       length drawn = length names /\
       NoDup (map series_color drawn) /\
       forall i s, drawn !! i = Some s ->
         data_x !! i = Some (series_x s) /\ data_y !! i = Some (series_y s) /\
         color_list !! i = Some (series_color s)).
Proof.
  apply (plot_curve_draws_at_most_40 example_str ["HINT"%string]
           seven_point_curve.1 seven_point_curve.2 {[ 0%nat := 1%Q ]}).
  intros i Hi. simpl in Hi. assert (i = 0%nat) as -> by lia.
  repeat split; eexists; reflexivity.
Defined.

Lemma chip_evaluate_needs_witness :
  exists files,
    example_chip_evaluate example_evaluation = Ok files /\
    (1 <= length (footprint_name example_evaluation)
       <= length (footprint_file example_evaluation))%nat /\
    (length (footprint_file example_evaluation)
       <= length (footprint_type example_evaluation))%nat /\
    (forall i type_i, (i < length (footprint_name example_evaluation))%nat ->
       footprint_type example_evaluation !! i = Some type_i ->
       type_i = "SEG"%string \/ type_i = "SC"%string) /\
    (print_roc_curve example_evaluation = true \/
     print_pr_curve example_evaluation = true ->
       (length (footprint_name example_evaluation) <= 40)%nat).
Proof.
  destruct example_run_returns as [files Hfiles]. exists files.
  split; [exact Hfiles|].
  exact (chip_evaluate_needs _ _ _ _ _ _ _ _ example_evaluation files Hfiles).
Defined.

Lemma chip_evaluate_writes_witness :
  let self := example_evaluation in
  exists files stats roc_figure prc_figure roc_file prc_file,
    example_chip_evaluate self = Ok files /\
    files =
      [Text (output_location self ++ tf_name self ++ "_stats.txt")%string stats] ++
      roc_figure ++ prc_figure ++
      [Text (output_location self ++ tf_name self ++ "_roc.txt")%string roc_file;
       Text (output_location self ++ tf_name self ++ "_prc.txt")%string prc_file] /\
    length stats = S (length (footprint_name self)) /\
    (if print_roc_curve self
     then exists drawn,
            roc_figure =
              [Figure (output_location self ++ tf_name self ++ "_ROC.png")%string drawn] /\
            length drawn = length (footprint_name self)
     else roc_figure = []) /\
    (if print_pr_curve self
     then exists drawn,
            prc_figure =
              [Figure (output_location self ++ tf_name self ++ "_PRC.png")%string drawn] /\
            length drawn = length (footprint_name self)
     else prc_figure = []) /\
    (length roc_file <= 1001)%nat /\ (length prc_file <= 2001)%nat.
Proof.
  cbv zeta. destruct example_run_returns as [files Hfiles].
  destruct (chip_evaluate_writes _ _ _ _ _ _ _ _ example_evaluation files Hfiles)
    as (stats & roc_figure & prc_figure & roc_file & prc_file & Hw).
  exists files, stats, roc_figure, prc_figure, roc_file, prc_file.
  split; [exact Hfiles | exact Hw].
Defined.

Lemma unreported_input_raises_KeyError_witness :
  example_chip_evaluate mistyped_evaluation = Raise KeyError.
Proof.
  apply (unreported_input_raises_KeyError _ _ _ _ _ _ _ _ mistyped_evaluation no_curves).
  - reflexivity.
  - exists 0%nat. split; [simpl; lia|]. right. exists "sc"%string.
    split; [reflexivity|]. split; discriminate.
Defined.

Lemma successful_run_has_both_labels_witness :
  exists files,
    example_chip_evaluate example_evaluation = Ok files /\
    forall i file_i,
      footprint_file example_evaluation !! i = Some file_i ->
      footprint_type example_evaluation !! i = Some "SC"%string ->
      (1 <= positives (example_read_bed file_i))%Z /\
      (1 <= negatives (example_read_bed file_i))%Z.
Proof.
  destruct example_run_returns as [files Hfiles]. exists files.
  split; [exact Hfiles|].
  apply (successful_run_has_both_labels example_read_bed (fun regions => regions)
           intersect_model subtract_model sort_score_model
           (fun mpbs_regions _ _ => mpbs_regions) example_str example_str
           ltac:(reflexivity) sort_score_model_perm example_evaluation files Hfiles).
Defined.

Section InitExample.
Local Open Scope string_scope.

End InitExample.

(** ** Runs that return *)

Section WellFormedRuns.
Variable read_bed : string -> list GenomicRegion.
Variable sort : list GenomicRegion -> list GenomicRegion.
Variable intersect subtract : list GenomicRegion -> list GenomicRegion -> list GenomicRegion.
Variable sort_score : list GenomicRegion -> list GenomicRegion.
Variable updated_in_place :
  list GenomicRegion -> list GenomicRegion -> Z -> list GenomicRegion.
Variable str : Q -> string.
Variable str_round : Q -> string.
Hypothesis sort_spec : forall l, Permutation (sort l) l.
Hypothesis sort_score_spec : forall l, Permutation (sort_score l) l.

(** The loop round, the loop and the run with these collaborators, in exact
    arithmetic. *)
#[local] Abbreviation round :=
  (evaluate_footprints (F:=Q) read_bed sort intersect subtract sort_score updated_in_place).
#[local] Abbreviation loop :=
  (evaluate_all (F:=Q) read_bed sort intersect subtract sort_score updated_in_place).
#[local] Abbreviation run :=
  (chip_evaluate (F:=Q) read_bed sort intersect subtract sort_score updated_in_place
     str str_round).

(** With the collaborators that return their argument, the "SEG" branch
    hands the fused list of the score fusion to the curve builders. *)
Lemma evaluate_footprints_fuses (self : Evaluation) (d : dicts Q)
    (mpbs : list GenomicRegion) (i : nat) (file_i : string) :
  footprint_file self !! i = Some file_i ->
  footprint_type self !! i = Some "SEG"%string ->
  (forall footprints M, updated_in_place mpbs footprints M = mpbs) ->
  round self (max_score_plus_one mpbs) (d, mpbs) i =
  (d ← evaluate_ranked d i (fuse intersect subtract sort_score mpbs (sort (read_bed file_i)));
   Ok (d, mpbs)).
Proof.
  intros Hfile Htype Hcopy. unfold evaluate_footprints.
  rewrite (getitem_of_nat _ _ _ Hfile), (getitem_of_nat _ _ _ Htype).
  unfold mbind at 1 2, result_bind at 1 2. cbv beta iota zeta.
  change (String.eqb "SEG" "SEG") with true. cbv iota. now rewrite Hcopy.
Qed.

Lemma evaluate_ranked_returns (d : dicts Q) (i : nat) (ranked : list GenomicRegion) :
  (1 <= positives ranked)%Z -> (100 <= negatives ranked)%Z ->
  exists d', evaluate_ranked d i ranked = Ok d'.
Proof.
  intros Hp Hn. unfold evaluate_ranked.
  destruct (proj1 (roc_curve_outcome ranked) (conj Hp Hn)) as [[[[[f t] a] a1] a2] ->].
  unfold mbind at 1, result_bind at 1. cbv beta iota zeta.
  destruct (precision_recall_curve_spec (F:=Q) ranked) as (ps & rs & _ & _ & _ & ->).
  destruct (Z.eqb_spec (positives ranked) 0); [lia|]. eexists. reflexivity.
Qed.

(** A round on a footprint file of type "SC" with a positive-labeled and
    100 negative-labeled regions returns. *)
Lemma evaluate_footprints_SC_returns (self : Evaluation) (max_score : Z)
    (d : dicts Q) (mpbs : list GenomicRegion) (i : nat) (file_i : string) :
  footprint_file self !! i = Some file_i ->
  footprint_type self !! i = Some "SC"%string ->
  (1 <= positives (read_bed file_i))%Z -> (100 <= negatives (read_bed file_i))%Z ->
  exists d', round self max_score (d, mpbs) i = Ok (d', mpbs) /\
             stored d' i /\ (forall j, stored d j -> stored d' j).
Proof.
  intros Hfile Htype Hp Hn.
  destruct (positives_perm _ _ (sort_score_spec (sort (read_bed file_i)))) as [Ep En].
  destruct (positives_perm _ _ (sort_spec (read_bed file_i))) as [Ep' En'].
  destruct (evaluate_ranked_returns d i (sort_score (sort (read_bed file_i))))
    as [d' Hd']; [lia | lia |].
  exists d'.
  assert (Hround : round self max_score (d, mpbs) i = Ok (d', mpbs)).
  { unfold evaluate_footprints.
    rewrite (getitem_of_nat _ _ _ Hfile), (getitem_of_nat _ _ _ Htype).
    unfold mbind at 1 2, result_bind at 1 2. cbv beta iota zeta.
    change (String.eqb "SC" "SEG") with false. cbv iota.
    unfold mbind at 1, result_bind at 1. cbv beta iota.
    change (String.eqb "SC" "SC") with true. cbv iota. now rewrite Hd'. }
  split; [exact Hround|].
  apply evaluate_ranked_stores in Hd' as (Hst & Hkeep & _). now split.
Qed.

Lemma evaluate_all_SC_loop (self : Evaluation) (max_score : Z) (l : list nat)
    (d : dicts Q) (mpbs : list GenomicRegion) :
  (forall i, In i l -> exists file_i,
     footprint_file self !! i = Some file_i /\
     footprint_type self !! i = Some "SC"%string /\
     (1 <= positives (read_bed file_i))%Z /\ (100 <= negatives (read_bed file_i))%Z) ->
  exists d', for_in (round self max_score) l (d, mpbs) = Ok (d', mpbs) /\
             (forall j, stored d j -> stored d' j) /\
             (forall i, In i l -> stored d' i).
Proof.
  revert d. induction l as [|i l IH]; intros d Hall.
  - exists d. split; [reflexivity|]. split; [auto | intros i []].
  - destruct (Hall i (or_introl eq_refl)) as (file_i & Hfile & Htype & Hp & Hn).
    destruct (evaluate_footprints_SC_returns self max_score d mpbs i file_i
                Hfile Htype Hp Hn) as (d1 & Hround & Hst & Hkeep).
    destruct (IH d1) as (d' & Hloop & Hkeep' & Hall').
    { intros j Hj. apply Hall. now right. }
    exists d'. cbn [for_in]. rewrite Hround.
    split; [exact Hloop|]. split; [auto|].
    intros j [<-|Hj]; auto.
Qed.

(** In exact arithmetic a run over footprint files that are all of type
    "SC" returns when the lists are well formed (one type for each file, a
    file for each name, at least one name and at most 40) and every file
    holds a positive-labeled region and 100 negative-labeled ones. *)
Theorem chip_evaluate_returns_on_SC_files (self : Evaluation) :
  length (footprint_type self) = length (footprint_file self) ->
  (1 <= length (footprint_name self) <= length (footprint_file self))%nat ->
  (length (footprint_name self) <= 40)%nat ->
  Forall (fun type_i => type_i = "SC"%string) (footprint_type self) ->
  Forall (fun file_i => (1 <= positives (read_bed file_i))%Z /\
                        (100 <= negatives (read_bed file_i))%Z) (footprint_file self) ->
  returns (run self).
Proof.
  intros Hlen Hnames H40 Htypes Hfiles.
  rewrite List.Forall_forall in Htypes. rewrite List.Forall_forall in Hfiles.
  set (n := length (footprint_name self)) in *.
  assert (Hseg : existsb (String.eqb "SEG") (footprint_type self) = false).
  { destruct (existsb _ _) eqn:E; [|reflexivity].
    apply existsb_exists in E as (t & Ht & Heq).
    rewrite (Htypes t Ht) in Heq. discriminate. }
  destruct (evaluate_all_SC_loop self 0 (seq 0 (length (footprint_file self)))
              no_curves [])
    as (d & Hloop & _ & Hstored).
  { intros i Hi. apply in_seq in Hi.
    destruct (lookup_lt_is_Some_2 (footprint_file self) i) as [file_i Hf]; [lia|].
    destruct (lookup_lt_is_Some_2 (footprint_type self) i) as [type_i Ht]; [lia|].
    exists file_i. split; [assumption|].
    assert (In type_i (footprint_type self)) as Hin
      by (eapply list_elem_of_In, list_elem_of_lookup_2, Ht).
    rewrite (Htypes type_i Hin) in Ht.
    split; [assumption|]. apply Hfiles.
    eapply list_elem_of_In, list_elem_of_lookup_2, Hf. }
  assert (Hall : forall i, (i < n)%nat -> stored d i).
  { intros i Hi. apply Hstored. apply in_seq. lia. }
  assert (Hd : loop self = Ok d).
  { unfold evaluate_all. cbv zeta. rewrite Hseg, Hloop. reflexivity. }
  assert (Hstats : returns (stats_lines str self d)).
  { unfold stats_lines. cbv zeta.
    destruct (comprehension_all_return
                (fun i =>
                   name_i ← getitem (footprint_name self) (Z.of_nat i);
                   roc_auc_i ← dict_getitem (dict_roc_auc d) i;
                   roc_auc_1_i ← dict_getitem (dict_roc_auc_1 d) i;
                   roc_auc_2_i ← dict_getitem (dict_roc_auc_2 d) i;
                   prc_auc_i ← dict_getitem (dict_prc_auc d) i;
                   Ok (name_i ++ tab ++ str roc_auc_i ++ tab ++ str roc_auc_1_i ++ tab
                         ++ str roc_auc_2_i ++ tab ++ str prc_auc_i ++ newline)%string)
                (seq 0 n)) as [rows Hrows].
    { intros i Hi. apply in_seq in Hi.
      destruct (lookup_lt_is_Some_2 (footprint_name self) i) as [nm Hnm]; [lia|].
      destruct (Hall i ltac:(lia)) as (_ & _ & [a Ha] & [a1 Ha1] & [a2 Ha2] & [c Hc]).
      rewrite (getitem_of_nat _ _ _ Hnm). unfold mbind, result_bind, dict_getitem.
      rewrite Ha, Ha1, Ha2, Hc. eexists. reflexivity. }
    fold n. rewrite Hrows. eexists. reflexivity. }
  destruct Hstats as [stats Hstats].
  assert (Hplot : forall data_x data_y stats0,
            (forall i, (i < n)%nat ->
               is_Some (data_x !! i) /\ is_Some (data_y !! i) /\ is_Some (stats0 !! i)) ->
            returns (plot_curve str_round (footprint_name self) data_x data_y stats0)).
  { intros data_x data_y stats0 Hkeys. rewrite plot_curve_as_comprehension.
    apply comprehension_all_return. intros i Hi. apply in_seq in Hi.
    destruct (Hkeys i ltac:(lia)) as (Hx & Hy & Hs).
    apply (plotted_outcome str_round (footprint_name self) data_x data_y stats0 i);
      try assumption; lia. }
  destruct (Hplot (dict_fpr d) (dict_tpr d) (dict_roc_auc d)) as [roc_drawn Hroc].
  { intros i Hi. destruct (Hall i Hi) as ((x & y & -> & -> & _) & _ & Ha & _).
    repeat split; eauto. }
  destruct (Hplot (dict_recall d) (dict_precision d) (dict_prc_auc d)) as [prc_drawn Hprc].
  { intros i Hi. destruct (Hall i Hi) as (_ & (x & y & -> & -> & _) & _ & _ & _ & Hc).
    repeat split; eauto. }
  destruct (output_points_lines str (footprint_name self)
              (dict_fpr d, dict_tpr d) (dict_recall d, dict_precision d))
    as (roc_file & prc_file & prc' & Hout & _).
  { intros E. fold n in Hnames. unfold n in Hnames. rewrite E in Hnames. simpl in Hnames. lia. }
  { intros i Hi. now destruct (Hall i Hi) as (Hft & _). }
  { intros i Hi. now destruct (Hall i Hi) as (_ & Hrp & _). }
  unfold chip_evaluate. rewrite Hd.
  unfold mbind at 1, result_bind at 1. cbv beta iota.
  rewrite Hstats. unfold mbind at 1, result_bind at 1. cbv beta iota zeta.
  rewrite Hroc, Hprc, Hout.
  destruct (print_roc_curve self), (print_pr_curve self); eexists; reflexivity.
Qed.
End WellFormedRuns.

Lemma chip_evaluate_returns_on_SC_files_witness :
  returns (example_chip_evaluate example_evaluation).
Proof.
  apply (chip_evaluate_returns_on_SC_files example_read_bed (fun regions => regions)
           intersect_model subtract_model sort_score_model
           (fun mpbs_regions _ _ => mpbs_regions) example_str example_str
           ltac:(reflexivity) sort_score_model_perm example_evaluation).
  - reflexivity.
  - simpl. lia.
  - simpl. lia.
  - repeat constructor.
  - repeat constructor; apply Z.leb_le; reflexivity.
Defined.

(** ** Binary64: the quotient of two counts *)

Section Binary64Quotient.
Local Open Scope Z_scope.

#[local] Abbreviation fexp64 := (SpecFloat.fexp 53 1024).

Lemma fexp64_eq (x : Z) : fexp64 x = Z.max (x - 53) (-1074).
Proof. reflexivity. Qed.

Lemma digits2_pos_size (p : positive) : SpecFloat.digits2_pos p = Pos.size p.
Proof. induction p as [p IH|p IH|]; simpl; congruence. Qed.

Lemma digits2_pos_bounds (p : positive) :
  2 ^ (Zpos (SpecFloat.digits2_pos p) - 1) <= Zpos p < 2 ^ Zpos (SpecFloat.digits2_pos p).
Proof.
  rewrite digits2_pos_size.
  pose proof (Pos.size_gt p) as Hgt. pose proof (Pos.size_le p) as Hle.
  apply Pos2Z.pos_lt_pos in Hgt. apply Pos2Z.pos_le_pos in Hle.
  rewrite Pos2Z.inj_pow in Hgt, Hle.
  split; [|exact Hgt].
  replace (Zpos (Pos.size p)) with (Zpos (Pos.size p) - 1 + 1) in Hle by lia.
  rewrite Z.pow_add_r in Hle by lia. change (2 ^ 1) with 2 in Hle. lia.
Qed.

Lemma Zdigits2_le (m k : Z) : 0 <= m <= 2 ^ k -> 0 <= k -> SpecFloat.Zdigits2 m <= k + 1.
Proof.
  intros [Hm Hk] Hk0. destruct m as [|p|p]; simpl; [lia| |lia].
  destruct (digits2_pos_bounds p) as [Hlo _].
  destruct (Z.le_gt_cases (Zpos (SpecFloat.digits2_pos p)) (k + 1)) as [|Hgt]; [assumption|].
  exfalso.
  assert (Hpow : 2 ^ (k + 1) <= 2 ^ (Zpos (SpecFloat.digits2_pos p) - 1))
    by (apply Z.pow_le_mono_r; lia).
  rewrite Z.pow_add_r in Hpow by lia. lia.
Qed.

Lemma shr_1_below_one (mrs : SpecFloat.shr_record) (e : Z) :
  e < 0 -> below_one mrs e -> below_one (SpecFloat.shr_1 mrs) (e + 1).
Proof.
  intros He (H0 & Hle & Hlt).
  assert (Hpow : 2 ^ (- e) = 2 * 2 ^ (- (e + 1))).
  { replace (- e) with (1 + - (e + 1)) by lia. now rewrite Z.pow_add_r by lia. }
  assert (Hpos : 0 < 2 ^ (- (e + 1))) by (apply Z.pow_pos_nonneg; lia).
  destruct mrs as [m r s]. cbn [SpecFloat.shr_m SpecFloat.shr_r SpecFloat.shr_s] in *.
  rewrite Hpow in *. unfold below_one.
  destruct m as [|p|p]; [|destruct p as [p|p|]|lia];
    cbn [SpecFloat.shr_1 SpecFloat.shr_m SpecFloat.shr_r SpecFloat.shr_s];
    (split; [lia|]; split; [lia|]; intros Hrs).
  - lia.
  - lia.
  - cbn [orb] in Hrs. specialize (Hlt Hrs). lia.
  - lia.
Qed.

Lemma iter_pos_below_one (p : positive) :
  forall (mrs : SpecFloat.shr_record) (e : Z),
    e + Zpos p <= 0 -> below_one mrs e ->
    below_one (SpecFloat.iter_pos SpecFloat.shr_1 p mrs) (e + Zpos p).
Proof.
  induction p as [p IH|p IH|]; intros mrs e He Hinv; cbn [SpecFloat.iter_pos].
  - replace (e + Zpos p~1) with (e + 1 + Zpos p + Zpos p) by lia.
    apply IH; [lia|]. apply IH; [lia|]. apply shr_1_below_one; [lia | assumption].
  - replace (e + Zpos p~0) with (e + Zpos p + Zpos p) by lia.
    apply IH; [lia|]. apply IH; [lia | assumption].
  - apply shr_1_below_one; [lia | assumption].
Qed.

Lemma shr_m_of_loc (m : Z) (l : SpecFloat.location) :
  SpecFloat.shr_m (SpecFloat.shr_record_of_loc m l) = m.
Proof. destruct l as [|[]]; reflexivity. Qed.

Lemma shr_fexp_below_one (m e : Z) (l : SpecFloat.location) :
  e <= -52 -> below_one (SpecFloat.shr_record_of_loc m l) e ->
  below_one (SpecFloat.shr_fexp 53 1024 m e l).1 (SpecFloat.shr_fexp 53 1024 m e l).2 /\
  (SpecFloat.shr_fexp 53 1024 m e l).2 <= -52.
Proof.
  intros He Hinv. unfold SpecFloat.shr_fexp, SpecFloat.shr.
  destruct (fexp64 (SpecFloat.Zdigits2 m + e) - e) as [|p|p] eqn:Hn;
    cbn [fst snd]; try (split; assumption).
  assert (Hd : SpecFloat.Zdigits2 m <= - e + 1).
  { destruct Hinv as (H0 & Hle & _). rewrite shr_m_of_loc in H0, Hle.
    apply Zdigits2_le; lia. }
  rewrite fexp64_eq in Hn.
  assert (He' : e + Zpos p <= -52) by lia.
  split; [|exact He']. apply iter_pos_below_one; [lia | assumption].
Qed.

Lemma round_nearest_even_below_one (mrs : SpecFloat.shr_record) (e : Z) :
  below_one mrs e ->
  below_one
    (SpecFloat.shr_record_of_loc
       (SpecFloat.round_nearest_even (SpecFloat.shr_m mrs) (SpecFloat.loc_of_shr_record mrs))
       SpecFloat.loc_Exact) e.
Proof.
  intros (H0 & Hle & Hlt). destruct mrs as [m r s].
  cbn [SpecFloat.shr_m SpecFloat.shr_r SpecFloat.shr_s] in *.
  unfold below_one. cbn [SpecFloat.shr_record_of_loc SpecFloat.shr_m SpecFloat.shr_r
                         SpecFloat.shr_s orb].
  destruct r, s; cbn [SpecFloat.loc_of_shr_record SpecFloat.round_nearest_even];
    try destruct (Z.even m);
    try specialize (Hlt eq_refl); (split; [lia|]; split; [lia|]; discriminate).
Qed.

Lemma SFleb_same_exponent (p q : positive) (e : Z) :
  (p <= q)%positive ->
  SpecFloat.SFleb (SpecFloat.S754_finite false p e) (SpecFloat.S754_finite false q e) = true.
Proof.
  intros Hpq. unfold SpecFloat.SFleb, SpecFloat.SFcompare. rewrite Z.compare_refl.
  fold (Pos.compare p q). now destruct (Pos.compare_spec p q); try lia.
Qed.

Lemma binary_round_aux_in_unit_interval (m e : Z) (l : SpecFloat.location) :
  e <= -52 -> below_one (SpecFloat.shr_record_of_loc m l) e ->
  SpecFloat.SFleb (SpecFloat.S754_zero false)
                  (SpecFloat.binary_round_aux 53 1024 false m e l) = true /\
  SpecFloat.SFleb (SpecFloat.binary_round_aux 53 1024 false m e l) SF_one = true.
Proof.
  intros He Hinv. unfold SpecFloat.binary_round_aux.
  destruct (shr_fexp_below_one m e l He Hinv) as [Hinv1 He1].
  destruct (SpecFloat.shr_fexp 53 1024 m e l) as [mrs1 e1]. cbn [fst snd] in *.
  pose proof (round_nearest_even_below_one mrs1 e1 Hinv1) as Hinv2.
  set (m2 := SpecFloat.round_nearest_even (SpecFloat.shr_m mrs1)
               (SpecFloat.loc_of_shr_record mrs1)) in *.
  destruct (shr_fexp_below_one m2 e1 SpecFloat.loc_Exact He1 Hinv2) as [Hinv3 He3].
  destruct (SpecFloat.shr_fexp 53 1024 m2 e1 SpecFloat.loc_Exact) as [mrs3 e3].
  cbn [fst snd] in *. destruct Hinv3 as (H0 & Hle & _).
  destruct (SpecFloat.shr_m mrs3) as [|p|p]; [split; reflexivity | | lia].
  destruct (Z.leb_spec e3 (1024 - 53)); [|lia].
  split; [reflexivity|].
  destruct (Z.compare_spec e3 (-52)) as [Heq|Hlt|Hgt]; [| |lia].
  - subst e3. apply SFleb_same_exponent.
    intros Hgt. apply Hle. cbn [Z.compare]. exact Hgt.
  - unfold SF_one, SpecFloat.SFleb, SpecFloat.SFcompare.
    now rewrite (proj2 (Z.compare_lt_iff e3 (-52)) Hlt).
Qed.

Lemma new_location_exact (nb_steps k : Z) :
  k <> 0 \/ SpecFloat.new_location nb_steps k = SpecFloat.loc_Exact.
Proof.
  unfold SpecFloat.new_location, SpecFloat.new_location_even, SpecFloat.new_location_odd.
  destruct (Z.even nb_steps); (destruct (Z.eqb_spec k 0); [now right | now left]).
Qed.

(** The division of two normal mantissas whose quotient is at most one. *)
Lemma SFdiv_core_below_one (m1 m2 : positive) (e1 e2 : Z) :
  Zpos (SpecFloat.digits2_pos m1) = 53 -> Zpos (SpecFloat.digits2_pos m2) = 53 ->
  -52 <= e1 -> e1 <= e2 -> e2 <= 0 ->
  Zpos m1 <= Zpos m2 * 2 ^ (e2 - e1) ->
  let '(q, e', l) := SpecFloat.SFdiv_core_binary 53 1024 (Zpos m1) e1 (Zpos m2) e2 in
  e' <= -52 /\ below_one (SpecFloat.shr_record_of_loc q l) e'.
Proof.
  intros Hd1 Hd2 He1 He12 He2 Hle. unfold SpecFloat.SFdiv_core_binary.
  cbn [SpecFloat.Zdigits2]. rewrite Hd1, Hd2, fexp64_eq.
  assert (He' : Z.min (Z.max (53 + e1 - (53 + e2) - 53) (-1074)) (e1 - e2) = e1 - e2 - 53)
    by lia.
  rewrite He'. replace (e1 - e2 - (e1 - e2 - 53)) with 53 by lia.
  cbv beta iota zeta. rewrite Z.shiftl_mul_pow2 by lia.
  pose proof (Z_div_mod (Zpos m1 * 2 ^ 53) (Zpos m2) eq_refl) as Hdiv.
  destruct (Z.div_eucl (Zpos m1 * 2 ^ 53) (Zpos m2)) as [q r].
  destruct Hdiv as [Hqr Hr].
  split; [lia|].
  assert (Hpow : 2 ^ (- (e1 - e2 - 53)) = 2 ^ (e2 - e1) * 2 ^ 53).
  { replace (- (e1 - e2 - 53)) with (e2 - e1 + 53) by lia. apply Z.pow_add_r; lia. }
  assert (Hp53 : 0 < 2 ^ 53) by reflexivity.
  assert (Hbound : Zpos m2 * q + r <= Zpos m2 * 2 ^ (- (e1 - e2 - 53))).
  { rewrite <- Hqr, Hpow. nia. }
  unfold below_one. rewrite shr_m_of_loc.
  assert (Hq0 : 0 <= q) by nia.
  split; [exact Hq0|]. split; [nia|].
  destruct (new_location_exact (Zpos m2) r) as [Hr0 | ->]; [intros _; nia|].
  discriminate.
Qed.

Lemma binary_round_aux_canonical (sx : bool) (m : positive) (e : Z) :
  Zpos (SpecFloat.digits2_pos m) = 53 -> -1074 <= e <= 971 ->
  SpecFloat.binary_round_aux 53 1024 sx (Zpos m) e SpecFloat.loc_Exact =
  SpecFloat.S754_finite sx m e.
Proof.
  intros Hd He. unfold SpecFloat.binary_round_aux.
  assert (Hshr : forall l, SpecFloat.shr_fexp 53 1024 (Zpos m) e l =
                           (SpecFloat.shr_record_of_loc (Zpos m) l, e)).
  { intros l. unfold SpecFloat.shr_fexp. cbn [SpecFloat.Zdigits2].
    rewrite Hd, fexp64_eq. replace (Z.max (53 + e - 53) (-1074) - e) with 0 by lia.
    reflexivity. }
  rewrite Hshr. cbn [SpecFloat.shr_record_of_loc SpecFloat.shr_m
                     SpecFloat.loc_of_shr_record SpecFloat.round_nearest_even].
  rewrite Hshr. cbn [SpecFloat.shr_record_of_loc SpecFloat.shr_m].
  destruct (Z.leb_spec e (1024 - 53)); [reflexivity | lia].
Qed.

Lemma digits2_pos_iter_xO (p n : positive) :
  Zpos (SpecFloat.digits2_pos (Pos.iter xO p n)) = Zpos (SpecFloat.digits2_pos p) + Zpos n /\
  Zpos (Pos.iter xO p n) = Zpos p * 2 ^ Zpos n.
Proof.
  induction n as [|n IH] using Pos.peano_ind.
  - cbn [Pos.iter SpecFloat.digits2_pos]. rewrite Pos2Z.inj_succ, Pos2Z.inj_xO. lia.
  - rewrite Pos.iter_succ. cbn [SpecFloat.digits2_pos].
    rewrite Pos2Z.inj_succ, Pos2Z.inj_xO. destruct IH as [-> ->].
    rewrite Pos2Z.inj_succ, Z.pow_succ_r by lia. lia.
Qed.

(** A count below [2^53] is a binary64 value: normalizing it only aligns the
    mantissa to 53 digits. *)
Lemma binary_normalize_count (p : positive) :
  Zpos p < 2 ^ 53 ->
  exists (m : positive) (e : Z),
    SpecFloat.binary_normalize 53 1024 (Zpos p) 0 false = SpecFloat.S754_finite false m e /\
    Zpos (SpecFloat.digits2_pos m) = 53 /\
    e = Zpos (SpecFloat.digits2_pos p) - 53 /\
    Zpos m = Zpos p * 2 ^ (- e).
Proof.
  intros Hp. cbn [SpecFloat.binary_normalize]. unfold SpecFloat.binary_round.
  rewrite fexp64_eq.
  assert (Hd : Zpos (SpecFloat.digits2_pos p) <= 53).
  { destruct (Z.le_gt_cases (Zpos (SpecFloat.digits2_pos p)) 53) as [|Hgt]; [assumption|].
    destruct (digits2_pos_bounds p) as [Hlo _].
    assert (2 ^ 53 <= 2 ^ (Zpos (SpecFloat.digits2_pos p) - 1))
      by (apply Z.pow_le_mono_r; lia). lia. }
  replace (Z.max (Zpos (SpecFloat.digits2_pos p) + 0 - 53) (-1074))
    with (Zpos (SpecFloat.digits2_pos p) - 53) by lia.
  unfold SpecFloat.shl_align.
  destruct (Zpos (SpecFloat.digits2_pos p) - 53 - 0) as [|d|d] eqn:Hs; [|lia|].
  - exists p, 0. rewrite binary_round_aux_canonical by lia.
    repeat split; lia.
  - destruct (digits2_pos_iter_xO p d) as [Hdig Hval].
    exists (Pos.iter xO p d), (Zpos (SpecFloat.digits2_pos p) - 53).
    rewrite binary_round_aux_canonical by lia.
    repeat split; try lia.
    replace (- (Zpos (SpecFloat.digits2_pos p) - 53)) with (Zpos d) by lia. exact Hval.
Qed.

Lemma Prim2SF_float_of_int (z : Z) :
  0 <= z < 2 ^ 53 ->
  FloatOps.Prim2SF (float_of_int z) = SpecFloat.binary_normalize 53 1024 z 0 false.
Proof.
  intros Hz. unfold float_of_int. destruct (Z.ltb_spec z 0); [lia|].
  rewrite FloatAxioms.of_uint63_spec, Uint63.of_Z_spec.
  rewrite Z.mod_small; [reflexivity|].
  split; [lia|]. eapply Z.lt_trans; [apply Hz|]. reflexivity.
Qed.

(** Line 232 in binary64: the quotient of two counts [k <= n] lies in
    [[0.0, 1.0]]. *)
Lemma binary64_count_quotient (k n : Z) :
  0 <= k <= n -> 0 < n < 2 ^ 53 ->
  PrimFloat.leb 0 (PrimFloat.div (float_of_int k) (float_of_int n)) = true /\
  PrimFloat.leb (PrimFloat.div (float_of_int k) (float_of_int n)) 1 = true.
Proof.
  intros Hk Hn. rewrite !FloatAxioms.leb_spec, FloatAxioms.div_spec.
  rewrite !Prim2SF_float_of_int by lia.
  change (FloatOps.Prim2SF 0) with (SpecFloat.S754_zero false).
  change (FloatOps.Prim2SF 1) with SF_one.
  destruct n as [|pn|pn]; try lia.
  destruct (binary_normalize_count pn ltac:(lia)) as (m2 & e2 & -> & Hd2 & He2 & Hm2).
  destruct k as [|pk|pk]; try lia.
  - split; reflexivity.
  - destruct (binary_normalize_count pk ltac:(lia)) as (m1 & e1 & -> & Hd1 & He1 & Hm1).
    unfold FloatAxioms.SF64div, SpecFloat.SFdiv.
    change FloatOps.prec with 53. change FloatOps.emax with 1024.
    destruct (digits2_pos_bounds pk) as [Hklo Hkhi].
    destruct (digits2_pos_bounds pn) as [Hnlo Hnhi].
    assert (Hdk : Zpos (SpecFloat.digits2_pos pk) <= Zpos (SpecFloat.digits2_pos pn)).
    { destruct (Z.le_gt_cases (Zpos (SpecFloat.digits2_pos pk))
                              (Zpos (SpecFloat.digits2_pos pn))) as [|Hgt]; [assumption|].
      assert (2 ^ Zpos (SpecFloat.digits2_pos pn) <= 2 ^ (Zpos (SpecFloat.digits2_pos pk) - 1))
        by (apply Z.pow_le_mono_r; lia). lia. }
    assert (Hdn : Zpos (SpecFloat.digits2_pos pn) <= 53).
    { destruct (Z.le_gt_cases (Zpos (SpecFloat.digits2_pos pn)) 53) as [|Hgt]; [assumption|].
      assert (2 ^ 53 <= 2 ^ (Zpos (SpecFloat.digits2_pos pn) - 1))
        by (apply Z.pow_le_mono_r; lia). lia. }
    pose proof (SFdiv_core_below_one m1 m2 e1 e2 Hd1 Hd2) as Hcore.
    assert (Hle : Zpos m1 <= Zpos m2 * 2 ^ (e2 - e1)).
    { rewrite Hm1, Hm2, <- Z.mul_assoc, <- Z.pow_add_r by lia.
      replace (- e2 + (e2 - e1)) with (- e1) by lia.
      apply Z.mul_le_mono_nonneg_r; [apply Z.pow_nonneg|]; lia. }
    specialize (Hcore ltac:(lia) ltac:(lia) ltac:(lia) Hle).
    destruct (SpecFloat.SFdiv_core_binary 53 1024 (Zpos m1) e1 (Zpos m2) e2) as [[q e'] l].
    destruct Hcore as [He' Hinv]. cbn [xorb]. cbv beta iota.
    now apply binary_round_aux_in_unit_interval.
Qed.
End Binary64Quotient.
